(** * The post scraper (tools/scrape.py): a shallow embedding and its properties

    What is modelled, and how.

    - Text ([str]) is [text], a list of characters with code points 0..255
      (Latin-1).  Inside that range [str.lower], [str.strip], the classes
      [\d] and [\s] and case-insensitive matching are exact.  String
      literals are read as [text] through a coercion.
    - The patterns of the program run on a backtracking matcher with the
      ordered choice and greedy repetition of Python's [re].
    - [urllib.parse.urlsplit], [urlunsplit] and [datetime.strptime] follow
      the standard library's code; the validation of a bracketed IP literal
      is a parameter.
    - Raw records and stored documents hold [None], booleans, integers,
      text, lists and dictionaries; numbers with a fraction are left out.
    - A function that can raise returns [exc]; a [Result] is [Ok] or [Err]
      with the kind of the error.  The messages written for people, and what
      [--verbose] prints, are left out.
    - The date of the run, the clock behind [time.sleep], the network,
      [json.loads] and the feed and markup parsers (which lean on optional
      packages) are the [World]; the result of [load_sources] and the output
      directory are arguments of [main].
    - The output directory is the list of its files.  [os.listdir] promises
      no order: the list gives the order of one listing, a file that is
      rewritten keeps its place and a new file goes last.  The failure sink
      (the deadletter file) is taken to lie outside the output directory, as
      it does with the default paths.  Creating the directory, writing to it
      and appending to the failure sink succeed. *)

From Stdlib Require Import String Ascii List Bool Arith ZArith Lia.
Import ListNotations.
Open Scope string_scope.
Open Scope nat_scope.
Open Scope list_scope.

Set Implicit Arguments.
Set Warnings "-register-all,-abstract-large-number".

(** ** Characters and Python's [str] methods *)

Module Chr.

Definition code (c : ascii) : nat := nat_of_ascii c.

Definition between (lo hi : nat) (c : ascii) : bool :=
  (lo <=? code c) && (code c <=? hi).

Definition eqc (a c : ascii) : bool := Ascii.eqb a c.

(** [\d] below code point 256. *)
Definition is_digit : ascii -> bool := between 48 57.
Definition is_upper_ascii : ascii -> bool := between 65 90.
Definition is_lower_ascii : ascii -> bool := between 97 122.
Definition is_alpha_ascii (c : ascii) : bool := is_upper_ascii c || is_lower_ascii c.

(** [\s] and [str.isspace] below code point 256: tab, newline, vertical tab,
    form feed, carriage return, the separators 0x1c..0x1f, space, NEL and the
    no-break space. *)
Definition is_space (c : ascii) : bool :=
  between 9 13 c || between 28 32 c || (code c =? 133) || (code c =? 160).

(** [str.lower] on one character: A..Z and the Latin-1 capitals 0xC0..0xDE
    (the multiplication sign 0xD7 apart) move up by 32. *)
Definition lower (c : ascii) : ascii :=
  if is_upper_ascii c || (between 192 222 c && negb (code c =? 215))
  then ascii_of_nat (code c + 32) else c.

Definition newline : ascii := ascii_of_nat 10.

(** The double quote. *)
Definition dquote : ascii := ascii_of_nat 34.

End Chr.

Module Str.

Definition text := list ascii.

Definition of_string : string -> text := list_ascii_of_string.
Coercion of_string : string >-> text.

Definition texts (l : list string) : list text := map of_string l.

(** Concatenation of [str] values, literals included. *)
Notation "a +++ b" := (@List.app ascii (a : text) (b : text))
  (at level 60, right associativity).

Fixpoint eqb (a b : text) : bool :=
  match a, b with
  | [], [] => true
  | x :: a', y :: b' => Ascii.eqb x y && eqb a' b'
  | _, _ => false
  end.

Definition lower (s : text) : text := map Chr.lower s.

Fixpoint lstrip_by (p : ascii -> bool) (s : text) : text :=
  match s with
  | c :: s' => if p c then lstrip_by p s' else s
  | [] => []
  end.

Definition rstrip_by (p : ascii -> bool) (s : text) : text :=
  rev (lstrip_by p (rev s)).

(** [s.strip(chars)] with the character set given as a predicate. *)
Definition strip_by (p : ascii -> bool) (s : text) : text :=
  rstrip_by p (lstrip_by p s).

(** [s.strip()] *)
Definition strip : text -> text := strip_by Chr.is_space.

Fixpoint startswith (pre s : text) : bool :=
  match pre, s with
  | [], _ => true
  | a :: pre', c :: s' => Ascii.eqb a c && startswith pre' s'
  | _ :: _, [] => false
  end.

Definition endswith (suf s : text) : bool := startswith (rev suf) (rev s).

(** [sub in s] *)
Fixpoint contains (sub s : text) : bool :=
  startswith sub s ||
  match s with
  | [] => false
  | _ :: s' => contains sub s'
  end.

Definition mem (c : ascii) (s : text) : bool := existsb (Chr.eqc c) s.

(** [s.find(c)] for a single character. *)
Fixpoint find (c : ascii) (s : text) : option nat :=
  match s with
  | [] => None
  | a :: s' => if Ascii.eqb a c then Some 0 else option_map S (find c s')
  end.

(** [s.split(c, 1)] when [c] occurs in [s]: the text before the first [c] and
    the text after it. *)
Fixpoint split1 (c : ascii) (s : text) : option (text * text) :=
  match s with
  | [] => None
  | a :: s' =>
      if Ascii.eqb a c then Some ([], s')
      else match split1 c s' with
           | Some (l, r) => Some (a :: l, r)
           | None => None
           end
  end.

(** Decimal digits of a natural number, most significant first; [fuel]
    bounds the number of digits. *)
Fixpoint digits_fuel (fuel : nat) (n : N) (acc : text) : text :=
  match fuel with
  | O => acc
  | S fuel' =>
      let acc' := ascii_of_N (48 + n mod 10) :: acc in
      if (n <? 10)%N then acc' else digits_fuel fuel' (n / 10)%N acc'
  end.

Definition of_N (n : N) : text := digits_fuel (S (N.to_nat (N.log2 n))) n [].

(** [str(z)] for an integer. *)
Definition of_Z (z : Z) : text :=
  match z with
  | Zneg _ => "-"%char :: of_N (Z.abs_N z)
  | _ => of_N (Z.abs_N z)
  end.

(** [f"{n:0{w}d}"] for [n >= 0]: zero padding on the left up to width [w]. *)
Definition zfill (w : nat) (s : text) : text :=
  repeat "0"%char (w - length s) ++ s.

(** [int(s)] for a text of decimal digits, possibly with blanks around. *)
Definition to_N (s : text) : N :=
  fold_left (fun acc c => if Chr.is_digit c then 10 * acc + (N_of_ascii c - 48) else acc)%N
            s 0%N.

(** The text after the last [c] ([s.rpartition(c)[2]]). *)
Fixpoint after_last (c : ascii) (s : text) : text :=
  match s with
  | [] => []
  | a :: s' => if mem c s' then after_last c s' else if Ascii.eqb a c then s' else s
  end.

(** [s.partition(c)], without the separator: before, whether found, after. *)
Definition partition (c : ascii) (s : text) : text * bool * text :=
  match split1 c s with
  | Some (l, r) => (l, true, r)
  | None => (s, false, [])
  end.

Fixpoint take_until (p : ascii -> bool) (s : text) : text :=
  match s with
  | [] => []
  | c :: s' => if p c then [] else c :: take_until p s'
  end.

Fixpoint drop_until (p : ascii -> bool) (s : text) : text :=
  match s with
  | [] => []
  | c :: s' => if p c then s else drop_until p s'
  end.

(** Lexicographic [<] on [str], by code point. *)
Fixpoint ltb (a b : text) : bool :=
  match a, b with
  | [], [] => false
  | [], _ :: _ => true
  | _ :: _, [] => false
  | x :: a', y :: b' =>
      if Chr.code x <? Chr.code y then true
      else if Chr.code y <? Chr.code x then false
      else ltb a' b'
  end.

End Str.

(** ** Regular expressions

    The fragment of Python's [re] that the program's patterns use: character
    classes, concatenation, ordered alternation, greedy bounded repetition of
    a class, capturing groups and the anchors [^] and [$].  Matching is
    backtracking with ordered choice, as in [re]: the first alternative and
    the longest repetition are tried first, and the continuation decides
    whether the match stands. *)

Module Re.

Import Str.

Inductive regex : Type :=
| Eps : regex
| Cls : (ascii -> bool) -> regex
| Cat : regex -> regex -> regex
| Alt : regex -> regex -> regex
| Rep : (ascii -> bool) -> nat -> option nat -> regex
| Grp : nat -> regex -> regex
| Bos : regex
| Eos : regex.

Definition caps := list (nat * text).

(** What matching returns: the end position and the captured groups. *)
Definition outcome := option (nat * caps).

Definition cont := nat -> text -> caps -> outcome.

Definition more (hi : option nat) : bool :=
  match hi with
  | Some O => false
  | _ => true
  end.

Definition dec (hi : option nat) : option nat := option_map pred hi.

Definition orelse (a : outcome) (b : unit -> outcome) : outcome :=
  match a with
  | Some x => Some x
  | None => b tt
  end.

(** Greedy [p{lo,hi}]: take a character while allowed, and give one back
    each time the rest of the pattern fails. *)
Fixpoint rep_cls (p : ascii -> bool) (lo : nat) (hi : option nat)
         (pos : nat) (s : text) (cs : caps) (k : cont) {struct s} : outcome :=
  let stop := fun _ : unit => if lo =? 0 then k pos s cs else None in
  match s with
  | c :: s' =>
      if p c && more hi
      then orelse (rep_cls p (pred lo) (dec hi) (S pos) s' cs k) stop
      else stop tt
  | [] => stop tt
  end.

Fixpoint rmatch (r : regex) (pos : nat) (s : text) (cs : caps) (k : cont) : outcome :=
  match r with
  | Eps => k pos s cs
  | Cls p =>
      match s with
      | c :: s' => if p c then k (S pos) s' cs else None
      | [] => None
      end
  | Cat r1 r2 => rmatch r1 pos s cs (fun pos' s' cs' => rmatch r2 pos' s' cs' k)
  | Alt r1 r2 => orelse (rmatch r1 pos s cs k) (fun _ => rmatch r2 pos s cs k)
  | Rep p lo hi => rep_cls p lo hi pos s cs k
  | Grp i r1 =>
      rmatch r1 pos s cs
             (fun pos' s' cs' => k pos' s' ((i, firstn (pos' - pos) s) :: cs'))
  | Bos => if pos =? 0 then k pos s cs else None
  | Eos =>
      match s with
      | [] => k pos s cs
      | [c] => if Chr.eqc Chr.newline c then k pos s cs else None
      | _ => None
      end
  end.

Definition accept : cont := fun pos _ cs => Some (pos, cs).

(** The match of [r] that starts at position [pos], where [s] is the subject
    from [pos] on. *)
Definition match_at (r : regex) (pos : nat) (s : text) : outcome :=
  rmatch r pos s [] accept.

(** [pattern.match(s)] *)
Definition match_ (r : regex) (s : text) : outcome := match_at r 0 s.

Definition matches (r : regex) (s : text) : bool :=
  match match_ r s with
  | Some _ => true
  | None => false
  end.

(** [pattern.search(s)]: the leftmost position with a match. *)
Fixpoint search_from (r : regex) (pos : nat) (s : text) : outcome :=
  match match_at r pos s with
  | Some x => Some x
  | None =>
      match s with
      | [] => None
      | _ :: s' => search_from r (S pos) s'
      end
  end.

Definition search (r : regex) (s : text) : outcome := search_from r 0 s.

(** [m.group(i)] *)
Fixpoint group (i : nat) (cs : caps) : text :=
  match cs with
  | [] => []
  | (j, t) :: cs' => if i =? j then t else group i cs'
  end.

(** [pattern.sub(repl, s)] for a literal replacement: matches are found left
    to right, each search resuming where the previous match ended; [skip]
    counts the characters of the current match still to be dropped. *)
Fixpoint sub_from (r : regex) (repl : text) (skip pos : nat) (s : text) : text :=
  match skip, s with
  | S n, _ :: s' => sub_from r repl n (S pos) s'
  | S _, [] => []
  | O, [] =>
      match match_at r pos [] with
      | Some _ => repl
      | None => []
      end
  | O, c :: s' =>
      match match_at r pos s with
      | Some (e, _) =>
          match e - pos with
          | O => repl ++ c :: sub_from r repl 0 (S pos) s'
          | S n => repl ++ sub_from r repl n (S pos) s'
          end
      | None => c :: sub_from r repl 0 (S pos) s'
      end
  end.

Definition sub (r : regex) (repl s : text) : text := sub_from r repl 0 0 s.

(** Pattern builders. *)
Definition chr (c : ascii) : regex := Cls (Chr.eqc c).

(** A character under [re.I]. *)
Definition chr_i (c : ascii) : regex :=
  Cls (fun x => Ascii.eqb (Chr.lower x) (Chr.lower c)).

Fixpoint seq (rs : list regex) : regex :=
  match rs with
  | [] => Eps
  | [r] => r
  | r :: rs' => Cat r (seq rs')
  end.

Definition lit (s : text) : regex := seq (map chr s).
Definition lit_i (s : text) : regex := seq (map chr_i s).

Definition exactly (p : ascii -> bool) (n : nat) : regex := Rep p n (Some n).
Definition plus (p : ascii -> bool) : regex := Rep p 1 None.
Definition opt (c : ascii) : regex := Rep (Chr.eqc c) 0 (Some 1).
Definition digit : regex := Cls Chr.is_digit.

(** The length of the longest prefix inside a class. *)
Fixpoint run (p : ascii -> bool) (s : text) : nat :=
  match s with
  | c :: s' => if p c then S (run p s') else 0
  | [] => 0
  end.

(** *** The texts a pattern matches

    For a pattern without anchors, the texts it can match do not depend on
    where they stand. *)

Fixpoint plain (r : regex) : bool :=
  match r with
  | Eps | Cls _ | Rep _ _ _ => true
  | Cat r1 r2 | Alt r1 r2 => plain r1 && plain r2
  | Grp _ r1 => plain r1
  | Bos | Eos => false
  end.

Definition at_most (hi : option nat) (n : nat) : Prop :=
  match hi with
  | Some h => n <= h
  | None => True
  end.

Fixpoint lang (r : regex) (w : text) : Prop :=
  match r with
  | Eps => w = []
  | Cls p => exists c, w = [c] /\ p c = true
  | Cat r1 r2 => exists w1 w2, w = w1 ++ w2 /\ lang r1 w1 /\ lang r2 w2
  | Alt r1 r2 => lang r1 w \/ lang r2 w
  | Rep p lo hi =>
      Forall (fun c => p c = true) w /\ lo <= List.length w /\ at_most hi (List.length w)
  | Grp _ r1 => lang r1 w
  | Bos | Eos => False
  end.

(** Every character the pattern can consume satisfies [A]. *)
Fixpoint within (A : ascii -> Prop) (r : regex) : Prop :=
  match r with
  | Cls p | Rep p _ _ => forall c, p c = true -> A c
  | Cat r1 r2 | Alt r1 r2 => within A r1 /\ within A r2
  | Grp _ r1 => within A r1
  | Eps | Bos | Eos => True
  end.

(** Every match of the pattern has a character satisfying [K]. *)
Fixpoint must (K : ascii -> Prop) (r : regex) : Prop :=
  match r with
  | Cls p => forall c, p c = true -> K c
  | Rep p lo _ => 1 <= lo /\ forall c, p c = true -> K c
  | Cat r1 r2 => must K r1 \/ must K r2
  | Alt r1 r2 => must K r1 /\ must K r2
  | Grp _ r1 => must K r1
  | Eps | Bos | Eos => False
  end.

End Re.

Import Str.

(** ** Module-level patterns *)

(** [ISO_DATE_RE = re.compile(r"^\d{4}-\d{2}-\d{2}$")] *)
Definition ISO_DATE_RE : Re.regex :=
  Re.seq [Re.Bos; Re.exactly Chr.is_digit 4; Re.chr "-"; Re.exactly Chr.is_digit 2;
          Re.chr "-"; Re.exactly Chr.is_digit 2; Re.Eos].

(** [HTTPS_RE = re.compile(r"^https://", re.I)] *)
Definition HTTPS_RE : Re.regex := Re.Cat Re.Bos (Re.lit_i "https://").

(** The classes of [EMAIL_RE] under [re.I]. *)
Definition email_local (c : ascii) : bool :=
  Chr.is_alpha_ascii c || Chr.is_digit c || mem c "._%+-".
Definition email_domain (c : ascii) : bool :=
  Chr.is_alpha_ascii c || Chr.is_digit c || mem c ".-".

(** [EMAIL_RE = re.compile(r"[A-Z0-9._%+-]+@[A-Z0-9.-]+\.[A-Z]{2,}", re.I)] *)
Definition EMAIL_RE : Re.regex :=
  Re.seq [Re.plus email_local; Re.chr "@"; Re.plus email_domain; Re.chr ".";
          Re.Rep Chr.is_alpha_ascii 2 None].

(** [PHONE_RE = re.compile(r"(?:(?:\+?82|0)1[0-9]-?\d{3,4}-?\d{4}|\d{2,4}-\d{3,4}-\d{4})")] *)
Definition PHONE_RE : Re.regex :=
  Re.Alt
    (Re.seq [Re.Alt (Re.Cat (Re.opt "+") (Re.lit "82")) (Re.chr "0");
             Re.chr "1"; Re.digit; Re.opt "-"; Re.Rep Chr.is_digit 3 (Some 4);
             Re.opt "-"; Re.exactly Chr.is_digit 4])
    (Re.seq [Re.Rep Chr.is_digit 2 (Some 4); Re.chr "-"; Re.Rep Chr.is_digit 3 (Some 4);
             Re.chr "-"; Re.exactly Chr.is_digit 4]).

(** ** Results and exceptions *)

(** A computation that returns a value or raises a Python exception (named by
    its class). *)
Inductive exc (A : Type) : Type :=
| Ret : A -> exc A
| Raise : string -> exc A.
Arguments Ret {A} _.
Arguments Raise {A} _.

Definition bind {A B : Type} (m : exc A) (f : A -> exc B) : exc B :=
  match m with
  | Ret a => f a
  | Raise e => Raise e
  end.

Notation "x <- m ;; f" := (bind m (fun x => f))
  (at level 61, m at next level, right associativity).

(** ** Utils *)

(** *** Dates *)

Local Open Scope N_scope.

Definition is_leap (y : N) : bool :=
  ((y mod 4 =? 0) && negb (y mod 100 =? 0)) || (y mod 400 =? 0).

Definition days_in_month (y m : N) : N :=
  match m with
  | 2 => if is_leap y then 29 else 28
  | 4 | 6 | 9 | 11 => 30
  | _ => 31
  end.

(** [dt.date(y, m, d).isoformat()], or [None] where the constructor raises
    [ValueError]. *)
Definition date_iso (y m d : N) : option text :=
  if (1 <=? y) && (y <=? 9999) && (1 <=? m) && (m <=? 12) &&
     (1 <=? d) && (d <=? days_in_month y m)
  then Some (zfill 4 (of_N y) +++ "-" +++ zfill 2 (of_N m) +++ "-" +++ zfill 2 (of_N d))
  else None.

Local Close Scope N_scope.

(** The directives of [strptime] as its module writes them:
    [%Y] is [(?P<Y>\d\d\d\d)], [%m] is [(?P<m>1[0-2]|0[1-9]|[1-9])] and
    [%d] is [(?P<d>3[0-1]|[1-2]\d|0[1-9]|[1-9]| [1-9])]; the groups Y, m, d
    are numbered 1, 2, 3 here. *)
Definition dir_Y : Re.regex :=
  Re.Grp 1 (Re.seq [Re.digit; Re.digit; Re.digit; Re.digit]).

Definition dir_m : Re.regex :=
  Re.Grp 2 (Re.Alt (Re.Cat (Re.chr "1") (Re.Cls (Chr.between 48 50)))
           (Re.Alt (Re.Cat (Re.chr "0") (Re.Cls (Chr.between 49 57)))
                   (Re.Cls (Chr.between 49 57)))).

Definition dir_d : Re.regex :=
  Re.Grp 3 (Re.Alt (Re.Cat (Re.chr "3") (Re.Cls (Chr.between 48 49)))
           (Re.Alt (Re.Cat (Re.Cls (Chr.between 49 50)) Re.digit)
           (Re.Alt (Re.Cat (Re.chr "0") (Re.Cls (Chr.between 49 57)))
           (Re.Alt (Re.Cls (Chr.between 49 57))
                   (Re.Cat (Re.chr " ") (Re.Cls (Chr.between 49 57))))))).

(** [dt.datetime.strptime(s, fmt).date().isoformat()] for a format given as
    its compiled pattern; [None] where [strptime] raises [ValueError] (no
    match, unconverted data left, or no such calendar day). *)
Definition strptime_iso (fmt : Re.regex) (s : text) : option text :=
  match Re.match_ fmt s with
  | Some (e, cs) =>
      if e =? List.length s
      then date_iso (to_N (Re.group 1 cs)) (to_N (Re.group 2 cs)) (to_N (Re.group 3 cs))
      else None
  | None => None
  end.

(** The formats tried by [parse_date], in order:
    "%Y-%m-%d", "%Y/%m/%d", "%Y.%m.%d", "%Y%m%d", "%d-%m-%Y", "%d/%m/%Y". *)
Definition date_formats : list Re.regex :=
  [ Re.seq [dir_Y; Re.chr "-"; dir_m; Re.chr "-"; dir_d];
    Re.seq [dir_Y; Re.chr "/"; dir_m; Re.chr "/"; dir_d];
    Re.seq [dir_Y; Re.chr "."; dir_m; Re.chr "."; dir_d];
    Re.seq [dir_Y; dir_m; dir_d];
    Re.seq [dir_d; Re.chr "-"; dir_m; Re.chr "-"; dir_Y];
    Re.seq [dir_d; Re.chr "/"; dir_m; Re.chr "/"; dir_Y] ].

Definition date_sep (c : ascii) : bool := mem c "-./".

(** [(20\d{2}|19\d{2})[-./](\d{1,2})[-./](\d{1,2})] *)
Definition DATE_SCAN_RE : Re.regex :=
  Re.seq [Re.Grp 1 (Re.Alt (Re.Cat (Re.lit "20") (Re.exactly Chr.is_digit 2))
                           (Re.Cat (Re.lit "19") (Re.exactly Chr.is_digit 2)));
          Re.Cls date_sep; Re.Grp 2 (Re.Rep Chr.is_digit 1 (Some 2));
          Re.Cls date_sep; Re.Grp 3 (Re.Rep Chr.is_digit 1 (Some 2))].

Fixpoint first_format (fmts : list Re.regex) (s : text) : option text :=
  match fmts with
  | [] => None
  | f :: fmts' =>
      match strptime_iso f s with
      | Some d => Some d
      | None => first_format fmts' s
      end
  end.

(** [parse_date] on a [str] argument. *)
Definition parse_date (s : text) : option text :=
  match s with
  | [] => None
  | _ =>
      let s := strip s in
      match first_format date_formats s with
      | Some d => Some d
      | None =>
          match Re.search DATE_SCAN_RE s with
          | Some (_, cs) =>
              date_iso (to_N (Re.group 1 cs)) (to_N (Re.group 2 cs))
                       (to_N (Re.group 3 cs))
          | None => None
          end
      end
  end.

(** *** URLs: [urllib.parse.urlsplit] and [urlunsplit] *)

Record SplitResult : Type := mkSplit {
  scheme : text;
  netloc : text;
  path : text;
  query : text;
  fragment : text
}.

(** [scheme_chars]: ASCII letters, digits and [+-.]. *)
Definition scheme_char (c : ascii) : bool :=
  Chr.is_alpha_ascii c || Chr.is_digit c || mem c "+-.".

(** [_WHATWG_C0_CONTROL_OR_SPACE] *)
Definition c0_control_or_space (c : ascii) : bool := Chr.code c <=? 32.

(** [_UNSAFE_URL_BYTES_TO_REMOVE]: tab, carriage return, newline. *)
Definition unsafe_url_byte (c : ascii) : bool :=
  (Chr.code c =? 9) || (Chr.code c =? 13) || (Chr.code c =? 10).

Definition uses_netloc : list text :=
  texts [ ""; "ftp"; "http"; "gopher"; "nntp"; "telnet"; "imap"; "wais"; "file"; "mms";
          "https"; "shttp"; "snews"; "prospero"; "rtsp"; "rtspu"; "rsync"; "svn";
          "svn+ssh"; "sftp"; "nfs"; "git"; "git+ssh"; "ws"; "wss" ].

Definition text_in (s : text) (l : list text) : bool := existsb (eqb s) l.

(** The scheme and what follows it, when the text before the first colon is
    a scheme. *)
Definition split_scheme (url : text) : text * text :=
  match find ":" url, url with
  | Some (S i), c :: _ =>
      if Chr.is_alpha_ascii c && forallb scheme_char (firstn (S i) url)
      then (lower (firstn (S i) url), skipn (S (S i)) url)
      else ([], url)
  | _, _ => ([], url)
  end.

Definition netloc_delim (c : ascii) : bool := mem c "/?#".

(** [r"\Av[a-fA-F0-9]+\..+\Z"] *)
Definition IPVFUTURE_RE : Re.regex :=
  Re.seq [Re.chr "v";
          Re.plus (fun c => Chr.is_digit c || Chr.between 97 102 c || Chr.between 65 70 c);
          Re.chr "."; Re.plus (fun c => negb (Chr.eqc Chr.newline c))].

(** ** Python values

    The values a raw record or a stored document can hold after
    [json.loads]: [None], booleans, integers, text, lists and dictionaries
    with text keys.  Numbers with a fraction are not modelled.  A dictionary
    is an association list in insertion order with distinct keys. *)

Inductive value : Type :=
| VNone : value
| VBool : bool -> value
| VInt : Z -> value
| VStr : text -> value
| VList : list value -> value
| VDict : list (text * value) -> value.

Definition dict := list (text * value).

Coercion VStr : text >-> value.

Definition truthy (v : value) : bool :=
  match v with
  | VNone => false
  | VBool b => b
  | VInt z => negb (z =? 0)%Z
  | VStr s => match s with [] => false | _ => true end
  | VList l => match l with [] => false | _ => true end
  | VDict d => match d with [] => false | _ => true end
  end.

(** [a or b] *)
Definition por (a b : value) : value := if truthy a then a else b.
Infix "|||" := por (at level 50, left associativity).

Fixpoint lookup (d : dict) (k : text) : option value :=
  match d with
  | [] => None
  | (k', v) :: d' => if eqb k k' then Some v else lookup d' k
  end.

(** [d.get(k)] *)
Definition get (d : dict) (k : text) : value :=
  match lookup d k with
  | Some v => v
  | None => VNone
  end.

(** [d.get(k, default)] *)
Definition get_or (d : dict) (k : text) (default : value) : value :=
  match lookup d k with
  | Some v => v
  | None => default
  end.

(** [k in d] *)
Definition has (d : dict) (k : text) : bool :=
  match lookup d k with
  | Some _ => true
  | None => false
  end.

(** [d[k] = v]: an existing key keeps its place, a new one goes last. *)
Fixpoint set (d : dict) (k : text) (v : value) : dict :=
  match d with
  | [] => [(k, v)]
  | (k', v') :: d' => if eqb k k' then (k', v) :: d' else (k', v') :: set d' k v
  end.

Definition is_list (v : value) : bool :=
  match v with
  | VList _ => true
  | _ => false
  end.

(** *** [str] and [repr] *)

Definition hex_digit (n : nat) : ascii :=
  if n <? 10 then ascii_of_nat (48 + n) else ascii_of_nat (87 + n).

(** A character that [repr] writes as it is: printable, below code point
    256. *)
Definition printable (c : ascii) : bool :=
  (32 <=? Chr.code c) && negb (Chr.code c =? 127) &&
  negb (Chr.between 128 160 c) && negb (Chr.code c =? 173).

Definition repr_char (quote c : ascii) : text :=
  if Chr.eqc quote c || Chr.eqc "\" c then ["\"%char; c]
  else if Chr.code c =? 9 then "\t"
  else if Chr.code c =? 10 then "\n"
  else if Chr.code c =? 13 then "\r"
  else if printable c then [c]
  else ["\"%char; "x"%char; hex_digit (Chr.code c / 16); hex_digit (Chr.code c mod 16)].

(** [repr(s)] for text: single quotes, unless the text has a single quote
    and no double quote. *)
Definition repr_str (s : text) : text :=
  let quote := if mem "'" s && negb (mem Chr.dquote s) then Chr.dquote else "'"%char in
  quote :: flat_map (repr_char quote) s ++ [quote].

Fixpoint join (sep : text) (l : list text) : text :=
  match l with
  | [] => []
  | [x] => x
  | x :: l' => x ++ sep ++ join sep l'
  end.

Fixpoint repr (v : value) : text :=
  match v with
  | VNone => "None"
  | VBool true => "True"
  | VBool false => "False"
  | VInt z => of_Z z
  | VStr s => repr_str s
  | VList l => "[" +++ join ", " (map repr l) +++ "]"
  | VDict d =>
      "{" +++ join ", " (map (fun kv => repr_str (fst kv) +++ ": " +++ repr (snd kv)) d) +++ "}"
  end.

(** [str(v)] *)
Definition str (v : value) : text :=
  match v with
  | VStr s => s
  | _ => repr v
  end.

(** [v.strip()]: only text has the method. *)
Definition strip_of (v : value) : exc text :=
  match v with
  | VStr s => Ret (strip s)
  | _ => Raise "AttributeError"
  end.

(** *** [int]

    The blanks that [int] skips at both ends of a text: Python's
    whitespace without the separators 0x1c..0x1f. *)
Definition int_blank (c : ascii) : bool :=
  Chr.between 9 13 c || (Chr.code c =? 32) || (Chr.code c =? 133) || (Chr.code c =? 160).

(** Decimal digits in groups joined by single underscores; [prev] tells
    whether the previous character was a digit. *)
Fixpoint digit_groups (prev : bool) (s : text) : bool :=
  match s with
  | [] => prev
  | c :: s' =>
      if Chr.is_digit c then digit_groups true s'
      else Chr.eqc "_" c && prev && digit_groups false s'
  end.

(** [sys.get_int_max_str_digits()], as the interpreter starts. *)
Definition INT_MAX_STR_DIGITS : nat := 4300.

(** [int(s)] for text: blanks at both ends, a sign, digit groups. *)
Definition int_of_text (s : text) : exc Z :=
  let s := strip_by int_blank s in
  let '(negative, body) :=
    match s with
    | c :: s' =>
        if Chr.eqc "-" c then (true, s')
        else if Chr.eqc "+" c then (false, s')
        else (false, s)
    | [] => (false, s)
    end in
  if digit_groups false body &&
     (List.length (filter Chr.is_digit body) <=? INT_MAX_STR_DIGITS)
  then Ret (if negative then (- Z.of_N (to_N body))%Z else Z.of_N (to_N body))
  else Raise "ValueError".

(** [int(v)]: a number as it is, a boolean as 0 or 1, text by its decimal
    reading; anything else is a TypeError. *)
Definition int_of (v : value) : exc Z :=
  match v with
  | VInt z => Ret z
  | VBool b => Ret (if b then 1%Z else 0%Z)
  | VStr s => int_of_text s
  | VNone | VList _ | VDict _ => Raise "TypeError"
  end.

(** ** Data types *)

(** The failure kinds of the pipeline (the ["kind"] of an error). *)
Inductive Kind : Type :=
| ConfigMissing | ConfigInvalid | FetchError | UnsupportedSource | SourceError
| Normalize | SinceFilter | Validate | WriteError.

Definition Kind_eqb (a b : Kind) : bool :=
  match a, b with
  | ConfigMissing, ConfigMissing | ConfigInvalid, ConfigInvalid
  | FetchError, FetchError | UnsupportedSource, UnsupportedSource
  | SourceError, SourceError | Normalize, Normalize | SinceFilter, SinceFilter
  | Validate, Validate | WriteError, WriteError => true
  | _, _ => false
  end.

(** [Result]: [ok_(data)] or [err(kind, ...)].  The messages of an error are
    texts for people and are not modelled; an error is its kind. *)
Inductive Result (A : Type) : Type :=
| Ok : A -> Result A
| Err : Kind -> Result A.
Arguments Ok {A} _.
Arguments Err {A} _.

(** [Source], with the field types its dataclass declares; [rateLimit] is
    kept as the configuration gives it ([None] where it gives none), since
    [collect_from_source] converts what it finds there. *)
Record Source : Type := mkSource {
  src_id : text;
  src_type : text;
  src_url : text;
  src_selectors : option (list (text * text));
  src_mapping : option dict;
  src_rateLimit : value;
  src_sourceName : option text;
  src_postType : option text
}.

Section Program.

(** [ipaddress.ip_address(h)] returns an IPv6 address: the one library
    judgement that is left abstract. *)
Variable is_ipv6_address : text -> bool.

(** [_check_bracketed_host]: [true] where it returns, [false] where it raises
    [ValueError]. *)
Definition check_bracketed_host (hostname : text) : bool :=
  if startswith "v" hostname
  then match Re.match_ IPVFUTURE_RE hostname with
       | Some (e, _) => e =? List.length hostname
       | None => false
       end
  else is_ipv6_address hostname.

(** [_check_bracketed_netloc] *)
Definition check_bracketed_netloc (netloc : text) : bool :=
  let hostname_and_port := after_last "@" netloc in
  match partition "[" hostname_and_port with
  | (before_bracket, true, bracketed) =>
      match before_bracket with
      | _ :: _ => false
      | [] =>
          match partition "]" bracketed with
          | (hostname, _, port) =>
              match port with
              | c :: _ => if Chr.eqc ":" c then check_bracketed_host hostname else false
              | [] => check_bracketed_host hostname
              end
          end
      end
  | (_, false, _) =>
      match partition ":" hostname_and_port with
      | (hostname, _, _) => check_bracketed_host hostname
      end
  end.

(** [urllib.parse.urlsplit(url)] on text below code point 256.  There the
    check of the host after NFKC normalization ([_checknetloc]) never fails:
    no character below 256 normalizes to a text that holds one of [/?#@:].
    A host with other characters can make [urlsplit] raise ValueError; such
    texts are outside [text]. *)
Definition urlsplit (url : text) : exc SplitResult :=
  let url := lstrip_by c0_control_or_space url in
  let url := filter (fun c => negb (unsafe_url_byte c)) url in
  let '(scheme, url) := split_scheme url in
  let '(netloc, url) :=
    if startswith "//" url
    then (take_until netloc_delim (skipn 2 url), drop_until netloc_delim (skipn 2 url))
    else ([], url) in
  if (mem "[" netloc && negb (mem "]" netloc)) || (mem "]" netloc && negb (mem "[" netloc))
  then Raise "ValueError"
  else if mem "[" netloc && mem "]" netloc && negb (check_bracketed_netloc netloc)
  then Raise "ValueError"
  else
    let '(url, fragment) :=
      match split1 "#" url with
      | Some (u, f) => (u, f)
      | None => (url, [])
      end in
    let '(url, query) :=
      match split1 "?" url with
      | Some (u, q) => (u, q)
      | None => (url, [])
      end in
    Ret (mkSplit scheme netloc url query fragment).

Definition nonempty (s : text) : bool :=
  match s with
  | [] => false
  | _ :: _ => true
  end.

(** [urllib.parse.urlunsplit((scheme, netloc, url, query, fragment))] *)
Definition urlunsplit (u : SplitResult) : text :=
  let url := path u in
  let url :=
    if nonempty (netloc u) ||
       (nonempty (scheme u) && text_in (scheme u) uses_netloc && negb (startswith "//" url))
    then "//" +++ netloc u +++
         (if nonempty url && negb (startswith "/" url) then "/" +++ url else url)
    else url in
  let url := if nonempty (scheme u) then scheme u +++ ":" +++ url else url in
  let url := if nonempty (query u) then url +++ "?" +++ query u else url in
  if nonempty (fragment u) then url +++ "#" +++ fragment u else url.

Definition to_https (url : text) : exc (option text) :=
  if negb (nonempty url) then Ret None
  else
    let url := strip url in
    if negb (startswith "http" (lower url)) then Ret None
    else
      u <- urlsplit url ;;
      let scheme' := if text_in (scheme u) (texts ["http"; "https"]) then ("https" : text) else scheme u in
      let rebuilt := urlunsplit (mkSplit scheme' (netloc u) (path u) (query u) (fragment u)) in
      Ret (if Re.matches HTTPS_RE rebuilt then Some rebuilt else None).

(** *** Slugs and scrubbing *)

Definition space_or_underscore (c : ascii) : bool := Chr.is_space c || Chr.eqc "_" c.

(** The class [a-z0-9-]. *)
Definition slug_char (c : ascii) : bool :=
  Chr.is_lower_ascii c || Chr.is_digit c || Chr.eqc "-" c.

Definition slugify_len (max_len : nat) (s : text) : text :=
  let s := lower s in
  let s := Re.sub (Re.plus space_or_underscore) "-" s in
  let s := Re.sub (Re.Cls (fun c => negb (slug_char c))) "" s in
  let s := strip_by (Chr.eqc "-") (Re.sub (Re.plus (Chr.eqc "-")) "-" s) in
  match firstn max_len s with
  | [] => "post"
  | t => t
  end.

(** [slugify(s)] with the default [max_len = 48]. *)
Definition slugify : text -> text := slugify_len 48.

Definition scrub_pii (t : text) : text :=
  let t := Re.sub EMAIL_RE "[redacted]" t in
  Re.sub PHONE_RE "[redacted]" t.

(** ** Normalization and validation *)

Definition COMMON_REQUIRED : list text :=
  texts ["id"; "type"; "title"; "date_published"; "last_checked_at";
         "source_name"; "source_url"; "payload"].

(** [x or y] where [x] is an optional text. *)
Definition text_or (x : option text) (y : text) : text :=
  match x with
  | Some (c :: t) => c :: t
  | _ => y
  end.

Definition choose_type (src : Source) : text :=
  match src_postType src with
  | Some (c :: t) => c :: t
  | _ => if contains "job" (lower (src_id src)) then "job" else "notice"
  end.

(** [f"ime-{date_published}-{seq:04d}"] *)
Definition build_id (date_published slug : text) (seq : N) : text :=
  "ime-" +++ date_published +++ "-" +++ zfill 4 (of_N seq).

Definition make_slug_or (candidate fallback : text) : text :=
  match slugify candidate with
  | [] => slugify fallback
  | s => s
  end.

(** [make_slug(candidate)] with the default [fallback = "post"]. *)
Definition make_slug (candidate : text) : text := make_slug_or candidate "post".

(** [to_https] on an argument of any type: a falsy one gives [None], and
    only text has [strip]. *)
Definition to_https_of (v : value) : exc (option text) :=
  match v with
  | VStr s => to_https s
  | _ => if truthy v then Raise "AttributeError" else Ret None
  end.

(** [parse_date] on an argument of any type. *)
Definition parse_date_of (v : value) : exc (option text) :=
  match v with
  | VStr s => Ret (parse_date s)
  | _ => if truthy v then Raise "AttributeError" else Ret None
  end.

Definition list_or_empty (v : value) : value := v ||| VList [].
Definition text_or_empty (v : value) : value := v ||| VStr "".

Definition SCRUB_KEYS : list text :=
  texts ["requirements"; "nice_to_have"; "documents"; "apply_steps"; "notes";
         "benefits"; "selection"].

(** One turn of the scrubbing loop. *)
Definition scrub_key (payload : dict) (key : text) : dict :=
  match get payload key with
  | VList xs => set payload key (VList (map (fun x => VStr (scrub_pii (str x))) xs))
  | _ => payload
  end.

(** The scrubbing loop; [payload.get] needs a dictionary. *)
Definition scrub_payload (payload : value) : exc dict :=
  match payload with
  | VDict d => Ret (fold_left scrub_key SCRUB_KEYS d)
  | _ => Raise "AttributeError"
  end.

Definition TYPES : list text :=
  texts ["scholarship"; "activity"; "job"; "grad"; "event"; "notice"].

Definition hashable (v : value) : bool :=
  match v with
  | VList _ | VDict _ => false
  | _ => true
  end.

(** [v == s] for a text [s]. *)
Definition eq_text (v : value) (s : text) : bool :=
  match v with
  | VStr t => eqb t s
  | _ => false
  end.

Definition blank (v : value) : bool :=
  match v with
  | VStr s => negb (nonempty (strip s))
  | _ => false
  end.

Definition validate_common (doc : dict) : exc (Result dict) :=
  if existsb (fun k => negb (has doc k) || blank (get doc k)) COMMON_REQUIRED
  then Ret (Err Validate)
  else if existsb (fun k => negb (Re.matches ISO_DATE_RE (str (get doc k))))
                  (texts ["date_published"; "last_checked_at"])
  then Ret (Err Validate)
  else if negb (match get doc "deadline" with
                | VNone => true
                | v => eq_text v ""
                end)
          && negb (Re.matches ISO_DATE_RE (str (get doc "deadline")))
  then Ret (Err Validate)
  else if negb (Re.matches HTTPS_RE (str (get doc "source_url")))
  then Ret (Err Validate)
  else if negb (hashable (get doc "type")) then Raise "TypeError"
  else if negb (existsb (eq_text (get doc "type")) TYPES)
  then Ret (Err Validate)
  else Ret (Ok doc).

(** The type-specific payload of [normalize_record]. *)
Definition build_payload (src : Source) (r : dict) (title link post_type : text)
  : exc value :=
  let mapping := match src_mapping src with Some m => m | None => [] end in
  let mget := get_or mapping in
  if eqb post_type "job" then
    apply_url <- to_https_of (get r "apply_url" ||| VStr link) ;;
    Ret (VDict
      [ ("company" : text, mget "company" (get r "company" ||| get r "org" ||| VStr ""));
        ("role" : text, get r "role" ||| VStr title);
        ("location" : text, get r "location" ||| VStr "");
        ("employment_type" : text,
           mget "employment_type" (get r "employment_type" ||| get r "type" ||| VStr ""));
        ("salary_min" : text, get r "salary_min");
        ("salary_max" : text, get r "salary_max");
        ("apply_url" : text, VStr (text_or apply_url link));
        ("requirements" : text, list_or_empty (get r "requirements"));
        ("nice_to_have" : text, list_or_empty (get r "nice_to_have")) ])
  else if eqb post_type "scholarship" then
    Ret (VDict
      [ ("amount_max" : text, get r "amount_max");
        ("eligible_years" : text, list_or_empty (get r "eligible_years"));
        ("gpa_min" : text, get r "gpa_min");
        ("income_bracket_max" : text, get r "income_bracket_max");
        ("major" : text, get r "major");
        ("region" : text, get r "region");
        ("requirements" : text, list_or_empty (get r "requirements"));
        ("documents" : text, list_or_empty (get r "documents"));
        ("apply_steps" : text, list_or_empty (get r "apply_steps"));
        ("notes" : text, list_or_empty (get r "notes")) ])
  else if eqb post_type "activity" then
    Ret (VDict
      [ ("organization" : text,
           get r "organization" ||| get r "company" ||| mget "company" (VStr ""));
        ("period" : text, text_or_empty (get r "period"));
        ("location" : text, text_or_empty (get r "location"));
        ("benefits" : text, list_or_empty (get r "benefits"));
        ("requirements" : text, list_or_empty (get r "requirements"));
        ("selection" : text, list_or_empty (get r "selection"));
        ("contacts" : text, list_or_empty (get r "contacts")) ])
  else if eqb post_type "grad" then
    Ret (VDict
      [ ("university" : text, get r "university" ||| get r "org" ||| VStr "");
        ("program" : text, get r "program" ||| VStr title);
        ("round" : text, text_or_empty (get r "round"));
        ("tuition_per_semester" : text, get r "tuition_per_semester");
        ("stipend" : text, get r "stipend");
        ("contact" : text, text_or_empty (get r "contact")) ])
  else Ret (get r "payload" ||| VDict []).

Definition normalize_record (src : Source) (r : dict) (now : text) (seq : N)
           (since : option text) : exc (Result (dict * text)) :=
  let src_name := text_or (src_sourceName src) (src_id src) in
  title <- strip_of (get r "title" ||| get r "name" ||| VStr "") ;;
  link0 <- strip_of (get r "link" ||| get r "url" ||| VStr "") ;;
  link1 <- to_https (match link0 with [] => src_url src | _ => link0 end) ;;
  let link := text_or link1 "" in
  if negb (nonempty title) then Ret (Err Normalize)
  else
    let slug := make_slug title in
    link2 <- (if negb (nonempty link) then to_https (src_url src) else Ret (Some link)) ;;
    let link := text_or link2 "" in
    raw_deadline <- strip_of (get r "deadline" ||| get r "date" ||| get r "closing" ||| VStr "") ;;
    let deadline := text_or (parse_date raw_deadline) "" in
    date_pub0 <- parse_date_of
      (get r "date_published" ||| get r "published" ||| get r "created" ||| VStr now) ;;
    let date_pub := text_or date_pub0 now in
    if match since with
       | Some (c :: t) => ltb date_pub (c :: t)
       | _ => false
       end
    then Ret (Err SinceFilter)
    else
      subtitle <- strip_of (get r "subtitle" ||| get r "summary" ||| VStr "") ;;
      let tags := if is_list (get r "tags") then get r "tags" else VList [] in
      let mapping := match src_mapping src with Some m => m | None => [] end in
      let post_type := choose_type src in
      payload0 <- build_payload src r title link post_type ;;
      payload <- scrub_payload payload0 ;;
      let slug_final := make_slug (match slug with [] => title | _ => slug end) in
      let post_id := build_id date_pub slug_final seq in
      let doc : dict :=
        [ ("id" : text, VStr post_id);
          ("type" : text, VStr post_type);
          ("title" : text, VStr title);
          ("subtitle" : text, VStr subtitle);
          ("tags" : text, get_or mapping "tags" tags);
          ("date_published" : text, VStr date_pub);
          ("deadline" : text, VStr deadline);
          ("last_checked_at" : text, VStr now);
          ("source_name" : text, VStr src_name);
          ("source_url" : text, VStr link);
          ("payload" : text, VDict payload) ] in
      v <- validate_common doc ;;
      match v with
      | Err k => Ret (Err k)
      | Ok d => Ret (Ok (d, slug_final))
      end.

(** ** The world outside the program

    The date of the run, the clock, the network and the parsers that lean
    on optional third-party packages are inputs of the model.  [sleep ms] is
    [time.sleep(ms / 1000.0)]: it returns after the wait, or raises where
    the wait is too long for the platform's clock (OverflowError, OSError).
    [fetch] answers [None] where the source's [fetch] returns a
    [FetchError]; [json_loads] answers [None] where decoding or
    [json.loads] raises. *)

Definition bytes := list ascii.

Record World : Type := mkWorld {
  today : text;
  sleep : Z -> exc unit;
  fetch : text -> option bytes;
  json_loads : bytes -> option value;
  parse_rss : bytes -> exc (list dict);
  parse_html : bytes -> list (text * text) -> exc (list dict)
}.

(** ** Parsers *)

(** The dictionaries among the elements of a list. *)
Fixpoint dicts (l : list value) : list dict :=
  match l with
  | [] => []
  | VDict d :: l' => d :: dicts l'
  | _ :: l' => dicts l'
  end.

Definition API_KEYS : list text := texts ["items"; "data"; "results"].

Definition parse_api (w : World) (content : bytes) : list dict :=
  match json_loads w content with
  | None => []
  | Some (VList payload) => dicts payload
  | Some (VDict payload) =>
      flat_map (fun key => match get payload key with
                           | VList seq => dicts seq
                           | _ => []
                           end) API_KEYS
  | Some _ => []
  end.

(** ** Dedupe and write *)

(** The output directory: file names in the order [os.listdir] gives them,
    each with its content as [json.load] reads it ([None] where the content
    is not JSON). *)
Definition store := list (text * option value).

(** [r"^\d{4}-\d{2}-\d{2}-"] *)
Definition DATE_PREFIX_RE : Re.regex :=
  Re.seq [Re.Bos; Re.exactly Chr.is_digit 4; Re.chr "-"; Re.exactly Chr.is_digit 2;
          Re.chr "-"; Re.exactly Chr.is_digit 2; Re.chr "-"].

Fixpoint find_existing (out_dir : store) (slug : text) : option text :=
  match out_dir with
  | [] => None
  | (name, _) :: out_dir' =>
      if endswith ("-" +++ slug +++ ".json") name && Re.matches DATE_PREFIX_RE name
      then Some name
      else find_existing out_dir' slug
  end.

(** [read_json(path)]: [None] for a missing file; [json.load] raises on
    content that is not JSON. *)
Fixpoint read_json (out_dir : store) (name : text) : exc value :=
  match out_dir with
  | [] => Ret VNone
  | (n, c) :: out_dir' =>
      if eqb name n
      then match c with
           | Some v => Ret v
           | None => Raise "JSONDecodeError"
           end
      else read_json out_dir' name
  end.

(** A file with its content put under a name: in the place of the file of
    that name where there is one, last in the listing where there is
    none. *)
Fixpoint put_file (out_dir : store) (name : text) (content : option value) : store :=
  match out_dir with
  | [] => [(name, content)]
  | (n, c) :: out_dir' =>
      if eqb name n then (n, content) :: out_dir'
      else (n, c) :: put_file out_dir' name content
  end.

(** The content of the file of a name, if the directory has one. *)
Fixpoint file_content (out_dir : store) (name : text) : option (option value) :=
  match out_dir with
  | [] => None
  | (n, c) :: out_dir' => if eqb name n then Some c else file_content out_dir' name
  end.

Definition remove_file (out_dir : store) (name : text) : store :=
  filter (fun f => negb (eqb name (fst f))) out_dir.

(** [os.replace(src, dst)]: the file [src] takes the name [dst], in the
    place of the file of that name where there is one.  The call raises
    where [src] does not exist; [write_json] calls it on the file it has
    just written. *)
Definition os_replace (out_dir : store) (src dst : text) : store :=
  match file_content out_dir src with
  | Some content => put_file (remove_file out_dir src) dst content
  | None => out_dir
  end.

(** [write_json(path, obj)]: the document is written to [path + ".tmp"]
    (created, or truncated where a file of that name is left over), which
    then replaces [path]. *)
Definition write_json (out_dir : store) (name : text) (obj : value) : store :=
  let tmp := name +++ ".tmp" in
  let out_dir := put_file out_dir tmp (Some obj) in
  os_replace out_dir tmp name.

(** The body of the [try] that refreshes an existing file, up to the
    write: the merged document, or the exception. *)
Definition refreshed (out_dir : store) (existing now : text) (doc : dict) : exc dict :=
  cur <- read_json out_dir existing ;;
  match cur ||| VDict [] with
  | VDict cur =>
      let cur := set cur "last_checked_at" (VStr now) in
      Ret (if truthy (get doc "deadline")
           then set cur "deadline" (get doc "deadline")
           else cur)
  | _ => Raise "TypeError"
  end.

(** The file name chosen by [write_post_json]. *)
Definition post_file_name (date_published slug : text) : text :=
  date_published +++ "-" +++ slug +++ ".json".

(** ** Main pipeline *)

Inductive Event : Type :=
| Makedirs : Event            (* [os.makedirs(args.out_dir, exist_ok=True)] *)
| Sleep : Z -> Event          (* [polite_delay(ms)], returned *)
| Fetch : text -> Event.      (* [fetch(url)] *)

(** The run's counters, the output directory, the failure sink (source and
    kind of each line of the deadletter file) and what the run did outside
    the record loop (the creation of the output directory, the waits and the
    fetches), oldest first. *)
Record State : Type := mkState {
  seq : N;
  total_written : Z;
  any_partial_fail : bool;
  files : store;
  sink : list (text * Kind);
  events : list Event
}.

Definition log_failure (st : State) (source : text) (k : Kind) : State :=
  mkState (seq st) (total_written st) (any_partial_fail st) (files st)
          (sink st ++ [(source, k)]) (events st).

Definition log_events (st : State) (es : list Event) : State :=
  mkState (seq st) (total_written st) (any_partial_fail st) (files st)
          (sink st) (events st ++ es).

Definition flag_failure (st : State) (b : bool) : State :=
  mkState (seq st) (total_written st) (any_partial_fail st || b) (files st)
          (sink st) (events st).

(** [recs[:n]] *)
Definition slice_to {A : Type} (n : Z) (l : list A) : list A :=
  if (0 <=? n)%Z then firstn (Z.to_nat n) l
  else firstn (List.length l - Z.to_nat (- n)) l.

(** [max(0, int((src.rateLimit or {}).get("minDelayMs", 1000)))]: [.get]
    needs a dictionary, and [int] a value it converts. *)
Definition delay_ms (src : Source) : exc Z :=
  match src_rateLimit src ||| VDict [] with
  | VDict d =>
      ms <- int_of (get_or d "minDelayMs" (VInt 1000)) ;;
      Ret (Z.max 0 ms)
  | _ => Raise "AttributeError"
  end.

(** [polite_delay(ms)] *)
Definition polite_delay (w : World) (ms : Z) : exc unit := sleep w ms.

(** The fetch and the parse of [collect_from_source], after the wait. *)
Definition fetch_and_parse (w : World) (src : Source) (max_items : Z) (st : State)
  : State * exc (list dict * Z) :=
  match fetch w (src_url src) with
  | None => (log_failure st (src_id src) FetchError, Ret ([], 1%Z))
  | Some raw =>
      let parsed : option (exc (list dict)) :=
        if eqb (src_type src) "rss" then Some (parse_rss w raw)
        else if eqb (src_type src) "html"
             then Some (parse_html w raw (match src_selectors src with
                                          | Some sel => sel
                                          | None => []
                                          end))
        else if eqb (src_type src) "api" then Some (Ret (parse_api w raw))
        else None in
      match parsed with
      | None => (log_failure st (src_id src) UnsupportedSource, Ret ([], 1%Z))
      | Some (Raise e) => (st, Raise e)
      | Some (Ret recs) => (st, Ret (slice_to max_items recs, 0%Z))
      end
  end.

(** [collect_from_source]: the state after it, and the records with the
    error count it returns, or the exception it raises.  An exception of
    the delay computation or of the wait leaves before anything is
    fetched. *)
Definition collect_from_source (w : World) (src : Source) (max_items : Z) (st : State)
  : State * exc (list dict * Z) :=
  match delay_ms src with
  | Raise e => (st, Raise e)
  | Ret ms =>
      match polite_delay w ms with
      | Raise e => (st, Raise e)
      | Ret _ =>
          fetch_and_parse w src max_items
                          (log_events st [Sleep ms; Fetch (src_url src)])
      end
  end.

(** The parameters of the run that the pipeline reads. *)
Record Args : Type := mkArgs {
  arg_sources : text;
  arg_since : text;
  arg_max_per_source : Z;
  arg_limit : Z;
  arg_dry_run : bool
}.

(** The body of the record loop after the cap check. *)
Definition process_record (args : Args) (src : Source) (now : text)
           (since : option text) (st : State) (r : dict) : exc State :=
  norm <- normalize_record src r now (seq st) since ;;
  match norm with
  | Err k =>
      Ret (if Kind_eqb k SinceFilter then st else log_failure st (src_id src) k)
  | Ok (doc, slug) =>
      match find_existing (files st) slug with
      | Some existing =>
          match refreshed (files st) existing now doc with
          | Ret cur =>
              Ret (mkState (seq st) (total_written st + 1) (any_partial_fail st)
                           (if arg_dry_run args then files st
                            else write_json (files st) existing (VDict cur))
                           (sink st) (events st))
          | Raise _ => Ret (log_failure st (src_id src) WriteError)
          end
      | None =>
          let name := post_file_name (str (get doc "date_published")) slug in
          Ret (mkState (seq st + 1) (total_written st + 1) (any_partial_fail st)
                       (if arg_dry_run args then files st
                        else write_json (files st) name (VDict doc))
                       (sink st) (events st))
      end
  end.

Fixpoint process_records (args : Args) (src : Source) (now : text)
         (since : option text) (st : State) (recs : list dict) : exc State :=
  match recs with
  | [] => Ret st
  | r :: recs' =>
      if (arg_limit args <=? total_written st)%Z then Ret st
      else
        st' <- process_record args src now since st r ;;
        process_records args src now since st' recs'
  end.

Fixpoint run_sources (w : World) (args : Args) (now : text) (since : option text)
         (st : State) (sources : list Source) : exc State :=
  match sources with
  | [] => Ret st
  | src :: sources' =>
      if (arg_limit args <=? total_written st)%Z then Ret st
      else
        match collect_from_source w src (arg_max_per_source args) st with
        | (st1, Raise _) =>
            run_sources w args now since
                        (flag_failure (log_failure st1 (src_id src) SourceError) true)
                        sources'
        | (st1, Ret (recs, src_err)) =>
            st2 <- process_records args src now since
                                   (flag_failure st1 (negb (src_err =? 0)%Z)) recs ;;
            run_sources w args now since st2 sources'
        end
  end.

(** [s.split(",")] *)
Fixpoint split_commas (s : text) : list text :=
  match s with
  | [] => [[]]
  | c :: s' =>
      if Chr.eqc "," c then [] :: split_commas s'
      else match split_commas s' with
           | [] => [[c]]
           | t :: ts => (c :: t) :: ts
           end
  end.

(** [{s.strip() for s in args.sources.split(",") if s.strip()}] *)
Definition only_ids (a : text) : list text :=
  filter nonempty (map strip (split_commas a)).

Definition initial (out_dir : store) : State :=
  mkState 1 0 false out_dir [] [].

(** [main], from the parsed arguments on.  [load] is what [load_sources]
    returns, [out_dir] the files of the output directory as the run finds
    it (none where [os.makedirs] has to create it).  The result is the exit
    status with the final state. *)
Definition main (w : World) (args : Args) (load : Result (list Source))
           (out_dir : store) : exc (Z * State) :=
  let now := today w in
  let since := match arg_since args with [] => None | s => Some s end in
  if match since with
     | Some s => negb (Re.matches ISO_DATE_RE s)
     | None => false
     end
  then Ret (3%Z, initial out_dir)
  else
    match load with
    | Err k => Ret (3%Z, log_failure (initial out_dir) [] k)
    | Ok sources =>
        let only := only_ids (arg_sources args) in
        let sources :=
          match only with
          | [] => sources
          | _ => filter (fun s => text_in (src_id s) only) sources
          end in
        let st := log_events (initial out_dir) [Makedirs] in
        st <- run_sources w args now since st sources ;;
        Ret (if any_partial_fail st then 2%Z else 0%Z, st)
    end.

(** *** The run up to its end

    [process_records], [run_sources] and [main] give no state where an
    exception ends the run.  The same loops again, giving the state the run
    has reached when it ends together with the exception that ended it, if
    any. *)

Fixpoint process_records_upto (args : Args) (src : Source) (now : text)
         (since : option text) (st : State) (recs : list dict) : State * option string :=
  match recs with
  | [] => (st, None)
  | r :: recs' =>
      if (arg_limit args <=? total_written st)%Z then (st, None)
      else
        match process_record args src now since st r with
        | Ret st' => process_records_upto args src now since st' recs'
        | Raise e => (st, Some e)
        end
  end.

Fixpoint run_sources_upto (w : World) (args : Args) (now : text) (since : option text)
         (st : State) (sources : list Source) : State * option string :=
  match sources with
  | [] => (st, None)
  | src :: sources' =>
      if (arg_limit args <=? total_written st)%Z then (st, None)
      else
        match collect_from_source w src (arg_max_per_source args) st with
        | (st1, Raise _) =>
            run_sources_upto w args now since
                             (flag_failure (log_failure st1 (src_id src) SourceError) true)
                             sources'
        | (st1, Ret (recs, src_err)) =>
            match process_records_upto args src now since
                                       (flag_failure st1 (negb (src_err =? 0)%Z)) recs with
            | (st2, None) => run_sources_upto w args now since st2 sources'
            | (st2, Some e) => (st2, Some e)
            end
        end
  end.

(** The state at the end of [main], with the exit status or the exception
    that ended the run. *)
Definition main_upto (w : World) (args : Args) (load : Result (list Source))
           (out_dir : store) : State * exc Z :=
  let now := today w in
  let since := match arg_since args with [] => None | s => Some s end in
  if match since with
     | Some s => negb (Re.matches ISO_DATE_RE s)
     | None => false
     end
  then (initial out_dir, Ret 3%Z)
  else
    match load with
    | Err k => (log_failure (initial out_dir) [] k, Ret 3%Z)
    | Ok sources =>
        let only := only_ids (arg_sources args) in
        let sources :=
          match only with
          | [] => sources
          | _ => filter (fun s => text_in (src_id s) only) sources
          end in
        let st := log_events (initial out_dir) [Makedirs] in
        match run_sources_upto w args now since st sources with
        | (st, None) => (st, Ret (if any_partial_fail st then 2%Z else 0%Z))
        | (st, Some e) => (st, Raise e)
        end
    end.

End Program.

(** ** Source configuration

    [load_sources] from the value that [read_json] returns for the
    configuration file ([None] for a missing file).  The dataclass checks
    no types, so a source holds whatever the configuration gives. *)

Record RawSource : Type := mkRaw {
  raw_id : value;
  raw_type : value;
  raw_url : value;
  raw_selectors : value;
  raw_mapping : value;
  raw_rateLimit : value;
  raw_sourceName : value;
  raw_postType : value
}.

(** The body of the [try]: [None] where it raises ([s["id"]] raises
    KeyError on a dictionary without the key and TypeError on anything that
    is no dictionary). *)
Definition source_of (s : value) : option RawSource :=
  match s with
  | VDict d =>
      match lookup d "id", lookup d "type", lookup d "url" with
      | Some i, Some t, Some u =>
          Some (mkRaw i t u (get d "selectors") (get d "mapping") (get d "rateLimit")
                      (get d "sourceName") (get d "postType"))
      | _, _, _ => None
      end
  | _ => None
  end.

(** The loop over the raw sources: the first entry that raises ends it. *)
Fixpoint sources_of (raw_sources : list value) : Result (list RawSource) :=
  match raw_sources with
  | [] => Ok []
  | s :: rest =>
      match source_of s with
      | None => Err ConfigInvalid
      | Some src =>
          match sources_of rest with
          | Ok srcs => Ok (src :: srcs)
          | Err k => Err k
          end
      end
  end.

Definition load_sources (cfg : value) : Result (list RawSource * value) :=
  if negb (truthy cfg) then Err ConfigMissing
  else
    let raw_sources := match cfg with VDict d => get d "sources" | _ => cfg end in
    match raw_sources with
    | VList l =>
        match sources_of l with
        | Ok srcs => Ok (srcs, cfg)
        | Err k => Err k
        end
    | _ => Err ConfigInvalid
    end.

(** ** The slug steps in plain list functions

    Every maximal run of characters of a class replaced by one text: the
    flag tells whether the previous character was in the run. *)
Fixpoint squeeze (p : ascii -> bool) (rep : text) (in_run : bool) (s : text) : text :=
  match s with
  | [] => []
  | c :: s' =>
      if p c
      then if in_run then squeeze p rep true s' else rep ++ squeeze p rep true s'
      else c :: squeeze p rep false s'
  end.

Definition or_post (s : text) : text :=
  match s with
  | [] => "post"
  | _ => s
  end.

(** The slug as the specification words it: lowercase, whitespace and
    underscore runs to a hyphen, strip what is outside [a-z0-9-], collapse
    repeated hyphens, cap the length, fall back to [post]. *)
Definition slug_spec (title : text) : text :=
  or_post (firstn 48
    (squeeze (Chr.eqc "-") "-" false
      (filter slug_char
        (squeeze space_or_underscore "-" false (map Chr.lower title))))).

(** The same steps with the hyphens at both ends trimmed before the cap. *)
Definition slug_steps (title : text) : text :=
  or_post (firstn 48
    (strip_by (Chr.eqc "-")
      (squeeze (Chr.eqc "-") "-" false
        (filter slug_char
          (squeeze space_or_underscore "-" false (map Chr.lower title)))))).

(** ** Notions used to state the properties *)

(** The categories whose payload has a fixed set of fields. *)
Definition FIXED_TYPES : list text := texts ["job"; "scholarship"; "activity"; "grad"].

(** The title a record resolves to. *)
Definition resolved_title (r : dict) : exc text :=
  strip_of (get r "title" ||| get r "name" ||| VStr "").

(** The publish date a record resolves to on a run dated [now]. *)
Definition resolved_date (r : dict) (now : text) : exc text :=
  d <- parse_date_of
    (get r "date_published" ||| get r "published" ||| get r "created" ||| VStr now) ;;
  Ret (text_or d now).

(** The source URL a record resolves to. *)
Definition resolved_link (ip : text -> bool) (src : Source) (r : dict) : exc text :=
  link0 <- strip_of (get r "link" ||| get r "url" ||| VStr "") ;;
  link1 <- to_https ip (match link0 with [] => src_url src | _ => link0 end) ;;
  link2 <- (if negb (nonempty (text_or link1 ""))
            then to_https ip (src_url src)
            else Ret (Some (text_or link1 ""))) ;;
  Ret (text_or link2 "").

(** The deadline text of a record before it is parsed. *)
Definition raw_deadline (r : dict) : exc text :=
  strip_of (get r "deadline" ||| get r "date" ||| get r "closing" ||| VStr "").

(** The structured-api parser as the specification words it: the list under
    the first of the known keys that holds one. *)
Fixpoint first_list (payload : dict) (keys : list text) : list dict :=
  match keys with
  | [] => []
  | k :: keys' =>
      match get payload k with
      | VList seq => dicts seq
      | _ => first_list payload keys'
      end
  end.

Definition parse_api_spec (w : World) (content : bytes) : list dict :=
  match json_loads w content with
  | Some (VList payload) => dicts payload
  | Some (VDict payload) => first_list payload API_KEYS
  | _ => []
  end.

(** The records in the list held by one key, none where the key holds no
    list. *)
Definition records_under (payload : dict) (key : text) : list dict :=
  match get payload key with
  | VList seq => dicts seq
  | _ => []
  end.

(** The wait before the fetch of a source: the delay that was slept, or
    the exception that keeps the source from being fetched. *)
Definition waited (w : World) (src : Source) : exc Z :=
  ms <- delay_ms src ;;
  _ <- polite_delay w ms ;;
  Ret ms.




(** The host of what follows [://] in a URL, and what follows the host. *)
Definition host_of (rest : text) : text := take_until netloc_delim rest.
Definition tail_of (rest : text) : text := drop_until netloc_delim rest.

(** What follows [://] in a URL that [to_https] does not trim: no tab,
    carriage return or newline; no blank at the end; and a host. *)
Definition clean_rest (rest : text) : bool :=
  forallb (fun c => negb (unsafe_url_byte c)) rest &&
  match rev rest with
  | c :: _ => negb (Chr.is_space c)
  | [] => true
  end &&
  nonempty (host_of rest).

(** Square brackets in a host as [urlsplit] takes them: none at all, or
    both, around an IP literal that it accepts. *)
Definition brackets_accepted (ip : text -> bool) (host : text) : bool :=
  if mem "[" host || mem "]" host
  then mem "[" host && mem "]" host && check_bracketed_netloc ip host
  else true.

(** A query or a fragment behind its mark, where the URL has the mark. *)
Definition opt_marked (mark : ascii) (s : option text) : text :=
  match s with
  | Some t => mark :: t
  | None => []
  end.

Definition text_of (s : option text) : text :=
  match s with
  | Some t => t
  | None => []
  end.

(** What follows [://] in a URL, put together from its parts: the host, the
    path, and the query and the fragment behind [?] and [#] where the URL
    has these marks. *)
Definition url_rest (host path : text) (query fragment : option text) : text :=
  host ++ path ++ opt_marked "?" query ++ opt_marked "#" fragment.

(** A query or a fragment that is there and not empty. *)
Definition kept (s : option text) : option text :=
  match s with
  | Some (c :: t) => Some (c :: t)
  | _ => None
  end.

(** The parts of a URL as the generic syntax cuts them: a host, without
    [/], [?] and [#]; a path that is empty or begins with [/], without [?]
    and [#]; a query without [#]; nowhere a tab, a carriage return or a
    newline, and no blank at the end of the URL. *)
Definition well_formed_parts (host path : text) (query fragment : option text) : bool :=
  nonempty host &&
  forallb (fun c => negb (netloc_delim c)) host &&
  match path with
  | [] => true
  | c :: _ => Chr.eqc "/" c
  end &&
  forallb (fun c => negb (Chr.eqc "?" c || Chr.eqc "#" c)) path &&
  forallb (fun c => negb (Chr.eqc "#" c)) (text_of query) &&
  forallb (fun c => negb (unsafe_url_byte c)) (url_rest host path query fragment) &&
  match rev (url_rest host path query fragment) with
  | c :: _ => negb (Chr.is_space c)
  | [] => true
  end.

(** A text that begins, blanks before it set aside, with [http] in any
    letter case. *)
Definition http_like (url : text) : Prop :=
  exists blanks a b c d rest,
    url = blanks ++ a :: b :: c :: d :: rest /\
    Forall (fun x => Chr.is_space x = true) blanks /\
    lower [a; b; c; d] = of_string "http".

(** The parts of what follows the host: path, query and fragment as
    [urlsplit] cuts them. *)
Definition tail_parts (tail : text) : text * text * text :=
  let '(u, f) := match split1 "#" tail with
                 | Some (u, f) => (u, f)
                 | None => (tail, [])
                 end in
  let '(p, q) := match split1 "?" u with
                 | Some (p, q) => (p, q)
                 | None => (u, [])
                 end in
  (p, q, f).

(** A query or fragment behind its mark, nothing when it is empty. *)
Definition marked (mark : ascii) (s : text) : text :=
  if nonempty s then mark :: s else [].

(** [w] occurs in [t] as a contiguous part. *)
Definition occurs (w t : text) : Prop := exists pre post, t = pre ++ w ++ post.

(** Email-like and regional-phone-like texts: those the module's patterns
    match. *)
Definition email_like (w : text) : Prop := Re.lang EMAIL_RE w.
Definition phone_like (w : text) : Prop := Re.lang PHONE_RE w.

(** A text in which no email-like and no phone-like text occurs. *)
Definition free_of_pii (t : text) : Prop :=
  forall w, occurs w t -> ~ email_like w /\ ~ phone_like w.

Definition REDACTED : text := "[redacted]".

Definition bracket (c : ascii) : bool := Chr.eqc "[" c || Chr.eqc "]" c.

(** [t'] is [t] with some of its parts in [L] replaced by the redaction
    marker, every other character kept in its place. *)
Inductive redacts (L : text -> Prop) : text -> text -> Prop :=
| redacts_nil : redacts L [] []
| redacts_keep : forall c t t', redacts L t t' -> redacts L (c :: t) (c :: t')
| redacts_hit : forall w t t',
    L w -> w <> [] -> redacts L t t' -> redacts L (w ++ t) (REDACTED ++ t').

(** What the scrubbing loop makes of one payload value. *)
Definition scrubbed (v : value) : value :=
  match v with
  | VList xs => VList (map (fun x => VStr (scrub_pii (str x))) xs)
  | _ => v
  end.

(** What the scrubbing loop makes of the value under one key of a
    payload. *)
Definition scrubbed_at (key : text) (v : value) : value :=
  if text_in key SCRUB_KEYS then scrubbed v else v.

(** ** Notions used to state the further properties *)

(** One step of [int(s)] on decimal text. *)
Definition to_N_step (acc : N) (c : ascii) : N :=
  if Chr.is_digit c then (10 * acc + (N_of_ascii c - 48))%N else acc.

Definition hyphen : ascii -> bool := Chr.eqc "-".

(** No two hyphens side by side. *)
Fixpoint no_double_hyphen (s : text) : bool :=
  match s with
  | a :: (b :: _) as s' => negb (hyphen a && hyphen b) && no_double_hyphen s'
  | _ => true
  end.

(** The first character, if any, is no hyphen. *)
Definition no_leading_hyphen (s : text) : bool :=
  match s with
  | c :: _ => negb (hyphen c)
  | [] => true
  end.

(** The failures of a whole source, and the failures of one record. *)
Definition source_level (k : Kind) : bool :=
  match k with
  | FetchError | UnsupportedSource | SourceError => true
  | _ => false
  end.

Definition record_level (k : Kind) : bool :=
  match k with
  | Normalize | Validate | WriteError => true
  | _ => false
  end.

(** The kinds in the failure sink, oldest first. *)
Definition logged (st : State) : list Kind := map snd (sink st).

(** The state in which a run of [main] ends, by a return or by an
    exception. *)
Definition final_state (ip : text -> bool) (w : World) (args : Args)
           (load : Result (list Source)) (out_dir : store) : State :=
  fst (main_upto ip w args load out_dir).

(** What one visit of a source does: the wait and then the fetch, or
    nothing where the delay cannot be computed or slept. *)
Definition visit (w : World) (src : Source) : list Event :=
  match waited w src with
  | Ret ms => [Sleep ms; Fetch (src_url src)]
  | Raise _ => []
  end.

(** The name of a file that [write_json] leaves behind when it is
    interrupted between the write and the replace of a post. *)
Definition leftover (name : text) : bool := endswith ".json.tmp" name.

(** The sources a run works on: all of them, or those named by
    [--sources]. *)
Definition selected (args : Args) (sources : list Source) : list Source :=
  let only := only_ids (arg_sources args) in
  match only with
  | [] => sources
  | _ => filter (fun s => text_in (src_id s) only) sources
  end.

(** A file name that begins with a date shape: four digits, two digits and
    two digits, each followed by a hyphen. *)
Definition dated (name : text) : Prop :=
  exists y m d rest,
    List.length y = 4 /\ List.length m = 2 /\ List.length d = 2 /\
    Forall (fun c => Chr.is_digit c = true) (y ++ m ++ d) /\
    name = y ++ "-"%char :: m ++ "-"%char :: d ++ "-"%char :: rest.

(** A file name that ends in [-<slug>.json]. *)
Definition named_for (slug name : text) : Prop :=
  exists pre, name = pre +++ "-" +++ slug +++ ".json".



Definition no_bracket (s : text) : bool := forallb (fun c => negb (bracket c)) s.




(** ** Inputs for the worked cases *)

Module Inputs.

(** No bracketed host is accepted as an IPv6 literal; none occurs below. *)
Definition ip0 : text -> bool := fun _ => false.

Definition now0 : text := "2025-11-02".

Definition pairs (l : list (string * value)) : dict :=
  map (fun kv => (of_string (fst kv), snd kv)) l.

Definition obj (l : list (string * value)) : value := VDict (pairs l).

Definition api_source (id url : string) (post_type : string) : Source :=
  mkSource id "api" url None None VNone None (Some (of_string post_type)).

(** A world in which every wait returns, every fetch succeeds and the body
    decodes to [v]. *)
Definition world_of (v : value) : World :=
  mkWorld now0 (fun _ => Ret tt) (fun _ => Some []) (fun _ => Some v) (fun _ => Ret [])
          (fun _ _ => Ret []).

Definition args0 : Args := mkArgs "" "" 100 1000 false.

Definition jobs : Source := api_source "acme-api" "https://acme.example/api" "job".
Definition notices : Source := api_source "campus" "https://campus.example/api" "notice".
Definition activities : Source := api_source "club" "https://club.example/api" "activity".


Definition untitled : dict := pairs [("title", VStr "")].

Definition intern : dict :=
  pairs [("title", VStr "Intern"); ("link", VStr "http://acme.example/jobs/7")].

Definition old_notice : dict :=
  pairs [("title", VStr ""); ("date_published", VStr "2020-01-01")].

Definition old_post : dict :=
  pairs [("title", VStr "Spring fair"); ("date_published", VStr "2020-01-01")].

Definition plain_notice : dict :=
  pairs [("title", VStr "Library hours"); ("link", VStr "https://campus.example/n/1")].

Definition room_notice : dict :=
  pairs [("title", VStr "Room change");
         ("payload", obj [("room", VStr "B101");
                          ("notes", VList [VStr "call 010-1234-5678"])])].

Definition club_call : dict :=
  pairs [("title", VStr "Robot club");
         ("contacts", VList [VStr "kim@example.com"; VStr "010-1234-5678"]);
         ("benefits", VList [VStr "ask kim@example.com"])].

Definition summer_intern_doc : value :=
  obj [("id", VStr "ime-2025-10-01-0001"); ("type", VStr "job");
       ("title", VStr "Summer Intern"); ("date_published", VStr "2025-10-01");
       ("deadline", VStr ""); ("last_checked_at", VStr "2025-10-01")].

Definition summer_intern_dir : store :=
  [("2025-10-01-summer-intern.json" : text, Some summer_intern_doc)].

Definition two_lists : value :=
  obj [("items", VList [obj [("title", VStr "a")]]);
       ("data", VList [obj [("title", VStr "b")]])].

Definition accepted_doc (src : Source) (r : dict) : dict :=
  match normalize_record ip0 src r now0 1 None with
  | Ret (Ok (doc, _)) => doc
  | _ => []
  end.

Definition intern_doc : dict := Eval vm_compute in accepted_doc jobs intern.
Definition club_doc : dict := Eval vm_compute in accepted_doc activities club_call.
Definition room_doc : dict := Eval vm_compute in accepted_doc notices room_notice.

End Inputs.

Import Inputs.

(** * Properties *)

(** A bind that returned: its first computation returned. *)
Ltac bind_inv H :=
  match type of H with
  | bind ?m _ = Ret _ =>
      let E := fresh "E" in
      destruct m eqn:E; cbn [bind] in H; [|discriminate H]
  end.


(** ** Matching facts *)

Module ReFacts.

Import Re.

Lemma rep_unbounded_accept (p : ascii -> bool) (s : text) :
  forall lo pos cs,
    rep_cls p lo None pos s cs accept =
    if lo <=? Re.run p s then Some (pos + Re.run p s, cs) else None.
Proof.
  induction s as [|c s IH]; intros lo pos cs; simpl.
  - destruct lo; simpl; [rewrite Nat.add_0_r|]; reflexivity.
  - destruct (p c) eqn:Hp; simpl.
    + rewrite IH. destruct lo as [|lo]; simpl.
      * rewrite Nat.add_succ_r. reflexivity.
      * destruct (lo <=? Re.run p s) eqn:Hle; simpl.
        -- rewrite Nat.add_succ_r. reflexivity.
        -- reflexivity.
    + destruct lo; simpl; [rewrite Nat.add_0_r|]; reflexivity.
Qed.

Lemma match_plus (p : ascii -> bool) (pos : nat) (s : text) :
  match_at (plus p) pos s =
  if 1 <=? Re.run p s then Some (pos + Re.run p s, []) else None.
Proof. unfold match_at, plus. simpl. apply rep_unbounded_accept. Qed.

Lemma squeeze_run_0 (p : ascii -> bool) (rep s : text) :
  Re.run p s = 0 -> squeeze p rep true s = squeeze p rep false s.
Proof.
  destruct s as [|c s]; simpl; [reflexivity|].
  destruct (p c); [discriminate | reflexivity].
Qed.

(** Substituting for [p+] squeezes the runs of [p]. *)
Lemma sub_from_plus (p : ascii -> bool) (rep s : text) :
  forall pos,
    sub_from (plus p) rep 0 pos s = squeeze p rep false s /\
    sub_from (plus p) rep (Re.run p s) pos s = squeeze p rep true s.
Proof.
  induction s as [|c s IH]; intros pos.
  - split; reflexivity.
  - assert (H0 : sub_from (plus p) rep 0 pos (c :: s) = squeeze p rep false (c :: s)).
    { cbn [sub_from]. rewrite match_plus. cbn [Re.run squeeze].
      destruct (p c) eqn:Hp.
      - cbn [Nat.leb]. replace (pos + S (Re.run p s) - pos) with (S (Re.run p s)) by lia.
        f_equal. apply (IH (S pos)).
      - cbn [Nat.leb]. f_equal. apply (IH (S pos)). }
    split; [exact H0|].
    cbn [Re.run]. destruct (p c) eqn:Hp.
    + cbn [sub_from squeeze]. rewrite Hp. apply (IH (S pos)).
    + rewrite H0. symmetry. apply squeeze_run_0. cbn [Re.run]. rewrite Hp. reflexivity.
Qed.

Lemma sub_plus (p : ascii -> bool) (rep s : text) :
  sub (plus p) rep s = squeeze p rep false s.
Proof. apply sub_from_plus. Qed.

(** Substituting nothing for one class deletes its characters. *)
Lemma sub_from_cls_delete (q : ascii -> bool) (s : text) :
  forall pos, sub_from (Cls q) [] 0 pos s = filter (fun c => negb (q c)) s.
Proof.
  induction s as [|c s IH]; intros pos; [reflexivity|].
  cbn [sub_from filter]. unfold match_at. cbn [rmatch]. unfold accept.
  destruct (q c); cbn [negb].
  - replace (S pos - pos) with 1 by lia. cbn [app]. apply IH.
  - f_equal. apply IH.
Qed.

Lemma sub_cls_delete (q : ascii -> bool) (s : text) :
  sub (Cls q) [] s = filter (fun c => negb (q c)) s.
Proof. apply sub_from_cls_delete. Qed.

End ReFacts.

(** ** The matcher against the texts of a pattern *)

Module ReLang.

Import Re.

Lemma rep_sound (p : ascii -> bool) (k : cont) (cs : caps) (x : nat * caps) (s : text) :
  forall lo hi pos,
    rep_cls p lo hi pos s cs k = Some x ->
    exists w rest,
      s = w ++ rest /\ Forall (fun c => p c = true) w /\
      lo <= List.length w /\ at_most hi (List.length w) /\
      k (pos + List.length w) rest cs = Some x.
Proof.
  induction s as [|c s IH]; intros lo hi pos H.
  - simpl in H. destruct lo; [|discriminate H].
    exists [], []. simpl. rewrite Nat.add_0_r.
    repeat split; auto. destruct hi; simpl; lia.
  - assert (Hstop : (if lo =? 0 then k pos (c :: s) cs else None) = Some x ->
                    exists w rest,
                      c :: s = w ++ rest /\ Forall (fun c => p c = true) w /\
                      lo <= List.length w /\ at_most hi (List.length w) /\
                      k (pos + List.length w) rest cs = Some x).
    { intros Hs. destruct lo; [|discriminate Hs].
      exists [], (c :: s). simpl. rewrite Nat.add_0_r.
      repeat split; auto. destruct hi; simpl; lia. }
    simpl in H. destruct (p c && more hi) eqn:Hp; [|exact (Hstop H)].
    unfold orelse in H.
    destruct (rep_cls p (pred lo) (dec hi) (S pos) s cs k) as [y|] eqn:Hin;
      [|exact (Hstop H)].
    injection H as ->. apply andb_true_iff in Hp as [Hpc Hmore].
    destruct (IH _ _ _ Hin) as (w & rest & -> & Hw & Hlo & Hhi & Hk).
    exists (c :: w), rest. simpl. repeat split.
    + constructor; assumption.
    + lia.
    + destruct hi as [[|h]|]; simpl in *; try discriminate; try lia; exact I.
    + rewrite Nat.add_succ_r. exact Hk.
Qed.

Lemma rep_complete (p : ascii -> bool) (k : cont) (cs : caps) (rest : text) (w : text) :
  forall lo hi pos,
    Forall (fun c => p c = true) w ->
    lo <= List.length w -> at_most hi (List.length w) ->
    k (pos + List.length w) rest cs <> None ->
    rep_cls p lo hi pos (w ++ rest) cs k <> None.
Proof.
  induction w as [|c w IH]; intros lo hi pos Hw Hlo Hhi Hk.
  - simpl in *. rewrite Nat.add_0_r in Hk.
    assert (lo = 0) by lia. subst lo.
    destruct rest as [|c rest]; simpl; [exact Hk|].
    destruct (p c && more hi); [|exact Hk].
    unfold orelse. destruct (rep_cls p _ _ _ rest cs k); [discriminate|exact Hk].
  - simpl. inversion Hw as [|? ? Hc Hw']; subst.
    assert (Hmore : more hi = true).
    { destruct hi as [[|h]|]; simpl in *; try reflexivity. lia. }
    rewrite Hc, Hmore. simpl. unfold orelse.
    assert (Hin : rep_cls p (pred lo) (dec hi) (S pos) (w ++ rest) cs k <> None).
    { apply IH; [exact Hw'|simpl in Hlo; lia| |].
      - destruct hi as [[|h]|]; simpl in *; try lia; exact I.
      - simpl in Hk. rewrite Nat.add_succ_r in Hk. exact Hk. }
    destruct (rep_cls p (pred lo) (dec hi) (S pos) (w ++ rest) cs k);
      [discriminate|contradiction].
Qed.

(** What the matcher finds is a text of the pattern, and the continuation
    ran on what follows it. *)
Lemma rmatch_sound (r : regex) :
  plain r = true ->
  forall pos s cs k x,
    rmatch r pos s cs k = Some x ->
    exists w rest cs',
      s = w ++ rest /\ lang r w /\ k (pos + List.length w) rest cs' = Some x.
Proof.
  induction r as [|p|r1 IH1 r2 IH2|r1 IH1 r2 IH2|p lo hi|i r1 IH1| |];
    intros Hpl pos s cs k x H; simpl in *; try discriminate Hpl.
  - exists [], s, cs. simpl. rewrite Nat.add_0_r. auto.
  - destruct s as [|c s]; [discriminate H|].
    destruct (p c) eqn:Hp; [|discriminate H].
    exists [c], s, cs. simpl. rewrite Nat.add_1_r. repeat split; eauto.
  - apply andb_true_iff in Hpl as [Hp1 Hp2].
    destruct (IH1 Hp1 _ _ _ _ _ H) as (w1 & rest1 & cs1 & -> & Hl1 & Hk1).
    destruct (IH2 Hp2 _ _ _ _ _ Hk1) as (w2 & rest2 & cs2 & -> & Hl2 & Hk2).
    exists (w1 ++ w2), rest2, cs2. rewrite <- app_assoc. split; [reflexivity|].
    split; [exists w1, w2; auto|].
    rewrite length_app, Nat.add_assoc. exact Hk2.
  - apply andb_true_iff in Hpl as [Hp1 Hp2]. unfold orelse in H.
    destruct (rmatch r1 pos s cs k) as [y|] eqn:E1.
    + injection H as ->.
      destruct (IH1 Hp1 _ _ _ _ _ E1) as (w & rest & cs' & -> & Hl & Hk).
      exists w, rest, cs'. auto.
    + destruct (IH2 Hp2 _ _ _ _ _ H) as (w & rest & cs' & -> & Hl & Hk).
      exists w, rest, cs'. auto.
  - apply rep_sound in H as (w & rest & -> & Hw & Hlo & Hhi & Hk).
    exists w, rest, cs. auto.
  - destruct (IH1 Hpl _ _ _ _ _ H) as (w & rest & cs' & -> & Hl & Hk).
    exists w, rest, ((i, firstn (pos + List.length w - pos) (w ++ rest)) :: cs'). auto.
Qed.

(** A text of the pattern at the front is found, whenever the continuation
    accepts what follows it. *)
Lemma rmatch_complete (r : regex) :
  plain r = true ->
  forall w, lang r w ->
  forall pos rest cs k,
    (forall cs', k (pos + List.length w) rest cs' <> None) ->
    rmatch r pos (w ++ rest) cs k <> None.
Proof.
  induction r as [|p|r1 IH1 r2 IH2|r1 IH1 r2 IH2|p lo hi|i r1 IH1| |];
    intros Hpl w Hl pos rest cs k Hk; simpl in *; try discriminate Hpl.
  - subst w. simpl in *. rewrite Nat.add_0_r in Hk. apply Hk.
  - destruct Hl as (c & -> & Hp). simpl in *. rewrite Hp.
    rewrite Nat.add_1_r in Hk. apply Hk.
  - apply andb_true_iff in Hpl as [Hp1 Hp2].
    destruct Hl as (w1 & w2 & -> & Hl1 & Hl2).
    rewrite <- app_assoc. apply (IH1 Hp1 w1 Hl1). intros cs1.
    apply (IH2 Hp2 w2 Hl2). intros cs2.
    rewrite <- Nat.add_assoc, <- length_app. apply Hk.
  - apply andb_true_iff in Hpl as [Hp1 Hp2]. unfold orelse.
    destruct Hl as [Hl|Hl].
    + pose proof (IH1 Hp1 w Hl pos rest cs k Hk) as H1.
      destruct (rmatch r1 pos (w ++ rest) cs k); [discriminate|contradiction].
    + destruct (rmatch r1 pos (w ++ rest) cs k); [discriminate|].
      apply (IH2 Hp2 w Hl). exact Hk.
  - destruct Hl as (Hw & Hlo & Hhi). apply rep_complete; auto.
  - apply (IH1 Hpl w Hl). intros cs1. apply Hk.
Qed.

Lemma match_at_sound (r : regex) (pos : nat) (s : text) (e : nat) (cs : caps) :
  plain r = true ->
  match_at r pos s = Some (e, cs) ->
  exists w rest, s = w ++ rest /\ lang r w /\ e = pos + List.length w.
Proof.
  intros Hpl H. unfold match_at in H.
  apply (rmatch_sound r Hpl) in H as (w & rest & cs' & Hs & Hl & Hk).
  exists w, rest. unfold accept in Hk. injection Hk as <- _. auto.
Qed.

Lemma match_at_complete (r : regex) (pos : nat) (w rest : text) :
  plain r = true -> lang r w -> match_at r pos (w ++ rest) <> None.
Proof.
  intros Hpl Hl. unfold match_at.
  apply (rmatch_complete r Hpl w Hl). intros cs'. unfold accept. discriminate.
Qed.

Lemma full_match_lang (r : regex) (s : text) (cs : caps) :
  plain r = true ->
  match_ r s = Some (List.length s, cs) ->
  lang r s.
Proof.
  intros Hpl H. unfold match_ in H.
  apply (match_at_sound r 0 s Hpl) in H as (w & rest & Hs & Hl & He).
  simpl in He. subst s. rewrite length_app in He.
  destruct rest as [|c rest]; [|simpl in He; lia].
  rewrite app_nil_r. exact Hl.
Qed.

Lemma lang_within (A : ascii -> Prop) (r : regex) :
  within A r -> forall w, lang r w -> Forall A w.
Proof.
  induction r as [|p|r1 IH1 r2 IH2|r1 IH1 r2 IH2|p lo hi|i r1 IH1| |];
    intros Hin w Hl; simpl in *; try contradiction.
  - subst. constructor.
  - destruct Hl as (c & -> & Hp). constructor; [auto|constructor].
  - destruct Hl as (w1 & w2 & -> & Hl1 & Hl2). destruct Hin as [H1 H2].
    apply Forall_app. split; auto.
  - destruct Hin as [H1 H2]. destruct Hl; auto.
  - destruct Hl as (Hw & _). eapply Forall_impl; [|exact Hw]. exact Hin.
  - auto.
Qed.

Lemma lang_must (K : ascii -> Prop) (r : regex) :
  must K r -> forall w, lang r w -> Exists K w.
Proof.
  induction r as [|p|r1 IH1 r2 IH2|r1 IH1 r2 IH2|p lo hi|i r1 IH1| |];
    intros Hm w Hl; simpl in *; try contradiction.
  - destruct Hl as (c & -> & Hp). constructor. auto.
  - destruct Hl as (w1 & w2 & -> & Hl1 & Hl2). apply Exists_app.
    destruct Hm as [Hm|Hm]; [left|right]; auto.
  - destruct Hm as [H1 H2]. destruct Hl; auto.
  - destruct Hm as [Hlo Hk]. destruct Hl as (Hw & Hlen & _).
    destruct w as [|c w]; [simpl in Hlen; lia|].
    inversion Hw; subst. constructor. auto.
  - auto.
Qed.

End ReLang.

(** ** Substitution leaves no match behind *)

(** Where a part [u] of [l1 ++ l2] lies: inside [l1], inside [l2], or across
    the seam. *)
Lemma part_of_app (l1 l2 pre u post : text) :
  pre ++ u ++ post = l1 ++ l2 ->
  (exists post', l1 = pre ++ u ++ post') \/
  (exists pre', pre = l1 ++ pre' /\ l2 = pre' ++ u ++ post) \/
  (exists u1 u2 c, u = u1 ++ c :: u2 /\ u2 <> [] /\ l1 = pre ++ u1 ++ [c]).
Proof.
  intros H. apply app_eq_app in H as [l [[Hp Hl2]|[Hl1 Hup]]].
  - right. left. exists l. auto.
  - apply app_eq_app in Hup as [l' [[Hu Hl2]|[Hl Hpost]]].
    + destruct l' as [|c' l'].
      * left. exists []. rewrite app_nil_r in *. subst. reflexivity.
      * destruct l as [|a l].
        -- right. left. exists []. simpl in *. subst.
           split; [rewrite !app_nil_r|]; reflexivity.
        -- destruct (@exists_last _ (a :: l)) as (l0 & c & El); [discriminate|].
           right. right. exists l0, (c' :: l'), c.
           rewrite El in Hl1, Hu. subst u l1. rewrite <- app_assoc. simpl.
           split; [reflexivity|]. split; [discriminate|reflexivity].
    + left. exists l'. subst. reflexivity.
Qed.

Section SubFacts.

Import Re.

Variable r : regex.
Variable repl : text.

(** Barrier characters, which no part under consideration holds, and key
    characters, of which it holds one. *)
Variables B K : ascii -> bool.

Hypothesis r_plain : plain r = true.
Hypothesis r_nonempty : forall w, lang r w -> w <> [].
Hypothesis repl_first : match repl with b :: _ => B b = true | [] => False end.
Hypothesis repl_last : match rev repl with b :: _ => B b = true | [] => False end.
Hypothesis repl_no_key : Forall (fun c => K c = false) repl.

Lemma match_at_step (pos : nat) (s : text) (e : nat) (cs : caps) :
  match_at r pos s = Some (e, cs) -> exists n, e - pos = S n.
Proof.
  intros H. apply (ReLang.match_at_sound r pos s r_plain) in H
    as (w & rest & _ & Hl & ->).
  apply r_nonempty in Hl. destruct w as [|c w]; [contradiction|].
  exists (List.length w). simpl. lia.
Qed.

Lemma match_at_nil (pos : nat) : match_at r pos [] = None.
Proof.
  destruct (match_at r pos []) as [[e cs]|] eqn:E; [|reflexivity].
  apply (ReLang.match_at_sound r pos [] r_plain) in E as (w & rest & Hs & Hl & _).
  symmetry in Hs. apply app_eq_nil in Hs as [-> _].
  exfalso. exact (r_nonempty Hl eq_refl).
Qed.

(** A barrier-free front of the output is a front of the input. *)
Lemma sub_prefix (s : text) :
  forall pos v post,
    sub_from r repl 0 pos s = v ++ post ->
    Forall (fun c => B c = false) v ->
    exists rest, s = v ++ rest.
Proof.
  induction s as [|a s IH]; intros pos v post H Hv.
  - simpl in H. rewrite match_at_nil in H.
    symmetry in H. apply app_eq_nil in H as [-> _]. exists []. reflexivity.
  - cbn [sub_from] in H.
    destruct v as [|c v]; [exists (a :: s); reflexivity|].
    inversion Hv as [|? ? Hc Hv']; subst.
    destruct (match_at r pos (a :: s)) as [[e cs]|] eqn:E.
    + exfalso. destruct (match_at_step _ _ E) as [n Hn]. rewrite Hn in H.
      destruct repl as [|b t]; [contradiction|].
      simpl in H. injection H as Hb _. subst b. congruence.
    + simpl in H. injection H as <- H.
      apply IH in H as [rest ->]; [|exact Hv']. exists rest. reflexivity.
Qed.

(** A barrier-free part of the output that holds a key character is a part
    of the input, and stands where the search found no match. *)
Lemma sub_part (s : text) :
  forall skip pos pre u post,
    sub_from r repl skip pos s = pre ++ u ++ post ->
    Forall (fun c => B c = false) u ->
    Exists (fun c => K c = true) u ->
    exists pre' rest,
      s = pre' ++ u ++ rest /\
      match_at r (pos + List.length pre') (u ++ rest) = None.
Proof.
  induction s as [|a s IH]; intros skip pos pre u post H Hb Hk.
  - exfalso.
    assert (Hnil : sub_from r repl skip pos [] = []).
    { destruct skip; simpl; [rewrite match_at_nil|]; reflexivity. }
    rewrite Hnil in H. symmetry in H.
    apply app_eq_nil in H as [_ H]. apply app_eq_nil in H as [-> _].
    inversion Hk.
  - assert (Hcons : forall out pos',
               out = pre ++ u ++ post ->
               (exists pre0, pre = a :: pre0 /\
                             sub_from r repl 0 (S pos) s = pre0 ++ u ++ post) \/
               (exists n, out = repl ++ sub_from r repl n (S pos) s) \/
               (exists n, out = sub_from r repl n (S pos) s) \/
               (pre = [] /\ match_at r pos (a :: s) = None /\
                out = a :: sub_from r repl 0 (S pos) s) ->
               pos' = pos ->
               exists pre' rest,
                 a :: s = pre' ++ u ++ rest /\
                 match_at r (pos' + List.length pre') (u ++ rest) = None).
    { intros out pos' Hout Hcase ->.
      assert (Hlift : forall n pre0,
                 sub_from r repl n (S pos) s = pre0 ++ u ++ post ->
                 exists pre' rest,
                   a :: s = pre' ++ u ++ rest /\
                   match_at r (pos + List.length pre') (u ++ rest) = None).
      { intros n pre0 Hx.
        apply IH in Hx as (pre'' & rest & -> & Hm); [|exact Hb|exact Hk].
        exists (a :: pre''), rest. split; [reflexivity|].
        simpl List.length. rewrite Nat.add_succ_r. exact Hm. }
      destruct Hcase as [(pre0 & -> & Hx)|[(n & Hx)|[(n & Hx)|(-> & Hm & Hx)]]].
      - exact (Hlift 0 pre0 Hx).
      - rewrite Hx in Hout. symmetry in Hout.
        apply part_of_app in Hout
          as [(post' & Hr)|[(pre' & Hp & Hx')|(u1 & u2 & c & Hu & Hu2 & Hr)]].
        + exfalso. rewrite Hr in repl_no_key.
          apply Forall_app in repl_no_key as [_ Hf].
          apply Forall_app in Hf as [Hf _].
          apply Exists_exists in Hk as (c & Hin & Hc).
          rewrite Forall_forall in Hf. specialize (Hf c Hin). congruence.
        + exact (Hlift n pre' Hx').
        + exfalso. rewrite Hr in repl_last.
          rewrite !rev_app_distr in repl_last. simpl in repl_last.
          subst u. apply Forall_app in Hb as [_ Hb].
          inversion Hb; subst. congruence.
      - rewrite Hx in Hout. exact (Hlift n pre Hout).
      - rewrite Hx in Hout. simpl in Hout.
        destruct u as [|c u]; [inversion Hk|].
        simpl in Hout. injection Hout as <- Hout.
        inversion Hb as [|? ? Hc Hb']; subst.
        apply sub_prefix in Hout as [rest ->]; [|exact Hb'].
        exists [], rest. simpl. rewrite Nat.add_0_r. split; [reflexivity|exact Hm]. }
    destruct skip as [|n].
    + cbn [sub_from] in H.
      destruct (match_at r pos (a :: s)) as [[e cs]|] eqn:E.
      * destruct (match_at_step _ _ E) as [n Hn]. rewrite Hn in H.
        apply (Hcons _ pos H); [|reflexivity].
        right. left. exists n. reflexivity.
      * destruct pre as [|p pre].
        -- apply (Hcons _ pos H); [|reflexivity].
           right. right. right. auto.
        -- simpl in H. injection H as <- H.
           apply (Hcons (a :: pre ++ u ++ post) pos eq_refl); [|reflexivity].
           left. exists pre. auto.
    + cbn [sub_from] in H.
      apply (Hcons _ pos H); [|reflexivity].
      right. right. left. exists n. reflexivity.
Qed.

(** No text of the pattern that has a key character and no barrier is left
    in the output. *)
Lemma sub_leaves_none (s u : text) :
  occurs u (sub r repl s) ->
  Forall (fun c => B c = false) u ->
  Exists (fun c => K c = true) u ->
  ~ lang r u.
Proof.
  intros (pre & post & H) Hb Hk Hl. unfold sub in H.
  apply sub_part in H as (pre' & rest & _ & Hm); [|exact Hb|exact Hk].
  exact (ReLang.match_at_complete r _ u rest r_plain Hl Hm).
Qed.

(** Such a part of the output was a part of the input. *)
Lemma sub_part_occurs (s u : text) :
  occurs u (sub r repl s) ->
  Forall (fun c => B c = false) u ->
  Exists (fun c => K c = true) u ->
  occurs u s.
Proof.
  intros (pre & post & H) Hb Hk. unfold sub in H.
  apply sub_part in H as (pre' & rest & Hs & _); [|exact Hb|exact Hk].
  exists pre', rest. exact Hs.
Qed.

End SubFacts.

(** ** Slugs *)

Lemma filter_ext_bool {A : Type} (f g : A -> bool) (l : list A) :
  (forall x, f x = g x) -> filter f l = filter g l.
Proof.
  intros H. induction l as [|x l IH]; simpl; [reflexivity|].
  rewrite H, IH. reflexivity.
Qed.

Lemma slugify_is_slug_steps (title : text) : slugify title = slug_steps title.
Proof.
  unfold slugify, slugify_len, slug_steps, or_post, lower.
  change (of_string "-") with ["-"%char].
  change (of_string "") with (@nil ascii).
  rewrite !ReFacts.sub_plus, ReFacts.sub_cls_delete.
  rewrite (filter_ext_bool (fun c => negb (negb (slug_char c))) slug_char)
    by (intros x; apply negb_involutive).
  match goal with |- context [firstn 48 ?x] => destruct (firstn 48 x) end; reflexivity.
Qed.

Lemma or_post_nonempty (s : text) : or_post s <> [].
Proof. destruct s; simpl; discriminate. Qed.

Lemma slugify_nonempty (t : text) : slugify t <> [].
Proof. rewrite slugify_is_slug_steps. apply or_post_nonempty. Qed.

Lemma make_slug_is_slugify (t : text) : make_slug t = slugify t.
Proof.
  unfold make_slug, make_slug_or.
  destruct (slugify t) eqn:E; [|reflexivity].
  exfalso. exact (slugify_nonempty t E).
Qed.

(** ** What an accepted record looks like *)

Lemma validate_ok_same (doc d : dict) :
  validate_common doc = Ret (Ok d) -> d = doc.
Proof.
  unfold validate_common. intros H.
  repeat match type of H with
         | (if ?c then _ else _) = _ => destruct c; [discriminate H|]
         end.
  injection H as H. symmetry. exact H.
Qed.

Section Accepted.

Variable ip : text -> bool.

Lemma normalize_ok_inv (src : Source) (r : dict) (now : text) (n : N)
      (since : option text) (doc : dict) (slug : text) :
  normalize_record ip src r now n since = Ret (Ok (doc, slug)) ->
  exists title link payload0 payload,
    resolved_title r = Ret title /\ title <> [] /\
    build_payload ip src r title link (choose_type src) = Ret payload0 /\
    scrub_payload payload0 = Ret payload /\
    slug = slugify (slugify title) /\
    get doc "title" = VStr title /\
    get doc "type" = VStr (choose_type src) /\
    get doc "payload" = VDict payload /\
    validate_common doc = Ret (Ok doc).
Proof.
  unfold normalize_record. intros H.
  bind_inv H. bind_inv H. bind_inv H.
  destruct (negb (nonempty t)) eqn:Ht; [discriminate H|].
  bind_inv H. bind_inv H. bind_inv H.
  match type of H with (if ?c then _ else _) = _ => destruct c; [discriminate H|] end.
  bind_inv H. bind_inv H. bind_inv H. bind_inv H.
  destruct r0 as [d'|k]; [|discriminate H].
  injection H as Hd Hs. subst slug d'.
  pose proof (validate_ok_same _ E8) as Hsame. subst doc.
  exists t, (text_or o0 ""), v, d.
  assert (Hne : t <> []) by (destruct t; [discriminate Ht | discriminate]).
  repeat split; try assumption; try reflexivity.
  rewrite !make_slug_is_slugify.
  destruct (slugify t) eqn:Es; [exfalso; exact (slugify_nonempty t Es)|reflexivity].
Qed.

End Accepted.

(** ** Payloads *)

Lemma eqb_eq (a b : text) : eqb a b = true <-> a = b.
Proof.
  revert b. induction a as [|x a IH]; intros [|y b]; simpl; split; intros H;
    try reflexivity; try discriminate.
  - apply andb_true_iff in H as [Hx Hab].
    apply Ascii.eqb_eq in Hx. apply IH in Hab. subst. reflexivity.
  - injection H as Hx Hab. subst.
    rewrite Ascii.eqb_refl. simpl. apply IH. reflexivity.
Qed.

Lemma eqb_refl (a : text) : eqb a a = true.
Proof. apply eqb_eq. reflexivity. Qed.

Lemma set_nonempty (d : dict) (k : text) (v : value) : set d k v <> [].
Proof. destruct d as [|[k' v'] d]; simpl; [|destruct (eqb k k')]; discriminate. Qed.

Lemma scrub_key_empty_iff (d : dict) (k : text) : scrub_key d k = [] <-> d = [].
Proof.
  unfold scrub_key. split.
  - destruct (get d k) eqn:E; try (intros H; exact H).
    intros H. exfalso. exact (set_nonempty _ _ _ H).
  - intros ->. reflexivity.
Qed.

Lemma scrub_keys_empty_iff (ks : list text) :
  forall d, fold_left scrub_key ks d = [] <-> d = [].
Proof.
  induction ks as [|k ks IH]; intros d; simpl; [tauto|].
  rewrite IH. apply scrub_key_empty_iff.
Qed.

Lemma scrub_payload_inv (p : value) (payload : dict) :
  scrub_payload p = Ret payload ->
  exists d, p = VDict d /\ payload = fold_left scrub_key SCRUB_KEYS d.
Proof.
  destruct p as [| | | | |d]; try discriminate.
  intros H. exists d. split; [reflexivity|].
  injection H as H. symmetry. exact H.
Qed.

Lemma build_payload_fixed (ip : text -> bool) (src : Source) (r : dict)
      (title link ty : text) (p : value) :
  In ty FIXED_TYPES ->
  build_payload ip src r title link ty = Ret p ->
  exists d, p = VDict d /\ d <> [].
Proof.
  unfold build_payload. intros Hty H.
  destruct (eqb ty "job") eqn:Ej.
  { bind_inv H. injection H as <-. eexists. split; [reflexivity|discriminate]. }
  destruct (eqb ty "scholarship") eqn:Es.
  { injection H as <-. eexists. split; [reflexivity|discriminate]. }
  destruct (eqb ty "activity") eqn:Ea.
  { injection H as <-. eexists. split; [reflexivity|discriminate]. }
  destruct (eqb ty "grad") eqn:Eg.
  { injection H as <-. eexists. split; [reflexivity|discriminate]. }
  exfalso. simpl in Hty.
  destruct Hty as [<-|[<-|[<-|[<-|[]]]]]; discriminate.
Qed.

Lemma build_payload_passthrough (ip : text -> bool) (src : Source) (r : dict)
      (title link ty : text) (p : value) :
  ~ In ty FIXED_TYPES ->
  build_payload ip src r title link ty = Ret p ->
  p = get r "payload" ||| VDict [].
Proof.
  unfold build_payload. intros Hty H.
  destruct (eqb ty "job") eqn:Ej.
  { exfalso. apply Hty. apply eqb_eq in Ej. subst. simpl. auto. }
  destruct (eqb ty "scholarship") eqn:Es.
  { exfalso. apply Hty. apply eqb_eq in Es. subst. simpl. auto. }
  destruct (eqb ty "activity") eqn:Ea.
  { exfalso. apply Hty. apply eqb_eq in Ea. subst. simpl. auto. }
  destruct (eqb ty "grad") eqn:Eg.
  { exfalso. apply Hty. apply eqb_eq in Eg. subst. simpl. auto. }
  injection H as <-. reflexivity.
Qed.

(** ** Scrubbing *)

Lemma class_without_brackets (p : ascii -> bool) :
  p "["%char = false -> p "]"%char = false ->
  forall c, p c = true -> bracket c = false.
Proof.
  intros Hl Hr c Hc. destruct (bracket c) eqn:E; [|reflexivity].
  unfold bracket, Chr.eqc in E.
  apply orb_true_iff in E as [E|E]; apply Ascii.eqb_eq in E; subst c; congruence.
Qed.

Lemma email_plain : Re.plain EMAIL_RE = true.
Proof. reflexivity. Qed.

Lemma phone_plain : Re.plain PHONE_RE = true.
Proof. reflexivity. Qed.

Lemma email_without_brackets (w : text) :
  email_like w -> Forall (fun c => bracket c = false) w.
Proof.
  apply (ReLang.lang_within (fun c => bracket c = false)).
  unfold EMAIL_RE. cbn -[Ascii.eqb Chr.eqc bracket email_local email_domain].
  repeat split; apply class_without_brackets; reflexivity.
Qed.

Lemma email_has_at (w : text) :
  email_like w -> Exists (fun c => Chr.eqc "@" c = true) w.
Proof.
  apply (ReLang.lang_must (fun c => Chr.eqc "@" c = true)).
  unfold EMAIL_RE. cbn -[Ascii.eqb Chr.eqc]. right. left. intros c Hc. exact Hc.
Qed.

Lemma phone_without_brackets (w : text) :
  phone_like w -> Forall (fun c => bracket c = false) w.
Proof.
  apply (ReLang.lang_within (fun c => bracket c = false)).
  unfold PHONE_RE. cbn -[Ascii.eqb Chr.eqc bracket Chr.is_digit].
  repeat split; apply class_without_brackets; reflexivity.
Qed.

Lemma phone_has_digit (w : text) :
  phone_like w -> Exists (fun c => Chr.is_digit c = true) w.
Proof.
  apply (ReLang.lang_must (fun c => Chr.is_digit c = true)).
  unfold PHONE_RE. cbn -[Ascii.eqb Chr.eqc Chr.is_digit]. split.
  - right. left. intros c Hc. unfold Chr.eqc in Hc.
    apply Ascii.eqb_eq in Hc. subst c. reflexivity.
  - left. split; [lia|]. intros c Hc. exact Hc.
Qed.

Lemma exists_nonempty {A : Type} (P : A -> Prop) (l : list A) :
  Exists P l -> l <> [].
Proof. intros H ->. inversion H. Qed.

Lemma email_nonempty (w : text) : email_like w -> w <> [].
Proof. intros H. exact (exists_nonempty (email_has_at H)). Qed.

Lemma phone_nonempty (w : text) : phone_like w -> w <> [].
Proof. intros H. exact (exists_nonempty (phone_has_digit H)). Qed.

Lemma redacted_first :
  match REDACTED with b :: _ => bracket b = true | [] => False end.
Proof. reflexivity. Qed.

Lemma redacted_last :
  match rev REDACTED with b :: _ => bracket b = true | [] => False end.
Proof. reflexivity. Qed.

Lemma redacted_no_at : Forall (fun c => Chr.eqc "@" c = false) REDACTED.
Proof. repeat constructor. Qed.

Lemma redacted_no_digit : Forall (fun c => Chr.is_digit c = false) REDACTED.
Proof. repeat constructor. Qed.

(** No email-like and no phone-like text occurs in what [scrub_pii]
    returns. *)
Lemma scrub_pii_free (t : text) : free_of_pii (scrub_pii t).
Proof.
  intros w Hocc. unfold scrub_pii in Hocc.
  change (of_string "[redacted]") with REDACTED in Hocc.
  split; intros Hw.
  - pose proof (email_without_brackets Hw) as Hb.
    pose proof (email_has_at Hw) as Hk.
    assert (Hin : occurs w (Re.sub EMAIL_RE REDACTED t)).
    { exact (@sub_part_occurs PHONE_RE REDACTED bracket (Chr.eqc "@")
               phone_plain phone_nonempty redacted_first redacted_last
               redacted_no_at _ _ Hocc Hb Hk). }
    exact (@sub_leaves_none EMAIL_RE REDACTED bracket (Chr.eqc "@")
             email_plain email_nonempty redacted_first redacted_last
             redacted_no_at _ _ Hin Hb Hk Hw).
  - exact (@sub_leaves_none PHONE_RE REDACTED bracket Chr.is_digit
             phone_plain phone_nonempty redacted_first redacted_last
             redacted_no_digit _ _ Hocc (phone_without_brackets Hw)
             (phone_has_digit Hw) Hw).
Qed.

Lemma lookup_set (d : dict) (k q : text) (v : value) :
  lookup (set d k v) q = if eqb q k then Some v else lookup d q.
Proof.
  induction d as [|[k' v'] d IH]; simpl.
  - reflexivity.
  - destruct (eqb k k') eqn:Ek; simpl.
    + apply eqb_eq in Ek. subst k'. destruct (eqb q k); reflexivity.
    + rewrite IH. destruct (eqb q k') eqn:Eq', (eqb q k) eqn:Eq; try reflexivity.
      apply eqb_eq in Eq', Eq. subst. rewrite eqb_refl in Ek. discriminate.
Qed.

Lemma get_set (d : dict) (k q : text) (v : value) :
  get (set d k v) q = if eqb q k then v else get d q.
Proof. unfold get. rewrite lookup_set. destruct (eqb q k); reflexivity. Qed.

Lemma get_scrub_key (d : dict) (k q : text) :
  get (scrub_key d k) q = if eqb q k then scrubbed (get d k) else get d q.
Proof.
  unfold scrub_key, scrubbed.
  destruct (get d k) eqn:E; try rewrite get_set; try reflexivity;
    destruct (eqb q k) eqn:Eq; try reflexivity;
    apply eqb_eq in Eq; subst q; exact E.
Qed.

Lemma existsb_eqb_In (q : text) (ks : list text) :
  existsb (eqb q) ks = true <-> In q ks.
Proof.
  rewrite existsb_exists. split.
  - intros (k & Hin & Hk). apply eqb_eq in Hk. subst. exact Hin.
  - intros H. exists q. split; [exact H|apply eqb_refl].
Qed.

Lemma get_scrub_keys (ks : list text) :
  NoDup ks ->
  forall d q,
    get (fold_left scrub_key ks d) q =
    if existsb (eqb q) ks then scrubbed (get d q) else get d q.
Proof.
  induction 1 as [|k ks Hnin Hnd IH]; intros d q; simpl; [reflexivity|].
  rewrite IH, get_scrub_key.
  destruct (eqb q k) eqn:Eq; simpl; [|reflexivity].
  apply eqb_eq in Eq. subst q.
  destruct (existsb (eqb k) ks) eqn:Ex; [|reflexivity].
  apply existsb_eqb_In in Ex. contradiction.
Qed.

Lemma scrub_keys_distinct : NoDup SCRUB_KEYS.
Proof.
  unfold SCRUB_KEYS, texts. simpl map.
  repeat (constructor; [simpl; intuition discriminate|]). constructor.
Qed.

Lemma set_names (d : dict) (k : text) (v : value) :
  lookup d k <> None -> map fst (set d k v) = map fst d.
Proof.
  induction d as [|[k' v'] d IH]; cbn [lookup set]; [congruence|].
  destruct (eqb k k'); intros H; cbn [map fst]; [reflexivity|].
  rewrite (IH H). reflexivity.
Qed.

Lemma scrub_key_names (d : dict) (k : text) : map fst (scrub_key d k) = map fst d.
Proof.
  unfold scrub_key. destruct (get d k) eqn:E; try reflexivity.
  apply set_names. unfold get in E. destruct (lookup d k); [discriminate|discriminate E].
Qed.

(** The scrubbing loop keeps the keys of the payload, in their order. *)
Lemma scrub_keys_names (d : dict) : map fst (fold_left scrub_key SCRUB_KEYS d) = map fst d.
Proof.
  generalize SCRUB_KEYS. intros ks. revert d.
  induction ks as [|k ks IH]; intros d; cbn [fold_left]; [reflexivity|].
  rewrite IH. apply scrub_key_names.
Qed.

(** Substitution replaces texts of the pattern by the marker and keeps
    every other character. *)
Lemma sub_from_redacts (r : Re.regex) :
  Re.plain r = true -> (forall w, Re.lang r w -> w <> []) ->
  forall s n pos,
    n <= List.length s ->
    redacts (Re.lang r) (skipn n s) (Re.sub_from r REDACTED n pos s).
Proof.
  intros Hplain Hne. induction s as [|c s IH]; intros n pos Hn.
  - destruct n; [|cbn in Hn; lia]. cbn [skipn Re.sub_from].
    rewrite (@match_at_nil r Hplain Hne pos). constructor.
  - destruct n as [|n].
    + cbn [skipn Re.sub_from].
      destruct (Re.match_at r pos (c :: s)) as [[e cs]|] eqn:E.
      * destruct (@ReLang.match_at_sound r pos (c :: s) e cs Hplain E)
          as (w & rest & Hs & Hl & ->).
        pose proof (Hne w Hl) as Hw.
        destruct w as [|c' w]; [contradiction|].
        cbn [app] in Hs. injection Hs as <- ->.
        replace (pos + List.length (c :: w) - pos) with (S (List.length w))
          by (cbn [List.length]; lia).
        change (c :: w ++ rest) with ((c :: w) ++ rest).
        apply redacts_hit; [exact Hl|discriminate|].
        specialize (IH (List.length w) (S pos)).
        rewrite skipn_app, skipn_all, Nat.sub_diag in IH. cbn [skipn app] in IH.
        apply IH. rewrite length_app. lia.
      * apply redacts_keep. apply (IH 0 (S pos)). lia.
    + cbn [skipn Re.sub_from]. apply IH. cbn [List.length] in Hn. lia.
Qed.

(** [scrub_pii] replaces email-like texts by the marker, and then
    phone-like texts of the result. *)
Lemma scrub_pii_redacts (t : text) :
  exists t1, redacts email_like t t1 /\ redacts phone_like t1 (scrub_pii t).
Proof.
  exists (Re.sub EMAIL_RE REDACTED t). split.
  - exact (@sub_from_redacts EMAIL_RE email_plain email_nonempty t 0 0 (Nat.le_0_l _)).
  - exact (@sub_from_redacts PHONE_RE phone_plain phone_nonempty _ 0 0 (Nat.le_0_l _)).
Qed.

(** C2 (as amended): the payload of an accepted record has the keys of the
    payload as built, in their order.  Under each of the keys requirements,
    nice_to_have, documents, apply_steps, notes, benefits and selection
    that holds a list, it holds the list of the elements turned into text
    and scrubbed; every other value of the payload is as it was built,
    unscrubbed.  Scrubbing a text replaces email-like parts by the marker,
    then phone-like parts of what that gives, keeps every other character,
    and leaves no email-like and no phone-like text behind. *)
Theorem scrubbed_fields_free_of_pii (ip : text -> bool) (src : Source) (r : dict)
        (now : text) (n : N) (since : option text) (doc : dict) (slug : text) :
  normalize_record ip src r now n since = Ret (Ok (doc, slug)) ->
  exists title link built payload,
    build_payload ip src r title link (choose_type src) = Ret (VDict built) /\
    get doc "payload" = VDict payload /\
    map fst payload = map fst built /\
    (forall key xs,
        In key SCRUB_KEYS -> get built key = VList xs ->
        get payload key = VList (map (fun x => VStr (scrub_pii (str x))) xs)) /\
    (forall key,
        In key SCRUB_KEYS -> is_list (get built key) = false ->
        get payload key = get built key) /\
    (forall key, ~ In key SCRUB_KEYS -> get payload key = get built key) /\
    (forall t,
        (exists t1, redacts email_like t t1 /\ redacts phone_like t1 (scrub_pii t)) /\
        free_of_pii (scrub_pii t)).
Proof.
  intros H.
  destruct (normalize_ok_inv _ _ _ _ _ _ H)
    as (title & link & p0 & payload & _ & _ & Hb & Hs & _ & _ & _ & Hp & _).
  destruct (scrub_payload_inv _ Hs) as (built & -> & ->).
  exists title, link, built, (fold_left scrub_key SCRUB_KEYS built).
  split; [exact Hb|]. split; [exact Hp|]. split; [apply scrub_keys_names|].
  split; [|split; [|split]].
  - intros key xs Hin Hget.
    rewrite (get_scrub_keys scrub_keys_distinct).
    apply existsb_eqb_In in Hin. rewrite Hin, Hget. reflexivity.
  - intros key Hin Hl.
    rewrite (get_scrub_keys scrub_keys_distinct).
    apply existsb_eqb_In in Hin. rewrite Hin.
    destruct (get built key); try reflexivity. discriminate Hl.
  - intros key Hnin.
    rewrite (get_scrub_keys scrub_keys_distinct).
    destruct (existsb (eqb key) SCRUB_KEYS) eqn:Ex; [|reflexivity].
    apply existsb_eqb_In in Ex. contradiction.
  - intros t. split; [apply scrub_pii_redacts|apply scrub_pii_free].
Qed.

(** C4 (as amended): the payload of an accepted record is a mapping.  For
    the categories job, scholarship, activity and grad it has the fields of
    the category, so it is not empty.  For every other category (notice,
    event) it is the record's own payload, [{}] where the record supplies
    none or a falsy one: it has the keys of that payload, in their order,
    and under each key the value it has there, with the seven free-text
    fields scrubbed; so it is empty exactly when the record supplies no
    payload, or a falsy one. *)
Theorem accepted_payload (ip : text -> bool) (src : Source) (r : dict) (now : text)
        (n : N) (since : option text) (doc : dict) (slug : text) :
  normalize_record ip src r now n since = Ret (Ok (doc, slug)) ->
  exists payload,
    get doc "payload" = VDict payload /\
    (In (choose_type src) FIXED_TYPES -> payload <> []) /\
    (choose_type src = of_string "job" ->
     map fst payload =
       texts ["company"; "role"; "location"; "employment_type"; "salary_min";
              "salary_max"; "apply_url"; "requirements"; "nice_to_have"]) /\
    (choose_type src = of_string "scholarship" ->
     map fst payload =
       texts ["amount_max"; "eligible_years"; "gpa_min"; "income_bracket_max"; "major";
              "region"; "requirements"; "documents"; "apply_steps"; "notes"]) /\
    (choose_type src = of_string "activity" ->
     map fst payload =
       texts ["organization"; "period"; "location"; "benefits"; "requirements";
              "selection"; "contacts"]) /\
    (choose_type src = of_string "grad" ->
     map fst payload =
       texts ["university"; "program"; "round"; "tuition_per_semester"; "stipend";
              "contact"]) /\
    (~ In (choose_type src) FIXED_TYPES ->
       exists own,
         get r "payload" ||| VDict [] = VDict own /\
         (truthy (get r "payload") = true -> get r "payload" = VDict own) /\
         map fst payload = map fst own /\
         (forall key, get payload key = scrubbed_at key (get own key)) /\
         (payload = [] <-> truthy (get r "payload") = false)).
Proof.
  intros H.
  destruct (normalize_ok_inv _ _ _ _ _ _ H)
    as (title & link & p0 & payload & _ & _ & Hb & Hs & _ & _ & _ & Hp & _).
  exists payload. split; [exact Hp|].
  destruct (scrub_payload_inv _ Hs) as (d0 & -> & ->).
  split; [|split; [|split; [|split; [|split]]]].
  - intros Hty Hpe.
    destruct (build_payload_fixed _ _ _ _ _ Hty Hb) as (d & Hd & Hne).
    injection Hd as ->.
    apply scrub_keys_empty_iff in Hpe. contradiction.
  - intros Hty. rewrite scrub_keys_names. rewrite Hty in Hb.
    unfold build_payload in Hb. cbn [eqb of_string list_ascii_of_string Ascii.eqb
                                      Bool.eqb andb] in Hb.
    bind_inv Hb. injection Hb as <-. reflexivity.
  - intros Hty. rewrite scrub_keys_names. rewrite Hty in Hb.
    unfold build_payload in Hb. cbn [eqb of_string list_ascii_of_string Ascii.eqb
                                      Bool.eqb andb] in Hb.
    injection Hb as <-. reflexivity.
  - intros Hty. rewrite scrub_keys_names. rewrite Hty in Hb.
    unfold build_payload in Hb. cbn [eqb of_string list_ascii_of_string Ascii.eqb
                                      Bool.eqb andb] in Hb.
    injection Hb as <-. reflexivity.
  - intros Hty. rewrite scrub_keys_names. rewrite Hty in Hb.
    unfold build_payload in Hb. cbn [eqb of_string list_ascii_of_string Ascii.eqb
                                      Bool.eqb andb] in Hb.
    injection Hb as <-. reflexivity.
  - intros Hty. apply (build_payload_passthrough _ _ _ _ _) in Hb; [|exact Hty].
    exists d0. split; [symmetry; exact Hb|]. split; [|split; [|split]].
    + intros Ht. unfold por in Hb. rewrite Ht in Hb. symmetry. exact Hb.
    + apply scrub_keys_names.
    + intros key. unfold scrubbed_at, text_in.
      apply (get_scrub_keys scrub_keys_distinct).
    + rewrite scrub_keys_empty_iff.
      unfold por in Hb. destruct (truthy (get r "payload")) eqn:Et.
      * split; [|discriminate]. intros ->. rewrite <- Hb in Et. discriminate.
      * injection Hb as ->. tauto.
Qed.

(** ** The since filter and the failure sink *)

Lemma nonempty_true (t : text) : t <> [] -> nonempty t = true.
Proof. destruct t; [contradiction | reflexivity]. Qed.

Lemma normalize_since (ip : text -> bool) (src : Source) (r : dict) (now : text)
      (n : N) (since title link dl d : text) :
  resolved_title r = Ret title -> title <> [] ->
  resolved_link ip src r = Ret link ->
  raw_deadline r = Ret dl ->
  resolved_date r now = Ret d ->
  since <> [] -> ltb d since = true ->
  normalize_record ip src r now n (Some since) = Ret (Err SinceFilter).
Proof.
  unfold resolved_title, resolved_link, raw_deadline, resolved_date.
  intros Ht Hne Hl Hdl Hd Hs Hlt.
  bind_inv Hl. bind_inv Hl. bind_inv Hl. bind_inv Hd.
  injection Hd as Hd. subst d.
  unfold normalize_record.
  rewrite Ht. cbn [bind]. rewrite E. cbn [bind]. rewrite E0. cbn [bind].
  rewrite (nonempty_true Hne). cbn [negb].
  rewrite E1. cbn [bind]. rewrite Hdl. cbn [bind]. rewrite E2. cbn [bind].
  destruct since as [|c since]; [contradiction|].
  rewrite Hlt. reflexivity.
Qed.

(** C5 (as amended): a record with a non-empty title whose link, deadline and
    publish date resolve, and whose publish date is before the since date,
    fails with kind SinceFilter and leaves the output directory, the
    counters and the failure sink as they were; a failure of any other kind
    adds one line for its source to the failure sink. *)
Theorem since_filter_is_silent (ip : text -> bool) (args : Args) (src : Source)
        (r : dict) (now since title link dl d : text) (st : State) :
  resolved_title r = Ret title -> title <> [] ->
  resolved_link ip src r = Ret link ->
  raw_deadline r = Ret dl ->
  resolved_date r now = Ret d ->
  since <> [] -> ltb d since = true ->
  normalize_record ip src r now (seq st) (Some since) = Ret (Err SinceFilter) /\
  process_record ip args src now (Some since) st r = Ret st /\
  (forall (r' : dict) (since' : option text) (k : Kind),
      normalize_record ip src r' now (seq st) since' = Ret (Err k) ->
      k <> SinceFilter ->
      process_record ip args src now since' st r' =
      Ret (log_failure st (src_id src) k)) /\
  (forall (r' : dict) (since' : option text) (doc : dict) (slug existing : text)
          (e : string),
      normalize_record ip src r' now (seq st) since' = Ret (Ok (doc, slug)) ->
      find_existing (files st) slug = Some existing ->
      refreshed (files st) existing now doc = Raise e ->
      process_record ip args src now since' st r' =
      Ret (log_failure st (src_id src) WriteError)).
Proof.
  intros Ht Hne Hl Hdl Hd Hs Hlt.
  pose proof (@normalize_since ip src r now (seq st) since title link dl d
                Ht Hne Hl Hdl Hd Hs Hlt) as Hn.
  split; [exact Hn|]. split; [|split].
  - unfold process_record. rewrite Hn. reflexivity.
  - intros r' since' k Hk Hneq. unfold process_record. rewrite Hk. cbn [bind].
    destruct k; try reflexivity. contradiction.
  - intros r' since' doc slug existing e Hk Hf Hr.
    unfold process_record. rewrite Hk. cbn [bind]. rewrite Hf, Hr. reflexivity.
Qed.

(** ** The structured-api parser *)

(** [collect_from_source] is the wait followed by the fetch and the
    parse. *)
Lemma collect_waited (w : World) (src : Source) (max_items : Z) (st : State) :
  collect_from_source w src max_items st =
  match waited w src with
  | Ret ms =>
      fetch_and_parse w src max_items (log_events st [Sleep ms; Fetch (src_url src)])
  | Raise e => (st, Raise e)
  end.
Proof.
  unfold collect_from_source, waited.
  destruct (delay_ms src) as [ms|e]; cbn [bind]; [|reflexivity].
  destruct (polite_delay w ms) as [u|e]; reflexivity.
Qed.

Lemma dicts_map_VDict (ds : list dict) : dicts (map VDict ds) = ds.
Proof. induction ds as [|d ds IH]; simpl; [|rewrite IH]; reflexivity. Qed.

(** C6 (as amended): a top-level array of mappings gives one record per
    element; a top-level mapping gives the mappings of the lists under
    [items], [data] and [results], all of them, in that order; input that
    does not decode, a mapping with none of these keys holding a list, and
    any other value give no record.  Whatever the content, collecting from
    a structured-api source that was fetched, once the polite delay before
    the fetch has returned, reports no error, and it writes nothing to the
    failure sink. *)
Theorem parse_api_shapes (w : World) (content : bytes) :
  (forall ds, json_loads w content = Some (VList (map VDict ds)) ->
              parse_api w content = ds) /\
  (forall payload, json_loads w content = Some (VDict payload) ->
     parse_api w content =
     records_under payload "items" ++ records_under payload "data" ++
     records_under payload "results") /\
  (forall payload, json_loads w content = Some (VDict payload) ->
     is_list (get payload "items") = false ->
     is_list (get payload "data") = false ->
     is_list (get payload "results") = false ->
     parse_api w content = []) /\
  (json_loads w content = None -> parse_api w content = []) /\
  (forall v, json_loads w content = Some v ->
     match v with VList _ | VDict _ => False | _ => True end ->
     parse_api w content = []) /\
  (forall src max_items st,
     fetch w (src_url src) = Some content -> src_type src = of_string "api" ->
     snd (collect_from_source w src max_items st)
       = (_ <- waited w src ;;
          Ret (slice_to max_items (parse_api w content), 0%Z)) /\
     sink (fst (collect_from_source w src max_items st)) = sink st).
Proof.
  unfold parse_api. split; [|split; [|split; [|split; [|split]]]].
  - intros ds ->. apply dicts_map_VDict.
  - intros payload ->. unfold API_KEYS, texts, records_under.
    cbn [map flat_map]. rewrite app_nil_r. reflexivity.
  - intros payload -> Hi Hd Hr. unfold API_KEYS, texts.
    cbn [map flat_map].
    destruct (get payload "items"); try discriminate Hi.
    all: destruct (get payload "data"); try discriminate Hd.
    all: destruct (get payload "results"); try discriminate Hr.
    all: reflexivity.
  - intros ->. reflexivity.
  - intros v -> Hv. destruct v; try reflexivity; contradiction.
  - intros src max_items st Hfetch Htype.
    rewrite collect_waited.
    destruct (waited w src) as [ms|e]; cbn [bind]; [|split; reflexivity].
    unfold fetch_and_parse. rewrite Hfetch, Htype. split; reflexivity.
Qed.

(** ** The polite delay *)







(** ** The global item cap *)

Section Cap.

Variable ip : text -> bool.
Variable w : World.
Variable args : Args.

Lemma process_record_total (src : Source) (now : text) (since : option text)
      (st st' : State) (r : dict) :
  process_record ip args src now since st r = Ret st' ->
  (total_written st <= total_written st' <= total_written st + 1)%Z.
Proof.
  unfold process_record. intros H. bind_inv H.
  destruct r0 as [[doc slug]|k].
  - destruct (find_existing (files st) slug) as [existing|].
    + destruct (refreshed (files st) existing now doc);
        injection H as <-; simpl; lia.
    + injection H as <-. simpl. lia.
  - destruct (Kind_eqb k SinceFilter); injection H as <-; simpl; lia.
Qed.

Lemma fetch_and_parse_total (src : Source) (max_items : Z) (st : State) :
  total_written (fst (fetch_and_parse w src max_items st)) = total_written st.
Proof.
  unfold fetch_and_parse.
  destruct (fetch w (src_url src)) as [raw|]; [|reflexivity].
  destruct (eqb (src_type src) "rss").
  { destruct (parse_rss w raw); reflexivity. }
  destruct (eqb (src_type src) "html").
  { destruct (parse_html w raw _); reflexivity. }
  destruct (eqb (src_type src) "api"); reflexivity.
Qed.

Lemma collect_total (src : Source) (max_items : Z) (st : State) :
  total_written (fst (collect_from_source w src max_items st)) = total_written st.
Proof.
  rewrite collect_waited. destruct (waited w src) as [ms|e]; [|reflexivity].
  rewrite fetch_and_parse_total. reflexivity.
Qed.


End Cap.

(** ** The partial-failure flag and the refresh of a stored file *)

Section Flag.

Variable ip : text -> bool.
Variable args : Args.

(** The record loop never touches the partial-failure flag, whatever
    happens to the records. *)
Lemma record_loop_keeps_flag (src : Source) (now : text) (since : option text)
      (recs : list dict) :
  forall st st',
    process_records ip args src now since st recs = Ret st' ->
    any_partial_fail st' = any_partial_fail st.
Proof.
  induction recs as [|r recs IH]; intros st st' H; simpl in H.
  - injection H as <-. reflexivity.
  - destruct (arg_limit args <=? total_written st)%Z.
    + injection H as <-. reflexivity.
    + bind_inv H. rewrite (IH _ _ H). clear IH H.
      unfold process_record in E. bind_inv E.
      destruct r0 as [[doc slug]|k].
      * destruct (find_existing (files st) slug) as [existing|].
        -- destruct (refreshed (files st) existing now doc);
             injection E as <-; reflexivity.
        -- injection E as <-. reflexivity.
      * destruct (Kind_eqb k SinceFilter); injection E as <-; reflexivity.
Qed.

End Flag.

(** A refresh changes [last_checked_at] and, when the new document has a
    deadline, [deadline]; every other field of the stored document stays. *)
Lemma refreshed_frame (out_dir : store) (existing now : text) (doc cur cur' : dict) :
  read_json out_dir existing = Ret (VDict cur) ->
  refreshed out_dir existing now doc = Ret cur' ->
  get cur' "last_checked_at" = VStr now /\
  get cur' "deadline" =
    (if truthy (get doc "deadline") then get doc "deadline" else get cur "deadline") /\
  (forall q, eqb q "last_checked_at" = false -> eqb q "deadline" = false ->
             get cur' q = get cur q).
Proof.
  unfold refreshed. intros Hr H. rewrite Hr in H. cbn [bind] in H.
  assert (Hc : exists c, VDict cur ||| VDict [] = VDict c /\ forall q, get c q = get cur q).
  { unfold por. destruct cur; simpl; eexists; split; reflexivity. }
  destruct Hc as (c & Hc & Hget). rewrite Hc in H.
  destruct (truthy (get doc "deadline")); injection H as <-.
  - split; [|split].
    + rewrite !get_set. reflexivity.
    + rewrite get_set. reflexivity.
    + intros q H1 H2. cbn [of_string list_ascii_of_string] in H1, H2.
      rewrite !get_set, H1, H2. apply Hget.
  - split; [|split].
    + rewrite get_set. reflexivity.
    + rewrite get_set. cbn [of_string list_ascii_of_string].
      rewrite <- Hget. reflexivity.
    + intros q H1 H2. cbn [of_string list_ascii_of_string] in H1.
      rewrite get_set, H1. apply Hget.
Qed.

(** ** Slugs of accepted records *)

(** C9 (as amended): [slugify], and [make_slug] with it, computes exactly
    these steps: lowercase; each run of whitespace or underscores to one
    hyphen; drop what is outside [a-z0-9-]; collapse repeated hyphens; trim
    the hyphens at both ends; cap the length at 48; [post] if nothing is
    left.  The slug of an accepted record is these steps applied twice to
    its title, so it depends on the title alone. *)
Theorem slug_is_function_of_title :
  (forall title, slugify title = slug_steps title /\ make_slug title = slug_steps title) /\
  (forall ip src r now n since doc slug,
     normalize_record ip src r now n since = Ret (Ok (doc, slug)) ->
     exists title,
       get doc "title" = VStr title /\ slug = slug_steps (slug_steps title)).
Proof.
  split.
  - intros title. rewrite make_slug_is_slugify, slugify_is_slug_steps. split; reflexivity.
  - intros ip src r now n since doc slug H.
    destruct (normalize_ok_inv _ _ _ _ _ _ H)
      as (title & _ & _ & _ & _ & _ & _ & _ & Hslug & Htitle & _).
    exists title. split; [exact Htitle|].
    rewrite Hslug, !slugify_is_slug_steps. reflexivity.
Qed.

(** ** URL normalization *)

Lemma lower_letter (x y : ascii) :
  Chr.is_lower_ascii y = true -> Chr.lower x = y ->
  Chr.is_alpha_ascii x = true.
Proof.
  intros Hy Hx. unfold Chr.is_alpha_ascii.
  destruct (Chr.is_upper_ascii x) eqn:Hu; [reflexivity|]. simpl.
  unfold Chr.lower in Hx. rewrite Hu in Hx. simpl in Hx.
  destruct (Chr.between 192 222 x && negb (Chr.code x =? 215)) eqn:Hl.
  - exfalso. subst y. apply andb_true_iff in Hl as [Hl _].
    unfold Chr.is_lower_ascii, Chr.between, Chr.code in *.
    apply andb_true_iff in Hl as [H1 H2]. apply Nat.leb_le in H1, H2.
    rewrite nat_ascii_embedding in Hy by lia.
    apply andb_true_iff in Hy as [H3 H4]. apply Nat.leb_le in H3, H4. lia.
  - subst y. exact Hy.
Qed.

Lemma alpha_facts (x : ascii) :
  Chr.is_alpha_ascii x = true ->
  scheme_char x = true /\ Ascii.eqb x ":" = false /\
  c0_control_or_space x = false /\ Chr.is_space x = false /\
  unsafe_url_byte x = false.
Proof.
  unfold scheme_char. intros H. rewrite H.
  assert (Hc : 65 <= Chr.code x <= 122).
  { unfold Chr.is_alpha_ascii, Chr.is_upper_ascii, Chr.is_lower_ascii, Chr.between in H.
    apply orb_true_iff in H as [H|H]; apply andb_true_iff in H as [H1 H2];
      apply Nat.leb_le in H1, H2; lia. }
  split; [reflexivity|]. split; [|split; [|split]].
  - apply Ascii.eqb_neq. intros ->. vm_compute in Hc. lia.
  - unfold c0_control_or_space. apply Nat.leb_gt. lia.
  - unfold Chr.is_space, Chr.between.
    repeat (apply orb_false_iff; split);
      try (apply andb_false_iff; left; apply Nat.leb_gt; lia);
      try (apply andb_false_iff; right; apply Nat.leb_gt; lia);
      apply Nat.eqb_neq; lia.
  - unfold unsafe_url_byte.
    repeat (apply orb_false_iff; split); apply Nat.eqb_neq; lia.
Qed.

Lemma rstrip_keeps (p : ascii -> bool) (s : text) (c : ascii) :
  p c = false -> rstrip_by p (s ++ [c]) = s ++ [c].
Proof.
  intros H. unfold rstrip_by. rewrite rev_app_distr. simpl. rewrite H.
  simpl. rewrite rev_involutive. reflexivity.
Qed.

Lemma filter_all {A : Type} (f : A -> bool) (l : list A) :
  forallb f l = true -> filter f l = l.
Proof.
  induction l as [|x l IH]; simpl; [reflexivity|].
  intros H. apply andb_true_iff in H as [Hx Hl]. rewrite Hx, IH by exact Hl.
  reflexivity.
Qed.


Lemma drop_until_head (p : ascii -> bool) (s : text) :
  match drop_until p s with
  | [] => True
  | c :: _ => p c = true
  end.
Proof.
  induction s as [|c s IH]; simpl; [exact I|].
  destruct (p c) eqn:E; [exact E | exact IH].
Qed.


Lemma strip_keeps (x : ascii) (s : text) (z : ascii) :
  Chr.is_space x = false -> Chr.is_space z = false ->
  strip (x :: s ++ [z]) = x :: s ++ [z].
Proof.
  intros Hx Hz. unfold strip, strip_by. simpl. rewrite Hx.
  apply (rstrip_keeps Chr.is_space (x :: s) z Hz).
Qed.

Lemma last_not_space (rest : text) :
  nonempty rest = true ->
  match rev rest with c :: _ => negb (Chr.is_space c) | [] => true end = true ->
  exists s z, rest = s ++ [z] /\ Chr.is_space z = false.
Proof.
  intros Hne H. destruct (rev rest) as [|z s] eqn:E.
  - apply (f_equal (@rev ascii)) in E. rewrite rev_involutive in E.
    subst rest. discriminate Hne.
  - exists (rev s), z. split.
    + apply (f_equal (@rev ascii)) in E. rewrite rev_involutive in E. exact E.
    + apply negb_true_iff. exact H.
Qed.

Lemma take_until_nonempty (p : ascii -> bool) (s : text) :
  nonempty (take_until p s) = true -> nonempty s = true.
Proof. destruct s; [discriminate | reflexivity]. Qed.


(** * Further properties *)

Unset Implicit Arguments.

(** ** Decimal text *)

Lemma digit_of_N (d : N) :
  (d < 10)%N ->
  Chr.is_digit (ascii_of_N (48 + d)) = true /\
  (N_of_ascii (ascii_of_N (48 + d)) - 48 = d)%N.
Proof.
  intros H.
  assert (Hd : In d (map N.of_nat (List.seq 0 10))).
  { apply in_map_iff. exists (N.to_nat d). split; [lia|]. apply in_seq. lia. }
  simpl in Hd.
  repeat (destruct Hd as [<-|Hd]; [split; reflexivity|]). contradiction.
Qed.

Lemma to_N_fold (s : text) : to_N s = fold_left to_N_step s 0%N.
Proof. reflexivity. Qed.

(** Reading the digits written for [n] in front of [acc] is reading [acc]
    from [n] on. *)
Lemma digits_fuel_read (fuel : nat) :
  forall n acc,
    (n < 10 ^ N.of_nat fuel)%N ->
    fold_left to_N_step (digits_fuel fuel n acc) 0%N = fold_left to_N_step acc n.
Proof.
  induction fuel as [|fuel IH]; intros n acc Hn.
  - simpl in Hn. assert (n = 0%N) by lia. subst. reflexivity.
  - cbn [digits_fuel]. destruct (n <? 10)%N eqn:E.
    + apply N.ltb_lt in E. cbn [fold_left]. unfold to_N_step at 2.
      rewrite N.mod_small by exact E.
      destruct (digit_of_N n E) as [-> ->]. reflexivity.
    + apply N.ltb_ge in E. rewrite IH.
      * cbn [fold_left]. unfold to_N_step at 2.
        assert (Hm : (n mod 10 < 10)%N) by (apply N.mod_lt; lia).
        destruct (digit_of_N _ Hm) as [-> ->].
        f_equal. rewrite (N.div_mod n 10) at 3 by lia. reflexivity.
      * rewrite Nnat.Nat2N.inj_succ, N.pow_succ_r' in Hn.
        apply N.Div0.div_lt_upper_bound. lia.
Qed.

Lemma fuel_enough (n : N) : (n < 10 ^ N.of_nat (S (N.to_nat (N.log2 n))))%N.
Proof.
  rewrite Nnat.Nat2N.inj_succ, Nnat.N2Nat.id.
  destruct (N.eq_dec n 0) as [->|Hn]; [reflexivity|].
  apply N.lt_le_trans with (2 ^ N.succ (N.log2 n))%N.
  - apply N.log2_spec. lia.
  - apply N.pow_le_mono_l. lia.
Qed.

(** [int(str(n)) == n] *)
Lemma to_N_of_N (n : N) : to_N (of_N n) = n.
Proof.
  rewrite to_N_fold. unfold of_N. rewrite digits_fuel_read by apply fuel_enough.
  reflexivity.
Qed.

Lemma to_N_zeros (k : nat) (s : text) : to_N (repeat "0"%char k ++ s) = to_N s.
Proof.
  rewrite !to_N_fold, fold_left_app.
  replace (fold_left to_N_step (repeat "0"%char k) 0%N) with 0%N; [reflexivity|].
  induction k as [|k IH]; [reflexivity|]. simpl. exact IH.
Qed.

Lemma to_N_zfill (w : nat) (n : N) : to_N (zfill w (of_N n)) = n.
Proof. unfold zfill. rewrite to_N_zeros. apply to_N_of_N. Qed.

Lemma digits_fuel_digits (fuel : nat) :
  forall n acc,
    Forall (fun c => Chr.is_digit c = true) acc ->
    Forall (fun c => Chr.is_digit c = true) (digits_fuel fuel n acc).
Proof.
  induction fuel as [|fuel IH]; intros n acc Hacc; [exact Hacc|].
  cbn [digits_fuel].
  assert (Hm : (n mod 10 < 10)%N) by (apply N.mod_lt; lia).
  destruct (digit_of_N _ Hm) as [Hd _].
  destruct (n <? 10)%N; [|apply IH]; constructor; assumption.
Qed.

Lemma digits_fuel_length (fuel : nat) :
  forall n acc k,
    (n < 10 ^ N.of_nat k)%N -> 1 <= k ->
    List.length (digits_fuel fuel n acc) <= k + List.length acc.
Proof.
  induction fuel as [|fuel IH]; intros n acc k Hn Hk; [simpl; lia|].
  cbn [digits_fuel]. destruct (n <? 10)%N eqn:E; [simpl; lia|].
  apply N.ltb_ge in E.
  destruct k as [|[|k]]; [lia| |].
  - simpl in Hn. lia.
  - specialize (IH (n / 10)%N (ascii_of_N (48 + n mod 10) :: acc) (S k)).
    change (List.length (ascii_of_N (48 + n mod 10) :: acc))
      with (S (List.length acc)) in IH.
    rewrite Nat.add_succ_r in IH. apply IH; [|lia].
    rewrite Nnat.Nat2N.inj_succ, N.pow_succ_r' in Hn.
    apply N.Div0.div_lt_upper_bound. lia.
Qed.

(** The decimal text of a number below [10 ^ w], padded to [w] places, is
    [w] digits. *)
Lemma zfill_digits (w : nat) (n : N) :
  1 <= w -> (n < 10 ^ N.of_nat w)%N ->
  List.length (zfill w (of_N n)) = w /\
  Forall (fun c => Chr.is_digit c = true) (zfill w (of_N n)).
Proof.
  intros Hw Hn. unfold zfill, of_N.
  pose proof (digits_fuel_length (S (N.to_nat (N.log2 n))) n [] w Hn Hw) as Hl.
  change (List.length (@nil ascii)) with 0 in Hl. rewrite Nat.add_0_r in Hl.
  split.
  - rewrite length_app, repeat_length. lia.
  - apply Forall_app. split.
    + apply Forall_forall. intros c Hc. apply repeat_spec in Hc. subst. reflexivity.
    + apply digits_fuel_digits. constructor.
Qed.

(** ** Post ids *)

Lemma app_same_length {A : Type} (a a' b b' : list A) :
  List.length a = List.length a' -> a ++ b = a' ++ b' -> a = a' /\ b = b'.
Proof.
  revert a'. induction a as [|x a IH]; intros [|x' a'] Hl H; try discriminate Hl.
  - split; [reflexivity|exact H].
  - simpl in Hl, H. injection Hl as Hl. injection H as -> H.
    destruct (IH a' Hl H) as [-> ->]. split; reflexivity.
Qed.

(** X1: two ids built on publish dates of the same length (an ISO date has
    ten characters) are equal exactly when the dates and the sequence
    numbers are; the slug has no part in the id. *)
Theorem build_id_tells_date_and_sequence (d d' s s' : text) (n n' : N) :
  List.length d = List.length d' ->
  (build_id d s n = build_id d' s' n' <-> d = d' /\ n = n').
Proof.
  intros Hl. split.
  - unfold build_id. intros H.
    apply app_inv_head in H.
    apply app_same_length in H as [Hd H]; [|exact Hl].
    apply app_inv_head in H.
    apply (f_equal to_N) in H. rewrite !to_N_zfill in H. auto.
  - intros [-> ->]. reflexivity.
Qed.

(** ** The shape of a slug *)

Lemma no_double_cons2 (a b : ascii) (s : text) :
  no_double_hyphen (a :: b :: s) =
  negb (hyphen a && hyphen b) && no_double_hyphen (b :: s).
Proof. reflexivity. Qed.

Lemma squeeze_hyphen_shape (s : text) :
  forall b,
    no_double_hyphen (squeeze hyphen "-" b s) = true /\
    (b = true -> no_leading_hyphen (squeeze hyphen "-" b s) = true).
Proof.
  induction s as [|c s IH]; intros b; [split; reflexivity|].
  cbn [squeeze]. destruct (hyphen c) eqn:Hc.
  - destruct b.
    + apply IH.
    + split; [|discriminate].
      destruct (IH true) as [Hd Hl]. specialize (Hl eq_refl).
      change (of_string "-" ++ squeeze hyphen "-" true s)
        with ("-"%char :: squeeze hyphen "-" true s).
      destruct (squeeze hyphen "-" true s) as [|a t]; [reflexivity|].
      rewrite no_double_cons2, Hd, andb_true_r.
      cbn [no_leading_hyphen] in Hl. apply negb_true_iff in Hl.
      rewrite Hl, andb_false_r. reflexivity.
  - destruct (IH false) as [Hd _]. split.
    + destruct (squeeze hyphen "-" false s) as [|a t] eqn:E; [reflexivity|].
      rewrite no_double_cons2, Hd, andb_true_r, Hc. reflexivity.
    + intros _. cbn [no_leading_hyphen]. rewrite Hc. reflexivity.
Qed.

Lemma no_double_app (l1 l2 : text) :
  no_double_hyphen (l1 ++ l2) = true ->
  no_double_hyphen l1 = true /\ no_double_hyphen l2 = true.
Proof.
  induction l1 as [|a l1 IH]; intros H; [split; [reflexivity|exact H]|].
  destruct l1 as [|b l1].
  - split; [reflexivity|]. destruct l2 as [|c l2]; [reflexivity|].
    simpl in H. apply andb_true_iff in H as [_ H]. exact H.
  - change ((a :: b :: l1) ++ l2) with (a :: b :: (l1 ++ l2)) in H.
    rewrite no_double_cons2 in H. apply andb_true_iff in H as [Hab H].
    destruct (IH H) as [H1 H2]. split; [|exact H2].
    rewrite no_double_cons2, Hab. exact H1.
Qed.

Lemma lstrip_suffix (p : ascii -> bool) (s : text) :
  exists pre, s = pre ++ lstrip_by p s /\ Forall (fun c => p c = true) pre.
Proof.
  induction s as [|c s (pre & IH & Hp)]; [exists []; split; [reflexivity|constructor]|].
  simpl. destruct (p c) eqn:E.
  - exists (c :: pre). split; [simpl; f_equal; exact IH|constructor; assumption].
  - exists []. split; [reflexivity|constructor].
Qed.

Lemma rstrip_prefix (p : ascii -> bool) (s : text) :
  exists suf, s = rstrip_by p s ++ suf /\ Forall (fun c => p c = true) suf.
Proof.
  unfold rstrip_by. destruct (lstrip_suffix p (rev s)) as (pre & H & Hp).
  exists (rev pre). split.
  - apply (f_equal (@rev ascii)) in H. rewrite rev_involutive, rev_app_distr in H.
    exact H.
  - apply Forall_rev. exact Hp.
Qed.

Lemma lstrip_head (p : ascii -> bool) (s : text) :
  match lstrip_by p s with
  | c :: _ => p c = false
  | [] => True
  end.
Proof.
  induction s as [|c s IH]; simpl; [exact I|].
  destruct (p c) eqn:E; [exact IH|exact E].
Qed.

(** What [rstrip] leaves does not end in a stripped character. *)
Lemma rstrip_last (p : ascii -> bool) (s : text) :
  match rev (rstrip_by p s) with
  | c :: _ => p c = false
  | [] => True
  end.
Proof. unfold rstrip_by. rewrite rev_involutive. apply lstrip_head. Qed.

Lemma rstrip_keeps_head (p : ascii -> bool) (c : ascii) (s : text) :
  p c = false -> exists t, rstrip_by p (c :: s) = c :: t.
Proof.
  intros Hc. destruct (rstrip_prefix p (c :: s)) as (suf & H & Hs).
  destruct (rstrip_by p (c :: s)) as [|a t].
  - simpl in H. subst suf. inversion Hs; subst. congruence.
  - injection H as <- _. exists t. reflexivity.
Qed.

Lemma no_leading_firstn (n : nat) (s : text) :
  no_leading_hyphen s = true -> no_leading_hyphen (firstn n s) = true.
Proof. destruct n, s; auto. Qed.

Lemma no_double_contains (s : text) :
  no_double_hyphen s = true -> contains "--" s = false.
Proof.
  induction s as [|a s IH]; intros H; [reflexivity|].
  cbn [contains]. destruct s as [|b s].
  - cbn. rewrite andb_false_r. reflexivity.
  - rewrite no_double_cons2 in H. apply andb_true_iff in H as [Hab H].
    rewrite (IH H), orb_false_r.
    cbn [startswith of_string list_ascii_of_string]. rewrite andb_true_r.
    apply negb_true_iff in Hab. unfold hyphen, Chr.eqc in Hab. exact Hab.
Qed.

Lemma squeeze_keeps_class (A : ascii -> bool) (p : ascii -> bool) (rep s : text) :
  Forall (fun c => A c = true) rep ->
  Forall (fun c => A c = true) s ->
  forall b, Forall (fun c => A c = true) (squeeze p rep b s).
Proof.
  intros Hrep Hs. induction Hs as [|c s Hc Hs IH]; intros b; [constructor|].
  cbn [squeeze]. destruct (p c).
  - destruct b; [apply IH|]. apply Forall_app. split; [exact Hrep|apply IH].
  - constructor; [exact Hc|apply IH].
Qed.

(** The cleaned title before the cap and the fallback. *)
Lemma trimmed_shape (t : text) :
  let s := strip_by hyphen
             (squeeze hyphen "-" false
                (filter slug_char (squeeze space_or_underscore "-" false (map Chr.lower t)))) in
  Forall (fun c => slug_char c = true) s /\
  no_leading_hyphen s = true /\ no_double_hyphen s = true.
Proof.
  intros s. subst s.
  set (u := squeeze hyphen "-" false _).
  assert (Hu : Forall (fun c => slug_char c = true) u).
  { apply squeeze_keeps_class; [repeat constructor|].
    apply Forall_forall. intros c Hc. apply filter_In in Hc. apply Hc. }
  assert (Hd : no_double_hyphen u = true) by apply squeeze_hyphen_shape.
  unfold strip_by.
  destruct (lstrip_suffix hyphen u) as (pre & Eu & _).
  destruct (rstrip_prefix hyphen (lstrip_by hyphen u)) as (suf & El & _).
  rewrite El in Eu. rewrite Eu in Hu, Hd.
  apply Forall_app in Hu as [_ Hu]. apply Forall_app in Hu as [Hu _].
  apply no_double_app in Hd as [_ Hd]. apply no_double_app in Hd as [Hd _].
  split; [exact Hu|]. split; [|exact Hd].
  pose proof (lstrip_head hyphen u) as Hh.
  destruct (lstrip_by hyphen u) as [|c l]; [reflexivity|].
  destruct (rstrip_keeps_head hyphen c l Hh) as (t' & ->).
  cbn [no_leading_hyphen]. rewrite Hh. reflexivity.
Qed.

(** What a character class says about every character, checked on all
    256 code points. *)
Lemma all_ascii (P : ascii -> bool) :
  forallb P (map ascii_of_nat (List.seq 0 256)) = true -> forall c, P c = true.
Proof.
  intros H c. rewrite forallb_forall in H. apply H.
  apply in_map_iff. exists (nat_of_ascii c). split; [apply ascii_nat_embedding|].
  apply in_seq. pose proof (nat_ascii_bounded c). lia.
Qed.

Lemma slug_char_facts (c : ascii) :
  slug_char c = true ->
  Chr.lower c = c /\ space_or_underscore c = false.
Proof.
  intros H.
  pose proof (all_ascii
    (fun c => implb (slug_char c)
                (Ascii.eqb (Chr.lower c) c && negb (space_or_underscore c)))
    ltac:(vm_compute; reflexivity) c) as F.
  cbv beta in F. rewrite H in F. cbn [implb] in F.
  apply andb_true_iff in F as [F1 F2].
  apply Ascii.eqb_eq in F1. apply negb_true_iff in F2. auto.
Qed.

Lemma squeeze_none (p : ascii -> bool) (rep s : text) :
  Forall (fun c => p c = false) s -> forall b, squeeze p rep b s = s.
Proof.
  induction 1 as [|c s Hc Hs IH]; intros b; [reflexivity|].
  cbn [squeeze]. rewrite Hc, IH. reflexivity.
Qed.

Lemma hyphen_eq (c : ascii) : hyphen c = true -> c = "-"%char.
Proof. intros H. symmetry. apply Ascii.eqb_eq. exact H. Qed.

(** Collapsing hyphen runs changes nothing where no two hyphens touch. *)
Lemma squeeze_hyphen_id (s : text) :
  no_double_hyphen s = true ->
  squeeze hyphen "-" false s = s /\
  (no_leading_hyphen s = true -> squeeze hyphen "-" true s = s).
Proof.
  induction s as [|c s IH]; intros Hd; [split; reflexivity|].
  assert (Hd' : no_double_hyphen s = true).
  { destruct s as [|b s]; [reflexivity|].
    rewrite no_double_cons2 in Hd. apply andb_true_iff in Hd. apply Hd. }
  destruct (IH Hd') as [IH1 IH2].
  cbn [squeeze no_leading_hyphen]. destruct (hyphen c) eqn:Hc.
  - split; [|discriminate].
    rewrite (hyphen_eq c Hc). rewrite IH2; [reflexivity|].
    destruct s as [|b s]; [reflexivity|].
    rewrite no_double_cons2, Hc in Hd. apply andb_true_iff in Hd as [Hd _].
    cbn [no_leading_hyphen]. destruct (hyphen b); [discriminate Hd|reflexivity].
  - rewrite IH1. split; reflexivity.
Qed.

Lemma lstrip_id (p : ascii -> bool) (s : text) :
  match s with c :: _ => p c = false | [] => True end -> lstrip_by p s = s.
Proof. destruct s as [|c s]; [reflexivity|]. intros H. simpl. rewrite H. reflexivity. Qed.

Lemma rstrip_id (p : ascii -> bool) (s : text) :
  match rev s with c :: _ => p c = false | [] => True end -> rstrip_by p s = s.
Proof.
  intros H. unfold rstrip_by. rewrite lstrip_id by exact H. apply rev_involutive.
Qed.

Lemma rstrip_idem (p : ascii -> bool) (s : text) :
  rstrip_by p (rstrip_by p s) = rstrip_by p s.
Proof. apply rstrip_id. apply rstrip_last. Qed.

Lemma endswith_hyphen (s : text) :
  endswith "-" s = match rev s with c :: _ => hyphen c | [] => false end.
Proof.
  unfold endswith. change (rev (of_string "-")) with ["-"%char].
  destruct (rev s) as [|c l]; [reflexivity|].
  cbn [startswith]. apply andb_true_r.
Qed.

Lemma startswith_hyphen (s : text) :
  startswith "-" s = negb (no_leading_hyphen s).
Proof.
  destruct s as [|c s]; [reflexivity|].
  cbn [startswith of_string list_ascii_of_string no_leading_hyphen].
  rewrite andb_true_r, negb_involutive. reflexivity.
Qed.

(** The shape of a slug, with the two hyphen conditions as the checks that
    compute them. *)
Lemma slug_shape (t : text) :
  slugify t <> [] /\ List.length (slugify t) <= 48 /\
  Forall (fun c => slug_char c = true) (slugify t) /\
  no_leading_hyphen (slugify t) = true /\ no_double_hyphen (slugify t) = true.
Proof.
  split; [apply slugify_nonempty|].
  rewrite slugify_is_slug_steps. unfold slug_steps.
  change (Chr.eqc "-") with hyphen.
  pose proof (trimmed_shape t) as H. cbv zeta in H. destruct H as (Hc & Hl & Hd).
  set (s := strip_by hyphen _) in *.
  assert (Hf : firstn 48 s ++ skipn 48 s = s) by apply firstn_skipn.
  assert (Hc' : Forall (fun c => slug_char c = true) (firstn 48 s)).
  { rewrite <- Hf in Hc. apply Forall_app in Hc. apply Hc. }
  assert (Hd' : no_double_hyphen (firstn 48 s) = true).
  { rewrite <- Hf in Hd. apply no_double_app in Hd. apply Hd. }
  pose proof (no_leading_firstn 48 s Hl) as Hl'.
  pose proof (firstn_le_length 48 s) as Hlen.
  destruct (firstn 48 s) as [|c l] eqn:E.
  - cbn. repeat split; try lia. repeat constructor.
  - cbn [or_post]. auto.
Qed.

(** A slug put through [slugify] again loses the hyphen the cap may have
    left at its end, and nothing else. *)
Lemma slugify_slug (t : text) :
  slugify (slugify t) = rstrip_by hyphen (slugify t).
Proof.
  destruct (slug_shape t) as (Hne & Hlen & Hc & Hl & Hd).
  set (s := slugify t) in *.
  rewrite slugify_is_slug_steps. unfold slug_steps.
  change (Chr.eqc "-") with hyphen.
  assert (E1 : map Chr.lower s = s).
  { clear -Hc. induction Hc as [|c s Hc _ IH]; [reflexivity|].
    simpl. rewrite IH, (proj1 (slug_char_facts c Hc)). reflexivity. }
  rewrite E1.
  rewrite (squeeze_none space_or_underscore "-" s).
  2:{ eapply Forall_impl; [|exact Hc]. intros c H. apply slug_char_facts, H. }
  rewrite filter_all by (apply forallb_forall; apply Forall_forall; exact Hc).
  rewrite (proj1 (squeeze_hyphen_id s Hd)).
  unfold strip_by. rewrite lstrip_id.
  2:{ destruct s as [|c l]; [exact I|]. apply negb_true_iff. exact Hl. }
  destruct s as [|c l] eqn:Es; [contradiction|].
  assert (Hh : hyphen c = false) by (apply negb_true_iff; exact Hl).
  destruct (rstrip_keeps_head hyphen c l Hh) as (l' & El).
  destruct (rstrip_prefix hyphen (c :: l)) as (suf & Ep & _).
  assert (Hlen' : List.length (rstrip_by hyphen (c :: l)) <= 48).
  { apply (f_equal (@List.length ascii)) in Ep. rewrite length_app in Ep. lia. }
  rewrite firstn_all2 by exact Hlen'. rewrite El. reflexivity.
Qed.

(** X2: a slug is never empty, is at most 48 characters long, is made of
    [a-z], [0-9] and hyphens only, does not begin with a hyphen and has no
    two hyphens in a row. *)
Theorem slugify_shape (t : text) :
  slugify t <> [] /\
  List.length (slugify t) <= 48 /\
  Forall (fun c => slug_char c = true) (slugify t) /\
  startswith "-" (slugify t) = false /\
  contains "--" (slugify t) = false.
Proof.
  destruct (slug_shape t) as (Hne & Hlen & Hc & Hl & Hd).
  split; [exact Hne|]. split; [exact Hlen|]. split; [exact Hc|]. split.
  - rewrite startswith_hyphen, Hl. reflexivity.
  - apply no_double_contains. exact Hd.
Qed.

(** X3: the slug of an accepted record is a fixed point of [slugify] and
    of [make_slug]: it is not empty, has at most 48 characters, all in
    [a-z0-9-], has no hyphen at either end and no two hyphens in a row. *)
Theorem accepted_slug_is_stable (ip : text -> bool) (src : Source) (r : dict)
        (now : text) (n : N) (since : option text) (doc : dict) (slug : text) :
  normalize_record ip src r now n since = Ret (Ok (doc, slug)) ->
  slugify slug = slug /\ make_slug slug = slug /\
  slug <> [] /\ List.length slug <= 48 /\
  Forall (fun c => slug_char c = true) slug /\
  startswith "-" slug = false /\ endswith "-" slug = false /\
  contains "--" slug = false.
Proof.
  intros H.
  destruct (normalize_ok_inv _ _ _ _ _ _ H) as (title & _ & _ & _ & _ & _ & _ & _ & -> & _).
  destruct (slug_shape (slugify title)) as (Hne & Hlen & Hc & Hl & Hd).
  assert (Hfix : slugify (slugify (slugify title)) = slugify (slugify title)).
  { rewrite (slugify_slug (slugify title)), slugify_slug. apply rstrip_idem. }
  split; [exact Hfix|]. split; [rewrite make_slug_is_slugify; exact Hfix|].
  split; [exact Hne|]. split; [exact Hlen|]. split; [exact Hc|].
  split; [rewrite startswith_hyphen, Hl; reflexivity|]. split.
  - rewrite slugify_slug, endswith_hyphen.
    pose proof (rstrip_last hyphen (slugify title)) as Hr.
    destruct (rev (rstrip_by hyphen (slugify title))); [reflexivity|exact Hr].
  - apply no_double_contains. exact Hd.
Qed.

(** ** Scrubbing text that holds nothing to scrub *)

Lemma occurs_tail (w : text) (c : ascii) (s : text) : occurs w s -> occurs w (c :: s).
Proof. intros (pre & post & ->). exists (c :: pre), post. reflexivity. Qed.

(** Where no text of the pattern occurs, substitution returns its input. *)
Lemma sub_none (r : Re.regex) (repl : text) :
  Re.plain r = true ->
  forall s pos,
    (forall w, occurs w s -> ~ Re.lang r w) ->
    Re.sub_from r repl 0 pos s = s.
Proof.
  intros Hpl s. induction s as [|c s IH]; intros pos Hfree.
  - cbn [Re.sub_from].
    destruct (Re.match_at r pos []) as [[e cs]|] eqn:E; [|reflexivity].
    apply (ReLang.match_at_sound r pos [] Hpl) in E as (w & rest & Hs & Hl & _).
    exfalso. apply (Hfree w); [|exact Hl]. exists [], rest. exact Hs.
  - cbn [Re.sub_from].
    destruct (Re.match_at r pos (c :: s)) as [[e cs]|] eqn:E.
    + apply (ReLang.match_at_sound r pos (c :: s) Hpl) in E as (w & rest & Hs & Hl & _).
      exfalso. apply (Hfree w); [|exact Hl]. exists [], rest. exact Hs.
    + rewrite IH; [reflexivity|].
      intros w Hw. apply Hfree. apply occurs_tail. exact Hw.
Qed.

Lemma scrub_pii_fixed (t : text) : free_of_pii t -> scrub_pii t = t.
Proof.
  intros H. unfold scrub_pii, Re.sub.
  rewrite (sub_none EMAIL_RE "[redacted]" email_plain t 0)
    by (intros w Hw; apply (H w Hw)).
  apply (sub_none PHONE_RE "[redacted]" phone_plain t 0).
  intros w Hw. apply (H w Hw).
Qed.

(** A search that finds nothing: no text of the pattern occurs. *)
Lemma search_none (r : Re.regex) :
  Re.plain r = true ->
  forall s pos,
    Re.search_from r pos s = None ->
    forall w, occurs w s -> ~ Re.lang r w.
Proof.
  intros Hpl s. induction s as [|c s IH]; intros pos H w (pre & post & Hs) Hl.
  - symmetry in Hs. apply app_eq_nil in Hs as [-> Hs]. apply app_eq_nil in Hs as [-> ->].
    cbn [Re.search_from] in H.
    destruct (Re.match_at r pos []) eqn:E; [discriminate H|].
    exact (ReLang.match_at_complete r pos [] [] Hpl Hl E).
  - cbn [Re.search_from] in H.
    destruct (Re.match_at r pos (c :: s)) eqn:E; [discriminate H|].
    destruct pre as [|a pre].
    + simpl in Hs. rewrite Hs in E.
      exact (ReLang.match_at_complete r pos w post Hpl Hl E).
    + simpl in Hs. injection Hs as _ Hs.
      apply (IH (S pos) H w); [|exact Hl]. exists pre, post. exact Hs.
Qed.

Lemma search_none_free (t : text) :
  Re.search EMAIL_RE t = None -> Re.search PHONE_RE t = None -> free_of_pii t.
Proof.
  intros He Hp w Hw. split.
  - exact (search_none EMAIL_RE email_plain t 0 He w Hw).
  - exact (search_none PHONE_RE phone_plain t 0 Hp w Hw).
Qed.

(** X4: [scrub_pii] returns its argument unchanged exactly when no
    email-like and no phone-like text occurs in it. *)
Theorem scrub_pii_fixed_iff_free (t : text) : scrub_pii t = t <-> free_of_pii t.
Proof.
  split.
  - intros H. rewrite <- H. apply scrub_pii_free.
  - apply scrub_pii_fixed.
Qed.

(** X5: scrubbing twice is scrubbing once. *)
Theorem scrub_pii_idempotent (t : text) : scrub_pii (scrub_pii t) = scrub_pii t.
Proof. apply scrub_pii_fixed. apply scrub_pii_free. Qed.

(** ** Dates *)

Lemma orelse_none (a : Re.outcome) : Re.orelse a (fun _ => None) = a.
Proof. destruct a; reflexivity. Qed.

(** [p{n}] in front of exactly [n] characters of the class. *)
Lemma rep_exactly (p : ascii -> bool) (rest : text) (cs : Re.caps) (k : Re.cont)
      (w : text) :
  Forall (fun c => p c = true) w ->
  forall pos,
    Re.rep_cls p (List.length w) (Some (List.length w)) pos (w ++ rest) cs k =
    k (List.length w + pos) rest cs.
Proof.
  induction 1 as [|c w Hc Hw IH]; intros pos.
  - destruct rest as [|c rest]; [reflexivity|].
    cbn [List.length app Re.rep_cls Re.more]. rewrite andb_false_r. reflexivity.
  - cbn [List.length app Re.rep_cls]. rewrite Hc. cbn [Re.more andb pred Re.dec option_map].
    rewrite IH. cbn [Nat.eqb]. rewrite orelse_none.
    rewrite Nat.add_succ_r. reflexivity.
Qed.

Lemma rmatch_chr (c : ascii) (rest : text) (pos : nat) (cs : Re.caps) (k : Re.cont) :
  Re.rmatch (Re.chr c) pos (c :: rest) cs k = k (S pos) rest cs.
Proof. cbn [Re.rmatch Re.chr]. unfold Chr.eqc. rewrite Ascii.eqb_refl. reflexivity. Qed.

Lemma digit_not_space (c : ascii) : Chr.is_digit c = true -> Chr.is_space c = false.
Proof.
  intros H.
  pose proof (all_ascii (fun c => implb (Chr.is_digit c) (negb (Chr.is_space c)))
                ltac:(vm_compute; reflexivity) c) as F.
  cbv beta in F. rewrite H in F. apply negb_true_iff. exact F.
Qed.

Lemma length4 {A : Type} (l : list A) :
  List.length l = 4 -> exists a b c d, l = [a; b; c; d].
Proof.
  destruct l as [|a [|b [|c [|d [|e l]]]]]; try discriminate. intros _.
  exists a, b, c, d. reflexivity.
Qed.

Lemma length2 {A : Type} (l : list A) :
  List.length l = 2 -> exists a b, l = [a; b].
Proof.
  destruct l as [|a [|b [|c l]]]; try discriminate. intros _.
  exists a, b. reflexivity.
Qed.

Lemma days_in_month_le (y m : N) : (days_in_month y m <= 31)%N.
Proof.
  unfold days_in_month.
  destruct m as [|[[[[|[]|]|[[]|[]|]|]|[[[]|[]|]|[[]|[]|]|]|]|[[[|[]|]|[[]|[]|]|]|[[[]|[]|]|[[]|[]|]|]|]|]];
    try destruct (is_leap y); lia.
Qed.

(** What [dt.date(y, m, d).isoformat()] returns. *)
Lemma date_iso_inv (y m d : N) (t : text) :
  date_iso y m d = Some t ->
  (1 <= y <= 9999)%N /\ (1 <= m <= 12)%N /\ (1 <= d <= days_in_month y m)%N /\
  t = zfill 4 (of_N y) +++ "-" +++ zfill 2 (of_N m) +++ "-" +++ zfill 2 (of_N d).
Proof.
  unfold date_iso.
  destruct ((1 <=? y)%N && (y <=? 9999)%N && (1 <=? m)%N && (m <=? 12)%N &&
            (1 <=? d)%N && (d <=? days_in_month y m)%N) eqn:E; [|discriminate].
  intros H. injection H as <-.
  repeat (apply andb_true_iff in E as [E ?]).
  repeat match goal with H : (_ <=? _)%N = true |- _ => apply N.leb_le in H end.
  repeat split; assumption.
Qed.

(** An ISO date in its parts: digits, with the numbers they spell. *)
Lemma date_iso_parts (y m d : N) (t : text) :
  date_iso y m d = Some t ->
  exists a b c e m1 m2 d1 d2,
    t = [a; b; c; e] ++ "-"%char :: [m1; m2] ++ "-"%char :: [d1; d2] /\
    Forall (fun x => Chr.is_digit x = true) [a; b; c; e; m1; m2; d1; d2] /\
    zfill 4 (of_N y) = [a; b; c; e] /\ zfill 2 (of_N m) = [m1; m2] /\
    zfill 2 (of_N d) = [d1; d2].
Proof.
  intros H. apply date_iso_inv in H as (Hy & Hm & Hd & ->).
  pose proof (days_in_month_le y m) as Hdm.
  destruct (zfill_digits 4 y) as [Ly Dy]; [lia|simpl; lia|].
  destruct (zfill_digits 2 m) as [Lm Dm]; [lia|simpl; lia|].
  destruct (zfill_digits 2 d) as [Ld Dd]; [lia|simpl; lia|].
  destruct (length4 _ Ly) as (a & b & c & e & Ey).
  destruct (length2 _ Lm) as (m1 & m2 & Em).
  destruct (length2 _ Ld) as (d1 & d2 & Ed).
  exists a, b, c, e, m1, m2, d1, d2.
  rewrite Ey, Em, Ed in *.
  split; [reflexivity|]. split; [|auto].
  repeat match goal with
         | F : Forall _ (_ :: _) |- _ => apply Forall_cons_iff in F as [? F]
         end.
  repeat constructor; assumption.
Qed.

(** A text of the shape dddd-dd-dd matches [ISO_DATE_RE]. *)
Lemma iso_shape_matches (a b c e m1 m2 d1 d2 : ascii) :
  Forall (fun x => Chr.is_digit x = true) [a; b; c; e; m1; m2; d1; d2] ->
  Re.matches ISO_DATE_RE ([a; b; c; e] ++ "-"%char :: [m1; m2] ++ "-"%char :: [d1; d2]) = true.
Proof.
  intros H.
  repeat match goal with
         | F : Forall _ (_ :: _) |- _ => apply Forall_cons_iff in F as [? F]
         end.
  unfold Re.matches, Re.match_, Re.match_at, ISO_DATE_RE, Re.exactly.
  cbn [Re.seq Re.rmatch Nat.eqb].
  rewrite (rep_exactly Chr.is_digit _ [] _ [a; b; c; e]) by (repeat constructor; assumption).
  rewrite rmatch_chr.
  rewrite (rep_exactly Chr.is_digit ("-"%char :: [d1; d2]) [] _ [m1; m2])
    by (repeat constructor; assumption).
  rewrite rmatch_chr.
  rewrite (rep_exactly Chr.is_digit [] [] _ [d1; d2]) by (repeat constructor; assumption).
  reflexivity.
Qed.

Lemma first_format_inv (fmts : list Re.regex) (s t : text) :
  first_format fmts s = Some t -> exists y m d, date_iso y m d = Some t.
Proof.
  induction fmts as [|f fmts IH]; simpl; [discriminate|].
  destruct (strptime_iso f s) as [x|] eqn:E; [|exact IH].
  intros H. injection H as ->. unfold strptime_iso in E.
  destruct (Re.match_ f s) as [[e cs]|]; [|discriminate E].
  destruct (e =? List.length s); [|discriminate E].
  eauto.
Qed.

Lemma parse_date_inv (s t : text) :
  parse_date s = Some t -> exists y m d, date_iso y m d = Some t.
Proof.
  unfold parse_date. destruct s as [|c s]; [discriminate|].
  destruct (first_format date_formats (strip (c :: s))) as [x|] eqn:E.
  - intros H. injection H as ->. exact (first_format_inv _ _ _ E).
  - destruct (Re.search DATE_SCAN_RE (strip (c :: s))) as [[e cs]|]; [|discriminate].
    eauto.
Qed.
Lemma N_cases (lo n : nat) (x : N) :
  (N.of_nat lo <= x < N.of_nat (lo + n))%N -> In x (map N.of_nat (List.seq lo n)).
Proof.
  intros H. apply in_map_iff. exists (N.to_nat x). split; [lia|]. apply in_seq. lia.
Qed.

(** [%Y-%m-%d] on a text of four digits, a month and a day as
    [isoformat] writes them. *)
Lemma match_iso_format (a b c e : ascii) (m d : N) :
  Forall (fun x => Chr.is_digit x = true) [a; b; c; e] ->
  (1 <= m <= 12)%N -> (1 <= d <= 31)%N ->
  Re.match_ (Re.seq [dir_Y; Re.chr "-"; dir_m; Re.chr "-"; dir_d])
            ([a; b; c; e] ++ "-"%char :: zfill 2 (of_N m) ++ "-"%char :: zfill 2 (of_N d))
  = Some (10, [(3, zfill 2 (of_N d)); (2, zfill 2 (of_N m)); (1, [a; b; c; e])]).
Proof.
  intros H Hm Hd.
  repeat match goal with
         | F : Forall _ (_ :: _) |- _ => apply Forall_cons_iff in F as [? F]
         end.
  unfold Re.match_, Re.match_at, dir_Y, Re.digit.
  cbn [Re.seq Re.rmatch app].
  repeat match goal with E : Chr.is_digit _ = true |- _ => rewrite E; clear E end.
  cbn [Nat.sub firstn].
  assert (Im : In m (map N.of_nat (List.seq 1 12))) by (apply N_cases; simpl; lia).
  assert (Id : In d (map N.of_nat (List.seq 1 31))) by (apply N_cases; simpl; lia).
  clear Hm Hd. simpl in Im, Id.
  repeat (destruct Im as [<-|Im]; [|]); try contradiction;
    repeat (destruct Id as [<-|Id]; [|]); try contradiction;
    vm_compute; reflexivity.
Qed.
Lemma parse_date_of_iso (y m d : N) (t : text) :
  date_iso y m d = Some t -> parse_date t = Some t.
Proof.
  intros H.
  destruct (date_iso_parts y m d t H)
    as (a & b & c & e & m1 & m2 & d1 & d2 & Et & Hdig & Ey & Em & Ed).
  pose proof (date_iso_inv y m d t H) as (Hy & Hm & Hd & _).
  pose proof (days_in_month_le y m) as Hdm.
  assert (Ha : Chr.is_digit a = true) by (inversion Hdig; assumption).
  assert (Hd2 : Chr.is_digit d2 = true).
  { rewrite Forall_forall in Hdig. apply Hdig. simpl. tauto. }
  assert (Hstrip : strip t = t).
  { rewrite Et.
    change ([a; b; c; e] ++ "-"%char :: [m1; m2] ++ "-"%char :: [d1; d2])
      with (a :: [b; c; e; "-"%char; m1; m2; "-"%char; d1] ++ [d2]).
    apply strip_keeps; apply digit_not_space; assumption. }
  unfold parse_date. rewrite Hstrip.
  destruct t as [|x t']; [discriminate Et|]. rewrite Et.
  cbn [first_format date_formats]. unfold strptime_iso.
  rewrite <- Em, <- Ed.
  rewrite match_iso_format; [| |lia|lia].
  2:{ rewrite Forall_forall in Hdig |- *. intros z Hz. apply Hdig.
      simpl in Hz |- *. tauto. }
  rewrite Em, Ed. cbn [List.length app Nat.eqb Re.group].
  rewrite <- Ey, <- Em, <- Ed, !to_N_zfill. rewrite H.
  rewrite Ed, Et. reflexivity.
Qed.

(** X6: what [parse_date] returns is a calendar date in ISO form: ten
    characters that match [ISO_DATE_RE], a year from 1 to 9999, a month
    from 1 to 12 and a day that the month has. *)
Theorem parse_date_gives_iso_date (s t : text) :
  parse_date s = Some t ->
  Re.matches ISO_DATE_RE t = true /\ List.length t = 10 /\
  exists y m d,
    (1 <= y <= 9999)%N /\ (1 <= m <= 12)%N /\ (1 <= d <= days_in_month y m)%N /\
    t = zfill 4 (of_N y) +++ "-" +++ zfill 2 (of_N m) +++ "-" +++ zfill 2 (of_N d).
Proof.
  intros H. apply parse_date_inv in H as (y & m & d & H).
  destruct (date_iso_parts y m d t H)
    as (a & b & c & e & m1 & m2 & d1 & d2 & Et & Hdig & _).
  split; [rewrite Et; apply iso_shape_matches; exact Hdig|].
  split; [rewrite Et; reflexivity|].
  exists y, m, d. apply date_iso_inv in H. tauto.
Qed.

(** X7: a calendar date in ISO form parses to itself, so parsing a date
    that [parse_date] returned gives it back. *)
Theorem parse_date_round_trip (y m d : N) (t : text) :
  date_iso y m d = Some t ->
  parse_date t = Some t /\
  forall s, parse_date s = Some t -> parse_date t = parse_date s.
Proof.
  intros H. pose proof (parse_date_of_iso y m d t H) as Hp.
  split; [exact Hp|]. intros s Hs. rewrite Hs. exact Hp.
Qed.

(** ** Stored posts: names, lookup and writing *)

Lemma startswith_app (pre rest : text) : startswith pre (pre ++ rest) = true.
Proof.
  induction pre as [|c pre IH]; [reflexivity|].
  simpl. rewrite Ascii.eqb_refl. exact IH.
Qed.

Lemma endswith_app (pre suf : text) : endswith suf (pre ++ suf) = true.
Proof. unfold endswith. rewrite rev_app_distr. apply startswith_app. Qed.

Lemma startswith_spec (pre s : text) :
  startswith pre s = true <-> exists rest, s = pre ++ rest.
Proof.
  split.
  - revert s. induction pre as [|a pre IH]; intros s H; [exists s; reflexivity|].
    destruct s as [|c s]; [discriminate H|]. cbn [startswith] in H.
    apply andb_true_iff in H as [Ha H]. apply Ascii.eqb_eq in Ha. subst c.
    destruct (IH s H) as [rest ->]. exists rest. reflexivity.
  - intros [rest ->]. apply startswith_app.
Qed.

Lemma endswith_spec (suf s : text) :
  endswith suf s = true <-> exists pre, s = pre ++ suf.
Proof.
  unfold endswith. rewrite startswith_spec. split.
  - intros [rest H]. exists (rev rest).
    apply (f_equal (@rev ascii)) in H. rewrite rev_involutive, rev_app_distr in H.
    rewrite rev_involutive in H. exact H.
  - intros [pre ->]. exists (rev pre). apply rev_app_distr.
Qed.

Lemma endswith_shorter (a b s : text) :
  endswith (a ++ b) s = true -> endswith b s = true.
Proof.
  rewrite !endswith_spec. intros [pre ->]. exists (pre ++ a).
  rewrite <- app_assoc. reflexivity.
Qed.

(** A name that begins with an ISO date and a hyphen matches
    [DATE_PREFIX_RE]. *)
Lemma date_prefix_matches (y m d : N) (dt rest : text) :
  date_iso y m d = Some dt ->
  Re.matches DATE_PREFIX_RE (dt +++ "-" +++ rest) = true.
Proof.
  intros H.
  destruct (date_iso_parts y m d dt H)
    as (a & b & c & e & m1 & m2 & d1 & d2 & -> & Hdig & _).
  repeat match goal with
         | F : Forall _ (_ :: _) |- _ => apply Forall_cons_iff in F as [? F]
         end.
  unfold Re.matches, Re.match_, Re.match_at, DATE_PREFIX_RE, Re.exactly.
  cbn [Re.seq Re.rmatch Nat.eqb].
  change (([a; b; c; e] ++ "-"%char :: [m1; m2] ++ "-"%char :: [d1; d2]) +++ "-" +++ rest)
    with ([a; b; c; e] ++ "-"%char :: [m1; m2] ++ "-"%char :: [d1; d2] ++ "-"%char :: rest).
  rewrite (rep_exactly Chr.is_digit _ [] _ [a; b; c; e]) by (repeat constructor; assumption).
  rewrite rmatch_chr.
  rewrite (rep_exactly Chr.is_digit _ [] _ [m1; m2]) by (repeat constructor; assumption).
  rewrite rmatch_chr.
  rewrite (rep_exactly Chr.is_digit _ [] _ [d1; d2]) by (repeat constructor; assumption).
  rewrite rmatch_chr. reflexivity.
Qed.

Lemma post_name_qualifies (y m d : N) (dt slug : text) :
  date_iso y m d = Some dt ->
  endswith ("-" +++ slug +++ ".json") (post_file_name dt slug) &&
  Re.matches DATE_PREFIX_RE (post_file_name dt slug) = true.
Proof.
  intros H. unfold post_file_name.
  rewrite (endswith_app dt), (date_prefix_matches y m d dt _ H). reflexivity.
Qed.

Lemma longer_name_qualifies (y m d : N) (dt other slug : text) :
  date_iso y m d = Some dt ->
  endswith ("-" +++ slug +++ ".json") (post_file_name dt (other +++ "-" +++ slug)) &&
  Re.matches DATE_PREFIX_RE (post_file_name dt (other +++ "-" +++ slug)) = true.
Proof.
  intros H. unfold post_file_name.
  rewrite (date_prefix_matches y m d dt _ H), andb_true_r.
  replace (dt +++ "-" +++ (other +++ "-" +++ slug) +++ ".json")
    with ((dt +++ "-" +++ other) ++ ("-" +++ slug +++ ".json")).
  - apply endswith_app.
  - rewrite <- !app_assoc. reflexivity.
Qed.

Lemma find_existing_app (dir1 dir2 : store) (slug : text) :
  find_existing dir1 slug = None ->
  find_existing (dir1 ++ dir2) slug = find_existing dir2 slug.
Proof.
  induction dir1 as [|[n c] dir1 IH]; [reflexivity|].
  cbn [find_existing app].
  destruct (endswith ("-" +++ slug +++ ".json") n && Re.matches DATE_PREFIX_RE n);
    [discriminate|exact IH].
Qed.

Lemma find_existing_head (name slug : text) (c : option value) (dir : store) :
  endswith ("-" +++ slug +++ ".json") name && Re.matches DATE_PREFIX_RE name = true ->
  find_existing ((name, c) :: dir) slug = Some name.
Proof. intros H. cbn [find_existing]. rewrite H. reflexivity. Qed.

Lemma tmp_name_differs (name : text) :
  eqb (name +++ ".tmp") name = false /\ eqb name (name +++ ".tmp") = false.
Proof.
  split.
  - destruct (eqb (name +++ ".tmp") name) eqn:E; [|reflexivity].
    apply eqb_eq in E. apply (f_equal (@List.length ascii)) in E.
    rewrite length_app in E. cbn [List.length of_string list_ascii_of_string] in E. lia.
  - destruct (eqb name (name +++ ".tmp")) eqn:E; [|reflexivity].
    apply eqb_eq in E. apply (f_equal (@List.length ascii)) in E.
    rewrite length_app in E. cbn [List.length of_string list_ascii_of_string] in E. lia.
Qed.

Lemma file_content_put (dir : store) (name : text) (c : option value) :
  file_content (put_file dir name c) name = Some c.
Proof.
  induction dir as [|[n c'] dir IH]; cbn [put_file file_content].
  - rewrite eqb_refl. reflexivity.
  - destruct (eqb name n) eqn:E; cbn [file_content]; rewrite E; [reflexivity|exact IH].
Qed.

Lemma remove_put_same (dir : store) (name : text) (c : option value) :
  remove_file (put_file dir name c) name = remove_file dir name.
Proof.
  unfold remove_file.
  induction dir as [|[n c'] dir IH]; cbn [put_file filter fst].
  - rewrite eqb_refl. reflexivity.
  - destruct (eqb name n) eqn:E; cbn [filter fst]; rewrite E; cbn [negb];
      [reflexivity|rewrite IH; reflexivity].
Qed.

Lemma remove_put_other (dir : store) (n name : text) (c : option value) :
  eqb n name = false ->
  remove_file (put_file dir name c) n = put_file (remove_file dir n) name c.
Proof.
  intros Hn. unfold remove_file.
  induction dir as [|[m c'] dir IH]; cbn [put_file filter fst].
  - rewrite Hn. reflexivity.
  - destruct (eqb name m) eqn:E.
    + apply eqb_eq in E. subst m. cbn [filter fst]. rewrite Hn. cbn [negb put_file].
      rewrite eqb_refl. reflexivity.
    + cbn [filter fst]. destruct (eqb n m); cbn [negb put_file]; [exact IH|].
      rewrite E, IH. reflexivity.
Qed.

Lemma remove_twice (dir : store) (n : text) :
  remove_file (remove_file dir n) n = remove_file dir n.
Proof.
  unfold remove_file. induction dir as [|[m c] dir IH]; [reflexivity|].
  cbn [filter fst]. destruct (eqb n m) eqn:E; cbn [negb filter fst]; [exact IH|].
  rewrite E. cbn [negb]. rewrite IH. reflexivity.
Qed.

Lemma put_twice (dir : store) (name : text) (c : option value) :
  put_file (put_file dir name c) name c = put_file dir name c.
Proof.
  induction dir as [|[n c'] dir IH]; cbn [put_file].
  - rewrite eqb_refl. reflexivity.
  - destruct (eqb name n) eqn:E; cbn [put_file]; rewrite E; [reflexivity|].
    rewrite IH. reflexivity.
Qed.

(** What [write_json] comes to: the leftover temporary file of the name, if
    any, is gone, and the name holds the document. *)
Lemma write_json_eq (dir : store) (name : text) (v : value) :
  write_json dir name v = put_file (remove_file dir (name +++ ".tmp")) name (Some v).
Proof.
  unfold write_json, os_replace.
  rewrite file_content_put, remove_put_same. reflexivity.
Qed.

Lemma find_existing_remove (dir : store) (n slug : text) :
  find_existing dir slug = None -> find_existing (remove_file dir n) slug = None.
Proof.
  unfold remove_file. induction dir as [|[m c] dir IH]; intros H; [reflexivity|].
  cbn [find_existing] in H.
  destruct (endswith ("-" +++ slug +++ ".json") m && Re.matches DATE_PREFIX_RE m) eqn:Em;
    [discriminate H|].
  cbn [filter fst]. destruct (negb (eqb n m)); [|exact (IH H)].
  cbn [find_existing]. rewrite Em. exact (IH H).
Qed.

Lemma find_existing_put (dir : store) (name slug : text) (c : option value) :
  endswith ("-" +++ slug +++ ".json") name && Re.matches DATE_PREFIX_RE name = true ->
  find_existing dir slug = None ->
  find_existing (put_file dir name c) slug = Some name.
Proof.
  intros Hq. induction dir as [|[n c'] dir IH]; intros H.
  - apply find_existing_head. exact Hq.
  - cbn [find_existing] in H.
    destruct (endswith ("-" +++ slug +++ ".json") n && Re.matches DATE_PREFIX_RE n) eqn:En;
      [discriminate H|].
    cbn [put_file]. destruct (eqb name n) eqn:E.
    + apply eqb_eq in E. subst n. rewrite Hq in En. discriminate En.
    + cbn [find_existing]. rewrite En. exact (IH H).
Qed.

Lemma find_existing_write (dir : store) (name slug : text) (v : value) :
  endswith ("-" +++ slug +++ ".json") name && Re.matches DATE_PREFIX_RE name = true ->
  find_existing dir slug = None ->
  find_existing (write_json dir name v) slug = Some name.
Proof.
  intros Hq H. rewrite write_json_eq.
  apply find_existing_put; [exact Hq|]. apply find_existing_remove. exact H.
Qed.

Lemma read_json_put (dir : store) (name : text) (v : value) :
  read_json (put_file dir name (Some v)) name = Ret v.
Proof.
  induction dir as [|[n c] dir IH]; cbn [put_file read_json].
  - rewrite eqb_refl. reflexivity.
  - destruct (eqb name n) eqn:E; cbn [read_json]; rewrite E; [reflexivity|exact IH].
Qed.

Lemma read_json_write (dir : store) (name : text) (v : value) :
  read_json (write_json dir name v) name = Ret v.
Proof. rewrite write_json_eq. apply read_json_put. Qed.

Lemma write_json_twice (dir : store) (name : text) (v : value) :
  write_json (write_json dir name v) name v = write_json dir name v.
Proof.
  rewrite !write_json_eq.
  rewrite (remove_put_other _ _ _ _ (proj1 (tmp_name_differs name))).
  rewrite remove_twice, put_twice. reflexivity.
Qed.

(** X8: the lookup by slug takes a stored post of a longer slug for the
    post it looks for: where no earlier file qualifies, a file named
    [<date>-<other>-<slug>.json] is what [find_existing] returns for
    [<slug>]. *)
Theorem find_existing_takes_longer_slug (y m d : N) (dt other slug : text)
        (c : option value) (dir1 dir2 : store) :
  date_iso y m d = Some dt ->
  find_existing dir1 slug = None ->
  find_existing (dir1 ++ (post_file_name dt (other +++ "-" +++ slug), c) :: dir2) slug
  = Some (post_file_name dt (other +++ "-" +++ slug)).
Proof.
  intros H Hn. rewrite find_existing_app by exact Hn.
  apply find_existing_head. exact (longer_name_qualifies y m d dt other slug H).
Qed.

(** X9: a post written under the name that [write_post_json] builds from
    an ISO date and a slug is found by its slug afterwards, and read back
    as written, when no file of the directory qualified before. *)
Theorem written_post_is_found (y m d : N) (dt slug : text) (doc : value) (dir : store) :
  date_iso y m d = Some dt ->
  find_existing dir slug = None ->
  find_existing (write_json dir (post_file_name dt slug) doc) slug
    = Some (post_file_name dt slug) /\
  read_json (write_json dir (post_file_name dt slug) doc) (post_file_name dt slug)
    = Ret doc.
Proof.
  intros H Hn. split.
  - apply find_existing_write; [|exact Hn]. exact (post_name_qualifies y m d dt slug H).
  - apply read_json_write.
Qed.

(** ** The accepted document, field by field *)

Lemma normalize_doc_inv (ip : text -> bool) (src : Source) (r : dict) (now : text)
      (n : N) (since : option text) (doc : dict) (slug : text) :
  normalize_record ip src r now n since = Ret (Ok (doc, slug)) ->
  exists title link dl date_pub subtitle tags payload,
    resolved_title r = Ret title /\ title <> [] /\
    resolved_link ip src r = Ret link /\
    raw_deadline r = Ret dl /\
    resolved_date r now = Ret date_pub /\
    match since with
    | Some (c :: t) => ltb date_pub (c :: t)
    | _ => false
    end = false /\
    slug = slugify (slugify title) /\
    doc = [ ("id" : text, VStr (build_id date_pub slug n));
            ("type" : text, VStr (choose_type src));
            ("title" : text, VStr title);
            ("subtitle" : text, VStr subtitle);
            ("tags" : text, tags);
            ("date_published" : text, VStr date_pub);
            ("deadline" : text, VStr (text_or (parse_date dl) ""));
            ("last_checked_at" : text, VStr now);
            ("source_name" : text, VStr (text_or (src_sourceName src) (src_id src)));
            ("source_url" : text, VStr link);
            ("payload" : text, VDict payload) ] /\
    validate_common doc = Ret (Ok doc).
Proof.
  unfold normalize_record. intros H.
  bind_inv H. bind_inv H. bind_inv H.
  destruct (negb (nonempty t)) eqn:Ht; [discriminate H|].
  bind_inv H. bind_inv H. bind_inv H.
  match type of H with (if ?c then _ else _) = _ => destruct c eqn:Hs; [discriminate H|] end.
  bind_inv H. bind_inv H. bind_inv H. bind_inv H.
  destruct r0 as [d'|k]; [|discriminate H].
  injection H as Hd Hsl. subst d'.
  pose proof (validate_ok_same _ E8) as Hsame.
  assert (Hne : t <> []) by (destruct t; [discriminate Ht | discriminate]).
  assert (Hslug : slug = slugify (slugify t)).
  { rewrite <- Hsl, !make_slug_is_slugify.
    destruct (slugify t) eqn:Es; [exfalso; exact (slugify_nonempty t Es)|reflexivity]. }
  exists t, (text_or o0 ""), t1, (text_or o1 now), t2,
    (get_or match src_mapping src with Some m => m | None => [] end "tags"
            (if is_list (get r "tags") then get r "tags" else VList [])), d.
  split; [exact E|]. split; [exact Hne|]. split.
  { unfold resolved_link. rewrite E0. cbn [bind]. rewrite E1. cbn [bind].
    rewrite E2. reflexivity. }
  split; [exact E3|]. split.
  { unfold resolved_date. rewrite E4. reflexivity. }
  split; [exact Hs|]. split; [exact Hslug|].
  rewrite Hsl in Hsame, E8. split; [exact Hsame|].
  rewrite <- Hsame in E8. exact E8.
Qed.
(** What a document that passed [validate_common] satisfies. *)
Lemma validate_ok_inv (doc d : dict) :
  validate_common doc = Ret (Ok d) ->
  (forall k, In k COMMON_REQUIRED -> has doc k = true /\ blank (get doc k) = false) /\
  Re.matches ISO_DATE_RE (str (get doc "date_published")) = true /\
  Re.matches ISO_DATE_RE (str (get doc "last_checked_at")) = true /\
  (get doc "deadline" = VNone \/ eq_text (get doc "deadline") "" = true \/
   Re.matches ISO_DATE_RE (str (get doc "deadline")) = true) /\
  Re.matches HTTPS_RE (str (get doc "source_url")) = true /\
  existsb (eq_text (get doc "type")) TYPES = true.
Proof.
  unfold validate_common. intros H.
  destruct (existsb (fun k => negb (has doc k) || blank (get doc k)) COMMON_REQUIRED) eqn:E1;
    [discriminate H|].
  destruct (existsb (fun k => negb (Re.matches ISO_DATE_RE (str (get doc k))))
                    (texts ["date_published"; "last_checked_at"])) eqn:E2;
    [discriminate H|].
  match type of H with (if ?c then _ else _) = _ => destruct c eqn:E3; [discriminate H|] end.
  match type of H with (if ?c then _ else _) = _ => destruct c eqn:E4; [discriminate H|] end.
  match type of H with (if ?c then _ else _) = _ => destruct c eqn:E5; [discriminate H|] end.
  match type of H with (if ?c then _ else _) = _ => destruct c eqn:E6; [discriminate H|] end.
  clear H. split; [|split; [|split; [|split; [|split]]]].
  - intros k Hk.
    destruct (negb (has doc k) || blank (get doc k)) eqn:Ek.
    + exfalso.
      assert (Hx : existsb (fun k => negb (has doc k) || blank (get doc k)) COMMON_REQUIRED
                   = true).
      { apply existsb_exists. exists k. split; [exact Hk|exact Ek]. }
      rewrite E1 in Hx. discriminate Hx.
    + apply orb_false_iff in Ek as [Eh Eb]. apply negb_false_iff in Eh. auto.
  - cbn [existsb texts map] in E2. apply orb_false_iff in E2 as [E2 _].
    apply negb_false_iff in E2. exact E2.
  - cbn [existsb texts map] in E2. apply orb_false_iff in E2 as [_ E2].
    apply orb_false_iff in E2 as [E2 _]. apply negb_false_iff in E2. exact E2.
  - apply andb_false_iff in E3 as [E3|E3]; apply negb_false_iff in E3.
    + destruct (get doc "deadline"); auto.
    + auto.
  - apply negb_false_iff in E4. exact E4.
  - apply negb_false_iff in E6. exact E6.
Qed.

(** X10: the document of an accepted record has the eleven fields of the
    common schema, in their order; its id is built from its publish date
    and the sequence number; the publish date and the date of the run are
    ISO dates; the deadline is empty or an ISO date; the source URL begins
    with https://, in any case of the letters; the type is one of the six
    the schema names; and the publish date is not before a since date. *)
Theorem accepted_document_schema (ip : text -> bool) (src : Source) (r : dict)
        (now : text) (n : N) (since : option text) (doc : dict) (slug : text) :
  normalize_record ip src r now n since = Ret (Ok (doc, slug)) ->
  map fst doc =
    texts ["id"; "type"; "title"; "subtitle"; "tags"; "date_published"; "deadline";
           "last_checked_at"; "source_name"; "source_url"; "payload"] /\
  exists date_pub deadline link,
    get doc "id" = VStr (build_id date_pub slug n) /\
    get doc "date_published" = VStr date_pub /\
    Re.matches ISO_DATE_RE date_pub = true /\
    get doc "last_checked_at" = VStr now /\
    Re.matches ISO_DATE_RE now = true /\
    get doc "deadline" = VStr deadline /\
    (deadline = [] \/ Re.matches ISO_DATE_RE deadline = true) /\
    get doc "source_url" = VStr link /\
    Re.matches HTTPS_RE link = true /\
    get doc "type" = VStr (choose_type src) /\
    In (choose_type src) TYPES /\
    (forall s, since = Some s -> s <> [] -> ltb date_pub s = false).
Proof.
  intros H.
  destruct (normalize_doc_inv ip src r now n since doc slug H)
    as (title & link & dl & date_pub & subtitle & tags & payload &
        _ & _ & _ & _ & _ & Hsince & _ & Hdoc & Hv).
  apply validate_ok_inv in Hv as (_ & Hdp & Hlc & Hdl & Hurl & Hty).
  rewrite Hdoc in Hdp, Hlc, Hdl, Hurl, Hty |- *.
  split; [reflexivity|].
  exists date_pub, (text_or (parse_date dl) ""), link.
  split; [reflexivity|]. split; [reflexivity|]. split; [exact Hdp|].
  split; [reflexivity|]. split; [exact Hlc|]. split; [reflexivity|]. split.
  { destruct Hdl as [Hdl|[Hdl|Hdl]]; [discriminate Hdl| |right; exact Hdl].
    left. change (get _ "deadline") with (VStr (text_or (parse_date dl) "")) in Hdl.
    cbn [eq_text] in Hdl. apply eqb_eq in Hdl. exact Hdl. }
  split; [reflexivity|]. split; [exact Hurl|]. split; [reflexivity|]. split.
  { change (get _ "type") with (VStr (choose_type src)) in Hty.
    apply existsb_exists in Hty as (x & Hin & Hx).
    cbn [eq_text] in Hx. apply eqb_eq in Hx. rewrite Hx. exact Hin. }
  intros s -> Hs. destruct s as [|c s]; [contradiction|]. exact Hsince.
Qed.

(** ** A record met again *)

Lemma existsb_false {A : Type} (f : A -> bool) (l : list A) :
  (forall x, In x l -> f x = false) -> existsb f l = false.
Proof.
  intros H. induction l as [|x l IH]; [reflexivity|].
  simpl. rewrite (H x (or_introl eq_refl)). apply IH.
  intros y Hy. apply H. right. exact Hy.
Qed.

(** The checks of [validate_common], passed one by one, give [Ok]. *)
Lemma validate_ok_intro (doc : dict) :
  (forall k, In k COMMON_REQUIRED -> has doc k = true /\ blank (get doc k) = false) ->
  Re.matches ISO_DATE_RE (str (get doc "date_published")) = true ->
  Re.matches ISO_DATE_RE (str (get doc "last_checked_at")) = true ->
  (get doc "deadline" = VNone \/ eq_text (get doc "deadline") "" = true \/
   Re.matches ISO_DATE_RE (str (get doc "deadline")) = true) ->
  Re.matches HTTPS_RE (str (get doc "source_url")) = true ->
  hashable (get doc "type") = true ->
  existsb (eq_text (get doc "type")) TYPES = true ->
  validate_common doc = Ret (Ok doc).
Proof.
  intros Hreq Hdp Hlc Hdl Hurl Hh Hty. unfold validate_common.
  rewrite (existsb_false (fun k => negb (has doc k) || blank (get doc k)) COMMON_REQUIRED).
  2:{ intros k Hk. destruct (Hreq k Hk) as [-> ->]. reflexivity. }
  cbn [existsb texts map]. rewrite Hdp, Hlc. cbn [negb orb].
  replace (negb match get doc "deadline" with
                | VNone => true
                | v => eq_text v ""
                end
           && negb (Re.matches ISO_DATE_RE (str (get doc "deadline")))) with false.
  2:{ destruct Hdl as [Hdl|[Hdl|Hdl]].
      - rewrite Hdl. reflexivity.
      - destruct (get doc "deadline"); try reflexivity; cbn [eq_text] in Hdl |- *;
          try discriminate Hdl; rewrite Hdl; reflexivity.
      - rewrite Hdl, andb_false_r. reflexivity. }
  rewrite Hurl, Hh, Hty. reflexivity.
Qed.

Lemma blank_build_id (d s : text) (n : N) : blank (VStr (build_id d s n)) = false.
Proof.
  unfold blank, build_id, strip, strip_by.
  change (lstrip_by Chr.is_space ("ime-" +++ d +++ "-" +++ zfill 4 (of_N n)))
    with ("i"%char :: "me-" +++ d +++ "-" +++ zfill 4 (of_N n)).
  destruct (rstrip_keeps_head Chr.is_space "i"%char
              ("me-" +++ d +++ "-" +++ zfill 4 (of_N n)) eq_refl) as (t & ->).
  reflexivity.
Qed.

(** The publish date a record resolves to is an ISO date when the date of
    the run is. *)
Lemma resolved_date_iso (r : dict) (now dp : text) (y m d : N) :
  date_iso y m d = Some now ->
  resolved_date r now = Ret dp ->
  exists y' m' d', date_iso y' m' d' = Some dp.
Proof.
  intros Hnow H. unfold resolved_date in H. bind_inv H. injection H as <-.
  unfold parse_date_of in E.
  destruct (get r "date_published" ||| get r "published" ||| get r "created" ||| VStr now)
    as [| | |s| |];
    try (match type of E with (if ?c then _ else _) = _ => destruct c end;
         [discriminate E|injection E as <-; cbn [text_or]; eauto]).
  injection E as <-. destruct (parse_date s) as [[|c t]|] eqn:Ep; cbn [text_or]; eauto.
  exact (parse_date_inv s (c :: t) Ep).
Qed.

(** The same record normalized with another sequence number: it is accepted
    with the same slug, and refreshing the stored document of the first
    time with the document of the second gives the stored document back. *)
Lemma normalize_other_seq (ip : text -> bool) (src : Source) (r : dict) (now : text)
      (n n' : N) (since : option text) (doc : dict) (slug : text) :
  normalize_record ip src r now n since = Ret (Ok (doc, slug)) ->
  exists date_pub doc',
    resolved_date r now = Ret date_pub /\
    get doc "date_published" = VStr date_pub /\
    normalize_record ip src r now n' since = Ret (Ok (doc', slug)) /\
    forall dir name,
      read_json dir name = Ret (VDict doc) ->
      refreshed dir name now doc' = Ret doc.
Proof.
  unfold normalize_record. intros H.
  bind_inv H. bind_inv H. bind_inv H.
  destruct (negb (nonempty t)) eqn:Hnt; [discriminate H|].
  bind_inv H. bind_inv H. bind_inv H.
  match type of H with (if ?c then _ else _) = _ => destruct c eqn:Hs; [discriminate H|] end.
  bind_inv H. bind_inv H. bind_inv H. bind_inv H.
  destruct r0 as [d'|k]; [|discriminate H].
  injection H as Hd' Hsl.
  pose proof (validate_ok_same _ E8) as Hsame. subst d'.
  rewrite Hsl in Hsame, E8.
  exists (text_or o1 now). eexists. split.
  { unfold resolved_date. rewrite ?E4. reflexivity. }
  split; [rewrite Hsame; reflexivity|].
  assert (Hr : forall doc' dir name,
             tl doc' = tl doc -> map fst doc' = map fst doc ->
             read_json dir name = Ret (VDict doc) ->
             refreshed dir name now doc' = Ret doc).
  { intros doc' dir name Htl Hk Hread. unfold refreshed. rewrite Hread. cbn [bind].
    rewrite Hsame in Htl, Hk |- *.
    destruct doc' as [|[k0 v0] tl']; [discriminate Hk|].
    cbn [tl] in Htl. subst tl'. cbn [map fst] in Hk. injection Hk as ->.
    change (get (_ :: _) "deadline") with (VStr (text_or (parse_date t1) "")).
    destruct (text_or (parse_date t1) "") eqn:Edl; reflexivity. }
  refine ((fun X => conj (proj1 X) (fun dir name => Hr _ dir name (proj1 (proj2 X)) (proj2 (proj2 X)))) _).
  rewrite Hsame. cbn [tl map fst].
  cbn [bind]. rewrite ?E1. cbn [bind]. rewrite ?Hnt. rewrite ?E2. cbn [bind].
  rewrite ?E3, ?E4. cbn [bind]. rewrite ?Hs. rewrite ?E5. cbn [bind].
  rewrite ?E6. cbn [bind]. rewrite ?E7. cbn [bind]. rewrite ?Hsl.
  rewrite <- Hsame in E8. rename E8 into Hv. rename Hsame into Hdoc.
  rewrite validate_ok_intro; [cbn [tl map fst]; repeat split; reflexivity|..].
  all: rewrite Hdoc in Hv; apply validate_ok_inv in Hv as (Hreq & Hdp & Hlc & Hdl' & Hurl & Hty).
  - intros k Hk. specialize (Hreq k Hk).
    cbn [COMMON_REQUIRED texts map In] in Hk.
    destruct Hk as [<-|Hk]; [split; [reflexivity|apply blank_build_id]|].
    repeat (destruct Hk as [<-|Hk]; [exact Hreq|]). contradiction.
  - exact Hdp.
  - exact Hlc.
  - exact Hdl'.
  - exact Hurl.
  - reflexivity.
  - exact Hty.
Qed.
(** X11: on a run dated by a calendar date and not a dry run, a record
    that has just been written as a new post (its processing used a
    sequence number) is, when it is met again, merged into that post: no
    file changes, no sequence number is used, nothing is added to the
    failure sink, and the record counts as written once more. *)
Theorem reobserved_record_is_merged (ip : text -> bool) (args : Args) (src : Source)
        (now : text) (since : option text) (st st1 : State) (r : dict) (y m d : N) :
  date_iso y m d = Some now ->
  arg_dry_run args = false ->
  process_record ip args src now since st r = Ret st1 ->
  seq st1 = (seq st + 1)%N ->
  exists st2,
    process_record ip args src now since st1 r = Ret st2 /\
    files st2 = files st1 /\ seq st2 = seq st1 /\
    total_written st2 = (total_written st1 + 1)%Z /\ sink st2 = sink st1.
Proof.
  intros Hnow Hdry H1 Hseq. unfold process_record in H1. bind_inv H1.
  destruct r0 as [[doc slug]|k].
  - destruct (find_existing (files st) slug) as [existing|] eqn:Hf.
    + exfalso. destruct (refreshed (files st) existing now doc);
        injection H1 as <-; cbn [seq log_failure] in Hseq; lia.
    + injection H1 as <-. cbn [seq] in Hseq. clear Hseq.
      destruct (normalize_other_seq ip src r now (seq st) (seq st + 1) since doc slug E)
        as (dp & doc' & Hd & Hg & Hn' & Hr).
      destruct (resolved_date_iso r now dp y m d Hnow Hd) as (y' & m' & d' & Hiso).
      cbn [of_string list_ascii_of_string] in Hg |- *.
      rewrite Hdry, Hg. cbn [str].
      unfold process_record. cbn [seq files total_written any_partial_fail sink events].
      rewrite Hn'. cbn [bind].
      rewrite (find_existing_write (files st) (post_file_name dp slug) slug (VDict doc)
                 (post_name_qualifies y' m' d' dp slug Hiso) Hf).
      rewrite (Hr _ _ (read_json_write (files st) (post_file_name dp slug) (VDict doc))).
      rewrite Hdry, write_json_twice.
      eexists. split; [reflexivity|]. repeat split.
  - exfalso. destruct (Kind_eqb k SinceFilter); injection H1 as <-;
      cbn [seq log_failure] in Hseq; lia.
Qed.

(** ** The run, step by step *)

(** The error kinds of [normalize_record]. *)
Lemma normalize_err_kinds (ip : text -> bool) (src : Source) (r : dict) (now : text)
      (n : N) (since : option text) (k : Kind) :
  normalize_record ip src r now n since = Ret (Err k) ->
  k = Normalize \/ k = SinceFilter \/ k = Validate.
Proof.
  unfold normalize_record. intros H.
  bind_inv H. bind_inv H. bind_inv H.
  destruct (negb (nonempty t)); [injection H as <-; auto|].
  bind_inv H. bind_inv H. bind_inv H.
  match type of H with (if ?c then _ else _) = _ => destruct c end;
    [injection H as <-; auto|].
  bind_inv H. bind_inv H. bind_inv H. bind_inv H.
  destruct r0 as [d'|k']; [discriminate H|]. injection H as <-.
  right. right. unfold validate_common in E8.
  repeat match type of E8 with
         | (if ?c then _ else _) = _ => destruct c; [try discriminate E8; try (injection E8 as <-; reflexivity)|]
         end.
  discriminate E8.
Qed.

(** What one turn of the record loop does to the state: nothing, a line in
    the failure sink, the refresh of a stored file, or a new file. *)
Lemma process_record_cases (ip : text -> bool) (args : Args) (src : Source) (now : text)
      (since : option text) (st st' : State) (r : dict) :
  process_record ip args src now since st r = Ret st' ->
  st' = st \/
  (exists k, (k = Normalize \/ k = Validate \/ k = WriteError) /\
             st' = log_failure st (src_id src) k) \/
  (exists existing cur,
      In existing (map fst (files st)) /\ endswith ".json" existing = true /\
      st' = mkState (seq st) (total_written st + 1) (any_partial_fail st)
                    (if arg_dry_run args then files st
                     else write_json (files st) existing cur)
                    (sink st) (events st)) \/
  (exists name doc,
      endswith ".json" name = true /\
      st' = mkState (seq st + 1) (total_written st + 1) (any_partial_fail st)
                    (if arg_dry_run args then files st
                     else write_json (files st) name doc)
                    (sink st) (events st)).
Proof.
  unfold process_record. intros H. bind_inv H.
  destruct r0 as [[doc slug]|k].
  - destruct (find_existing (files st) slug) as [existing|] eqn:Hf.
    + destruct (refreshed (files st) existing now doc) as [cur|e].
      * injection H as <-. right. right. left. exists existing, (VDict cur).
        split; [|split; [|reflexivity]].
        -- clear -Hf. induction (files st) as [|[n c] d IH]; [discriminate Hf|].
           cbn [find_existing] in Hf. cbn [map fst In].
           destruct (endswith ("-" +++ slug +++ ".json") n && Re.matches DATE_PREFIX_RE n).
           ++ injection Hf as ->. left. reflexivity.
           ++ right. exact (IH Hf).
        -- clear -Hf. induction (files st) as [|[n c] d IH]; [discriminate Hf|].
           cbn [find_existing] in Hf.
           destruct (endswith ("-" +++ slug +++ ".json") n && Re.matches DATE_PREFIX_RE n)
             eqn:En; [|exact (IH Hf)].
           injection Hf as ->. apply andb_true_iff in En as [En _].
           exact (endswith_shorter ("-" +++ slug) ".json" existing En).
      * injection H as <-. right. left. exists WriteError. auto.
    + injection H as <-. right. right. right.
      exists (post_file_name (str (get doc "date_published")) slug), (VDict doc).
      split; [|reflexivity]. unfold post_file_name.
      apply endswith_spec. exists (str (get doc "date_published") +++ "-" +++ slug).
      rewrite <- !app_assoc. reflexivity.
  - destruct (normalize_err_kinds ip src r now (seq st) since k E) as [-> | [-> | ->]];
      cbn [Kind_eqb] in H; injection H as <-.
    + right. left. exists Normalize. auto.
    + left. reflexivity.
    + right. left. exists Validate. auto.
Qed.

(** What [collect_from_source] does to the state: the visit of the source
    with a fetch or source-type failure logged, a parser's exception or the
    records; or nothing at all, where the wait raised. *)
Lemma collect_cases (w : World) (src : Source) (max_items : Z) (st : State) :
  let visited := log_events st (visit w src) in
  (exists k, (k = FetchError \/ k = UnsupportedSource) /\
             collect_from_source w src max_items st
             = (log_failure visited (src_id src) k, Ret ([], 1%Z))) \/
  (exists e, collect_from_source w src max_items st = (visited, Raise e)) \/
  (exists parsed, collect_from_source w src max_items st
                  = (visited, Ret (slice_to max_items parsed, 0%Z))) \/
  (exists e, waited w src = Raise e /\
             collect_from_source w src max_items st = (st, Raise e)).
Proof.
  intros visited. rewrite collect_waited. subst visited. unfold visit.
  destruct (waited w src) as [ms|e0].
  2:{ right. right. right. exists e0. auto. }
  unfold fetch_and_parse.
  destruct (fetch w (src_url src)) as [raw|].
  2:{ left. exists FetchError. auto. }
  destruct (eqb (src_type src) "rss").
  { destruct (parse_rss w raw) as [recs|e]; right; [right; left|left]; eauto. }
  destruct (eqb (src_type src) "html").
  { destruct (parse_html w raw _) as [recs|e]; right; [right; left|left]; eauto. }
  destruct (eqb (src_type src) "api").
  { right. right. left. eauto. }
  left. exists UnsupportedSource. auto.
Qed.

(** A relation between states that every step of the run keeps holds
    between the state a run starts from and the state it ends in. *)
Section RunInvariant.

Variable ip : text -> bool.
Variable w : World.
Variable args : Args.
Variable now : text.
Variable since : option text.
Variable P : State -> State -> Prop.

Hypothesis P_refl : forall st, P st st.
Hypothesis P_trans : forall a b c, P a b -> P b c -> P a c.
Hypothesis P_record :
  forall src st r st',
    process_record ip args src now since st r = Ret st' -> P st st'.
Hypothesis P_collected :
  forall src st st1 recs e,
    collect_from_source w src (arg_max_per_source args) st = (st1, Ret (recs, e)) ->
    P st (flag_failure st1 (negb (e =? 0)%Z)).
Hypothesis P_raised :
  forall src st st1 e,
    collect_from_source w src (arg_max_per_source args) st = (st1, Raise e) ->
    P st (flag_failure (log_failure st1 (src_id src) SourceError) true).

Lemma process_records_inv (src : Source) (recs : list dict) :
  forall st st',
    process_records ip args src now since st recs = Ret st' -> P st st'.
Proof.
  induction recs as [|r recs IH]; intros st st' H; cbn [process_records] in H.
  - injection H as <-. apply P_refl.
  - destruct (arg_limit args <=? total_written st)%Z.
    + injection H as <-. apply P_refl.
    + bind_inv H. apply P_trans with s; [exact (P_record _ _ _ _ E)|exact (IH _ _ H)].
Qed.

Lemma run_sources_inv (sources : list Source) :
  forall st st',
    run_sources ip w args now since st sources = Ret st' -> P st st'.
Proof.
  induction sources as [|src sources IH]; intros st st' H; cbn [run_sources] in H.
  - injection H as <-. apply P_refl.
  - destruct (arg_limit args <=? total_written st)%Z.
    + injection H as <-. apply P_refl.
    + destruct (collect_from_source w src (arg_max_per_source args) st)
        as [st1 [[recs e]|e]] eqn:Ec.
      * bind_inv H.
        apply P_trans with (flag_failure st1 (negb (e =? 0)%Z));
          [exact (P_collected _ _ _ _ _ Ec)|].
        apply P_trans with s; [exact (process_records_inv _ _ _ _ E)|exact (IH _ _ H)].
      * apply P_trans with (flag_failure (log_failure st1 (src_id src) SourceError) true);
          [exact (P_raised _ _ _ _ Ec)|exact (IH _ _ H)].
Qed.

Lemma process_records_upto_inv (src : Source) (recs : list dict) :
  forall st, P st (fst (process_records_upto ip args src now since st recs)).
Proof.
  induction recs as [|r recs IH]; intros st; cbn [process_records_upto].
  - apply P_refl.
  - destruct (arg_limit args <=? total_written st)%Z; [apply P_refl|].
    destruct (process_record ip args src now since st r) as [st'|e] eqn:E.
    + apply P_trans with st'; [exact (P_record _ _ _ _ E)|apply IH].
    + apply P_refl.
Qed.

Lemma run_sources_upto_inv (sources : list Source) :
  forall st, P st (fst (run_sources_upto ip w args now since st sources)).
Proof.
  induction sources as [|src sources IH]; intros st; cbn [run_sources_upto].
  - apply P_refl.
  - destruct (arg_limit args <=? total_written st)%Z; [apply P_refl|].
    destruct (collect_from_source w src (arg_max_per_source args) st)
      as [st1 [[recs e]|e]] eqn:Ec.
    + pose proof (process_records_upto_inv src recs (flag_failure st1 (negb (e =? 0)%Z)))
        as Hp.
      destruct (process_records_upto ip args src now since _ recs) as [st2 [e'|]];
        cbn [fst] in Hp |- *.
      * apply P_trans with (flag_failure st1 (negb (e =? 0)%Z));
          [exact (P_collected _ _ _ _ _ Ec)|exact Hp].
      * apply P_trans with (flag_failure st1 (negb (e =? 0)%Z));
          [exact (P_collected _ _ _ _ _ Ec)|].
        apply P_trans with st2; [exact Hp|apply IH].
    + apply P_trans with (flag_failure (log_failure st1 (src_id src) SourceError) true);
        [exact (P_raised _ _ _ _ Ec)|apply IH].
Qed.

End RunInvariant.

(** The loops that give the state agree with the loops of the run. *)
Lemma process_records_upto_eq (ip : text -> bool) (args : Args) (src : Source)
      (now : text) (since : option text) (recs : list dict) :
  forall st,
    process_records ip args src now since st recs =
    match process_records_upto ip args src now since st recs with
    | (st', None) => Ret st'
    | (_, Some e) => Raise e
    end.
Proof.
  induction recs as [|r recs IH]; intros st;
    cbn [process_records process_records_upto]; [reflexivity|].
  destruct (arg_limit args <=? total_written st)%Z; [reflexivity|].
  destruct (process_record ip args src now since st r) as [st'|e]; cbn [bind];
    [apply IH|reflexivity].
Qed.

Lemma run_sources_upto_eq (ip : text -> bool) (w : World) (args : Args) (now : text)
      (since : option text) (sources : list Source) :
  forall st,
    run_sources ip w args now since st sources =
    match run_sources_upto ip w args now since st sources with
    | (st', None) => Ret st'
    | (_, Some e) => Raise e
    end.
Proof.
  induction sources as [|src sources IH]; intros st;
    cbn [run_sources run_sources_upto]; [reflexivity|].
  destruct (arg_limit args <=? total_written st)%Z; [reflexivity|].
  destruct (collect_from_source w src (arg_max_per_source args) st)
    as [st1 [[recs e]|e]]; [|apply IH].
  rewrite process_records_upto_eq.
  destruct (process_records_upto ip args src now since _ recs) as [st2 [e'|]];
    cbn [bind]; [reflexivity|apply IH].
Qed.

(** [main] returns the exit status and the state that [main_upto] gives,
    and raises what it gives. *)
Lemma main_upto_eq (ip : text -> bool) (w : World) (args : Args)
      (load : Result (list Source)) (out_dir : store) :
  main ip w args load out_dir =
  match snd (main_upto ip w args load out_dir) with
  | Ret code => Ret (code, final_state ip w args load out_dir)
  | Raise e => Raise e
  end.
Proof.
  unfold final_state, main, main_upto.
  match goal with |- (if ?c then _ else _) = _ => destruct c end; [reflexivity|].
  destruct load as [sources|k]; [|reflexivity].
  cbv zeta. rewrite run_sources_upto_eq.
  match goal with
  | |- context [run_sources_upto ?a ?b ?c ?d ?e ?f ?g] =>
      destruct (run_sources_upto a b c d e f g) as [st [e'|]]
  end; reflexivity.
Qed.

Lemma main_final_state (ip : text -> bool) (w : World) (args : Args)
      (load : Result (list Source)) (out_dir : store) (code : Z) (st : State) :
  main ip w args load out_dir = Ret (code, st) ->
  st = final_state ip w args load out_dir.
Proof.
  rewrite main_upto_eq.
  destruct (snd (main_upto ip w args load out_dir)); [|discriminate].
  intros H. injection H as _ <-. reflexivity.
Qed.

(** What [main] returns: status 3 with the state untouched (or with the
    load error logged), or the end of the source loop with status 2 or 0. *)
Lemma main_cases (ip : text -> bool) (w : World) (args : Args)
      (load : Result (list Source)) (out_dir : store) (code : Z) (st : State) :
  main ip w args load out_dir = Ret (code, st) ->
  (code = 3%Z /\ arg_since args <> [] /\ Re.matches ISO_DATE_RE (arg_since args) = false /\
   st = initial out_dir) \/
  (code = 3%Z /\ exists k, load = Err k /\ st = log_failure (initial out_dir) [] k) \/
  (exists sources,
      load = Ok sources /\
      run_sources ip w args (today w)
                  (match arg_since args with [] => None | s => Some s end)
                  (log_events (initial out_dir) [Makedirs])
                  (match only_ids (arg_sources args) with
                   | [] => sources
                   | _ => filter (fun s => text_in (src_id s) (only_ids (arg_sources args)))
                                 sources
                   end) = Ret st /\
      code = (if any_partial_fail st then 2%Z else 0%Z)).
Proof.
  unfold main. intros H.
  destruct (arg_since args) as [|c s] eqn:Es.
  - destruct load as [sources|k].
    + cbv zeta in H. bind_inv H. injection H as <- <-. right. right. exists sources. auto.
    + injection H as <- <-. right. left. eauto.
  - destruct (negb (Re.matches ISO_DATE_RE (c :: s))) eqn:Em.
    + injection H as <- <-. left. apply negb_true_iff in Em.
      split; [reflexivity|]. split; [discriminate|]. auto.
    + destruct load as [sources|k].
      * cbv zeta in H. bind_inv H. injection H as <- <-. right. right. exists sources. auto.
      * injection H as <- <-. right. left. eauto.
Qed.

(** Where [main] ends: with status 3 and the state untouched (or the load
    error logged), or where the source loop ends, after [os.makedirs]. *)
Lemma main_upto_cases (ip : text -> bool) (w : World) (args : Args)
      (load : Result (list Source)) (out_dir : store) :
  (main_upto ip w args load out_dir = (initial out_dir, Ret 3%Z)) \/
  (exists k, main_upto ip w args load out_dir
             = (log_failure (initial out_dir) [] k, Ret 3%Z)) \/
  (exists sources,
      load = Ok sources /\
      final_state ip w args load out_dir =
        fst (run_sources_upto ip w args (today w)
                              (match arg_since args with [] => None | s => Some s end)
                              (log_events (initial out_dir) [Makedirs])
                              (selected args sources)) /\
      snd (main_upto ip w args load out_dir) <> Ret 3%Z).
Proof.
  unfold final_state, main_upto, selected.
  match goal with |- ((if ?c then _ else _) = _) \/ _ => destruct c end;
    [left; reflexivity|].
  destruct load as [sources|k]; [|right; left; eauto].
  right. right. exists sources. split; [reflexivity|]. cbv zeta.
  match goal with |- _ = fst ?B /\ _ => set (x := B) end.
  repeat match goal with
         | |- context [match ?R with (_, _) => _ end] =>
             progress change R with x
         end.
  destruct x as [st [e'|]]; cbn [fst snd]; split; try reflexivity; try discriminate.
  destruct (any_partial_fail st); discriminate.
Qed.

Lemma process_records_upto_keep_events (ip : text -> bool) (args : Args) (src : Source)
      (now : text) (since : option text) (recs : list dict) (st : State) :
  events (fst (process_records_upto ip args src now since st recs)) = events st.
Proof.
  apply (process_records_upto_inv ip args now since (fun a b => events b = events a)).
  - reflexivity.
  - intros a b c Hab Hbc. rewrite Hbc. exact Hab.
  - intros src0 s r s' Hr.
    destruct (process_record_cases ip args src0 now since s s' r Hr)
      as [->|[(k & _ & ->)|[(ex & cur & _ & _ & ->)|(name & doc & _ & ->)]]]; reflexivity.
Qed.

Lemma collect_events (w : World) (src : Source) (max_items : Z) (st st1 : State)
      (res : exc (list dict * Z)) :
  collect_from_source w src max_items st = (st1, res) ->
  events st1 = events st ++ visit w src.
Proof.
  intros Hc.
  destruct (collect_cases w src max_items st)
    as [(k & _ & Hk)|[(e' & Hk)|[(parsed & Hk)|(e' & Hw & Hk)]]];
    rewrite Hk in Hc; injection Hc as <- _; try reflexivity.
  unfold visit. rewrite Hw, app_nil_r. reflexivity.
Qed.

(** The events of the source loop: the visits of an initial part of the
    sources. *)
Lemma run_sources_upto_events (ip : text -> bool) (w : World) (args : Args) (now : text)
      (since : option text) (sources : list Source) :
  forall st,
    exists k, events (fst (run_sources_upto ip w args now since st sources))
              = events st ++ flat_map (visit w) (firstn k sources).
Proof.
  induction sources as [|src sources IH]; intros st; cbn [run_sources_upto].
  - exists 0. cbn. rewrite app_nil_r. reflexivity.
  - destruct (arg_limit args <=? total_written st)%Z.
    + exists 0. cbn. rewrite app_nil_r. reflexivity.
    + destruct (collect_from_source w src (arg_max_per_source args) st)
        as [st1 [[recs e]|e]] eqn:Ec; apply collect_events in Ec.
      * pose proof (process_records_upto_keep_events ip args src now since recs
                      (flag_failure st1 (negb (e =? 0)%Z))) as Hp.
        destruct (process_records_upto ip args src now since _ recs) as [st2 [e'|]];
          cbn [fst] in Hp |- *.
        -- exists 1. cbn [firstn flat_map]. rewrite app_nil_r, Hp.
           cbn [events flag_failure]. exact Ec.
        -- destruct (IH st2) as [k Hk]. exists (S k).
           rewrite Hk, Hp. cbn [events flag_failure firstn flat_map].
           rewrite Ec, <- app_assoc. reflexivity.
      * destruct (IH (flag_failure (log_failure st1 (src_id src) SourceError) true))
          as [k Hk]. exists (S k).
        rewrite Hk. cbn [events flag_failure log_failure firstn flat_map].
        rewrite Ec, <- app_assoc. reflexivity.
Qed.

Lemma visits_make_no_directory (w : World) (l : list Source) :
  ~ In Makedirs (flat_map (visit w) l).
Proof.
  intros H. apply in_flat_map in H as (src & _ & H). unfold visit in H.
  destruct (waited w src); cbn [In] in H;
    [destruct H as [H|[H|[]]]; discriminate H|contradiction].
Qed.

(** X12: a dry run creates, changes and removes no file of the output
    directory, whether the run returns or ends in an exception; what it
    does to the directory is the one call of [os.makedirs], which it makes
    unless it ends with status 3 before. *)
Theorem dry_run_writes_nothing (ip : text -> bool) (w : World) (args : Args)
        (load : Result (list Source)) (out_dir : store) :
  arg_dry_run args = true ->
  let st := final_state ip w args load out_dir in
  (forall code st', main ip w args load out_dir = Ret (code, st') -> st' = st) /\
  files st = out_dir /\
  ((snd (main_upto ip w args load out_dir) = Ret 3%Z /\ events st = []) \/
   (snd (main_upto ip w args load out_dir) <> Ret 3%Z /\
    exists es, events st = Makedirs :: es /\ ~ In Makedirs es)).
Proof.
  intros Hdry st. split; [intros code st'; apply main_final_state|].
  subst st.
  destruct (main_upto_cases ip w args load out_dir)
    as [H|[(k & H)|(sources & _ & H & Hcode)]].
  - unfold final_state. rewrite H. split; [reflexivity|]. left. split; reflexivity.
  - unfold final_state. rewrite H. split; [reflexivity|]. left. split; reflexivity.
  - rewrite H. split.
    + change out_dir with (files (log_events (initial out_dir) [Makedirs])) at 2.
      apply (run_sources_upto_inv ip w args (today w) _ (fun a b => files b = files a)).
      * reflexivity.
      * intros a b c Hab Hbc. rewrite Hbc. exact Hab.
      * intros src s r s' Hr.
        destruct (process_record_cases ip args src (today w) _ s s' r Hr)
          as [->|[(k & _ & ->)|[(ex & cur & _ & _ & ->)|(name & doc & _ & ->)]]];
          cbn [files log_failure]; try rewrite Hdry; reflexivity.
      * intros src s s1 recs e Hc.
        destruct (collect_cases w src (arg_max_per_source args) s)
          as [(k & _ & Hk)|[(e' & Hk)|[(parsed & Hk)|(e' & _ & Hk)]]];
          rewrite Hk in Hc; injection Hc as <-; reflexivity.
      * intros src s s1 e Hc.
        destruct (collect_cases w src (arg_max_per_source args) s)
          as [(k & _ & Hk)|[(e' & Hk)|[(parsed & Hk)|(e' & _ & Hk)]]];
          rewrite Hk in Hc; injection Hc as <-; reflexivity.
    + right. split; [exact Hcode|].
      destruct (run_sources_upto_events ip w args (today w)
                  (match arg_since args with [] => None | s => Some s end)
                  (selected args sources) (log_events (initial out_dir) [Makedirs]))
        as [k Hk].
      rewrite Hk. cbn [events log_events initial app]. eexists. split; [reflexivity|].
      apply visits_make_no_directory.
Qed.

Lemma logged_log_failure (st : State) (s : text) (k : Kind) :
  logged (log_failure st s k) = logged st ++ [k].
Proof. unfold logged, log_failure. cbn [sink]. rewrite map_app. reflexivity. Qed.

(** The flag is up exactly when a source-level failure is in the sink, and
    the sink holds source-level and record-level failures only. *)
Lemma run_keeps_flag_and_sink (ip : text -> bool) (w : World) (args : Args) (now : text)
      (since : option text) (sources : list Source) (st st' : State) :
  run_sources ip w args now since st sources = Ret st' ->
  any_partial_fail st = existsb source_level (logged st) /\
  forallb (fun k => source_level k || record_level k) (logged st) = true ->
  any_partial_fail st' = existsb source_level (logged st') /\
  forallb (fun k => source_level k || record_level k) (logged st') = true.
Proof.
  apply (run_sources_inv ip w args now since
           (fun a b =>
              any_partial_fail a = existsb source_level (logged a) /\
              forallb (fun k => source_level k || record_level k) (logged a) = true ->
              any_partial_fail b = existsb source_level (logged b) /\
              forallb (fun k => source_level k || record_level k) (logged b) = true)).
  - auto.
  - auto.
  - intros src s r s' Hr [Hf Hs].
    destruct (process_record_cases ip args src now since s s' r Hr)
      as [->|[(k & Hk & ->)|[(ex & cur & _ & _ & ->)|(name & doc & _ & ->)]]];
      try (split; assumption).
    rewrite logged_log_failure, existsb_app, forallb_app, Hs, <- Hf.
    cbn [any_partial_fail log_failure existsb forallb].
    destruct Hk as [-> | [-> | ->]]; cbn; rewrite orb_false_r; auto.
  - intros src s s1 recs e Hc [Hf Hs].
    destruct (collect_cases w src (arg_max_per_source args) s)
      as [(k & Hk & Ek)|[(e' & Ek)|[(parsed & Ek)|(e' & _ & Ek)]]];
      rewrite Ek in Hc; try discriminate Hc; injection Hc as <- <- <-.
    + change (logged (flag_failure _ _))
        with (logged (log_failure s (src_id src) k)).
      rewrite logged_log_failure, existsb_app, forallb_app, Hs, <- Hf.
      cbn [any_partial_fail flag_failure log_failure log_events].
      destruct Hk as [->| ->]; cbn; rewrite !orb_true_r; auto.
    + cbn [any_partial_fail flag_failure log_events Z.eqb negb].
      rewrite orb_false_r. split; assumption.
  - intros src s s1 e Hc [Hf Hs].
    assert (Hl : logged (flag_failure (log_failure s1 (src_id src) SourceError) true)
                 = logged s ++ [SourceError]).
    { destruct (collect_cases w src (arg_max_per_source args) s)
        as [(k & Hk & Ek)|[(e' & Ek)|[(parsed & Ek)|(e' & _ & Ek)]]];
        rewrite Ek in Hc; try discriminate Hc; injection Hc as <- <-;
        exact (logged_log_failure s (src_id src) SourceError). }
    rewrite Hl, existsb_app, forallb_app, Hs.
    cbn. rewrite !orb_true_r. auto.
Qed.

Lemma no_source_level (l : list Kind) :
  existsb source_level l = false ->
  forallb (fun k => source_level k || record_level k) l = true ->
  forallb record_level l = true.
Proof.
  induction l as [|k l IH]; [reflexivity|]. cbn [existsb forallb].
  intros H1 H2. apply orb_false_iff in H1 as [Hk H1].
  apply andb_true_iff in H2 as [Hk' H2]. rewrite Hk in Hk'. cbn [orb] in Hk'.
  rewrite Hk', (IH H1 H2). reflexivity.
Qed.

(** X13: the exit status of a run that returns is 3, 2 or 0.  It is 3
    when the since date is not an ISO date or the sources could not be
    loaded, and then nothing was fetched or written.  Otherwise it is 2
    when a source-level failure (FetchError, UnsupportedSource,
    SourceError) is in the failure sink, and 0 when every failure in the
    sink is the failure of one record (Normalize, Validate, WriteError). *)
Theorem exit_status_tells_source_failures (ip : text -> bool) (w : World) (args : Args)
        (load : Result (list Source)) (out_dir : store) (code : Z) (st : State) :
  main ip w args load out_dir = Ret (code, st) ->
  (code = 3%Z /\
   ((arg_since args <> [] /\ Re.matches ISO_DATE_RE (arg_since args) = false) \/
    exists k, load = Err k) /\
   events st = [] /\ files st = out_dir /\ total_written st = 0%Z) \/
  (code = 2%Z /\ existsb source_level (logged st) = true) \/
  (code = 0%Z /\ forallb record_level (logged st) = true).
Proof.
  intros H.
  destruct (main_cases ip w args load out_dir code st H)
    as [(-> & Hs & Hm & ->)|[(-> & k & Hl & ->)|(sources & _ & Hrun & ->)]].
  - left. repeat split; auto.
  - left. repeat split; eauto.
  - right.
    destruct (run_keeps_flag_and_sink ip w args _ _ _ _ _ Hrun) as [Hf Hk];
      [split; reflexivity|].
    destruct (any_partial_fail st).
    + left. auto.
    + right. split; [reflexivity|]. apply no_source_level; auto.
Qed.

Lemma put_file_names (dir : store) (name n : text) (c : option value) :
  In n (map fst dir) -> In n (map fst (put_file dir name c)).
Proof.
  induction dir as [|[m c'] dir IH]; [contradiction|].
  cbn [put_file map fst In]. destruct (eqb name m); cbn [map fst In]; [tauto|].
  intros [H|H]; [left; exact H|right; exact (IH H)].
Qed.

Lemma put_file_length (dir : store) (name : text) (c : option value) :
  List.length (put_file dir name c) <= S (List.length dir) /\
  (In name (map fst dir) -> List.length (put_file dir name c) = List.length dir).
Proof.
  induction dir as [|[m c'] dir [IH1 IH2]]; cbn [put_file].
  - split; [cbn; lia|contradiction].
  - destruct (eqb name m) eqn:E; cbn [List.length map fst In].
    + split; [lia|reflexivity].
    + split; [lia|]. intros [H|H].
      * subst m. rewrite eqb_refl in E. discriminate E.
      * rewrite (IH2 H). reflexivity.
Qed.

Lemma remove_file_names (dir : store) (name n : text) :
  In n (map fst dir) -> n <> name -> In n (map fst (remove_file dir name)).
Proof.
  unfold remove_file. intros Hin Hne.
  apply in_map_iff in Hin as ([m c] & <- & Hin). apply in_map_iff.
  exists (m, c). split; [reflexivity|]. apply filter_In. split; [exact Hin|].
  cbn [fst] in *. destruct (eqb name m) eqn:E; [|reflexivity].
  apply eqb_eq in E. subst m. contradiction.
Qed.

Lemma remove_file_length (dir : store) (name : text) :
  List.length (remove_file dir name) <= List.length dir.
Proof. unfold remove_file. apply filter_length_le. Qed.

(** A write leaves every name but the temporary one of the written name
    in the directory, and adds at most one file; none where the written
    name was there. *)
Lemma write_json_keeps (dir : store) (name : text) (v : value) :
  (forall n, In n (map fst dir) -> n <> name +++ ".tmp" ->
             In n (map fst (write_json dir name v))) /\
  List.length (write_json dir name v) <= S (List.length dir) /\
  (In name (map fst dir) -> List.length (write_json dir name v) <= List.length dir).
Proof.
  rewrite write_json_eq. split; [|split].
  - intros n Hin Hne. apply put_file_names. apply remove_file_names; assumption.
  - pose proof (proj1 (put_file_length (remove_file dir (name +++ ".tmp")) name (Some v))).
    pose proof (remove_file_length dir (name +++ ".tmp")). lia.
  - intros Hin.
    rewrite (proj2 (put_file_length (remove_file dir (name +++ ".tmp")) name (Some v))).
    + apply remove_file_length.
    + apply remove_file_names; [exact Hin|].
      intros E. pose proof (proj2 (tmp_name_differs name)) as Hd.
      rewrite <- E, eqb_refl in Hd. discriminate Hd.
Qed.

Lemma leftover_of_post (name : text) :
  endswith ".json" name = true -> leftover (name +++ ".tmp") = true.
Proof.
  unfold leftover. rewrite !endswith_spec. intros [pre ->]. exists pre.
  rewrite <- app_assoc. reflexivity.
Qed.

(** X14: a run loses no file of the output directory but leftover
    temporary files (names ending in [.json.tmp]), whether it returns or
    ends in an exception; and it adds at most as many files as it used
    sequence numbers, which is at most the count of records it reports as
    written. *)
Theorem run_only_adds_files (ip : text -> bool) (w : World) (args : Args)
        (load : Result (list Source)) (out_dir : store) :
  let st := final_state ip w args load out_dir in
  (forall code st', main ip w args load out_dir = Ret (code, st') -> st' = st) /\
  (forall name, In name (map fst out_dir) -> leftover name = false ->
                In name (map fst (files st))) /\
  (N.of_nat (List.length (files st)) + 1 <= N.of_nat (List.length out_dir) + seq st)%N /\
  (Z.of_N (seq st) - 1 <= total_written st)%Z.
Proof.
  intros st. split; [intros code st'; apply main_final_state|].
  subst st.
  destruct (main_upto_cases ip w args load out_dir)
    as [H|[(k & H)|(sources & _ & H & _)]].
  - unfold final_state. rewrite H. cbn. split; [auto|]. split; lia.
  - unfold final_state. rewrite H. cbn. split; [auto|]. split; lia.
  - rewrite H. clear H.
    assert (Hrel :
      let a := log_events (initial out_dir) [Makedirs] in
      let b := fst (run_sources_upto ip w args (today w)
                      (match arg_since args with [] => None | s => Some s end)
                      a (selected args sources)) in
      (forall name, In name (map fst (files a)) -> leftover name = false ->
                    In name (map fst (files b))) /\
      (N.of_nat (List.length (files b)) + seq a
       <= N.of_nat (List.length (files a)) + seq b)%N /\
      (Z.of_N (seq b) - Z.of_N (seq a) <= total_written b - total_written a)%Z).
    2:{ cbv zeta in Hrel. cbn [files seq total_written log_events initial] in Hrel.
        destruct Hrel as (Hn & Hs & Ht). split; [exact Hn|]. split; lia. }
    cbv zeta.
    apply (run_sources_upto_inv ip w args (today w) _
             (fun a b =>
                (forall name, In name (map fst (files a)) -> leftover name = false ->
                              In name (map fst (files b))) /\
                (N.of_nat (List.length (files b)) + seq a
                 <= N.of_nat (List.length (files a)) + seq b)%N /\
                (Z.of_N (seq b) - Z.of_N (seq a)
                 <= total_written b - total_written a)%Z)).
    + intros a. split; [auto|]. split; lia.
    + intros a b c (Hab1 & Hab2 & Hab3) (Hbc1 & Hbc2 & Hbc3).
      split; [auto|]. split; lia.
    + intros src s r s' Hr.
      destruct (process_record_cases ip args src (today w) _ s s' r Hr)
        as [->|[(k & _ & ->)|[(ex & cur & Hin & Hex & ->)|(name & doc & Hname & ->)]]].
      * split; [auto|]. split; lia.
      * cbn [files log_failure seq total_written]. split; [auto|]. split; lia.
      * cbn [files seq total_written].
        destruct (arg_dry_run args); [split; [auto|split; lia]|].
        destruct (write_json_keeps (files s) ex cur) as (Hk & _ & Hl).
        split; [|split; [specialize (Hl Hin); lia|lia]].
        intros n Hn Hleft. apply Hk; [exact Hn|].
        intros ->. rewrite (leftover_of_post ex Hex) in Hleft. discriminate Hleft.
      * cbn [files seq total_written].
        destruct (arg_dry_run args); [split; [auto|split; lia]|].
        destruct (write_json_keeps (files s) name doc) as (Hk & Hl & _).
        split; [|split; lia].
        intros n Hn Hleft. apply Hk; [exact Hn|].
        intros ->. rewrite (leftover_of_post name Hname) in Hleft. discriminate Hleft.
    + intros src s s1 recs e Hc.
      destruct (collect_cases w src (arg_max_per_source args) s)
        as [(k & _ & Hk)|[(e' & Hk)|[(parsed & Hk)|(e' & _ & Hk)]]];
        rewrite Hk in Hc; injection Hc as <-;
        cbn [files seq total_written flag_failure log_failure log_events];
        (split; [auto|split; lia]).
    + intros src s s1 e Hc.
      destruct (collect_cases w src (arg_max_per_source args) s)
        as [(k & _ & Hk)|[(e' & Hk)|[(parsed & Hk)|(e' & _ & Hk)]]];
        rewrite Hk in Hc; injection Hc as <-;
        cbn [files seq total_written flag_failure log_failure log_events];
        (split; [auto|split; lia]).
Qed.


(** ** The global item cap, for every run *)






Lemma process_records_total (ip : text -> bool) (args : Args) (src : Source)
      (now : text) (since : option text) (recs : list dict) :
  forall st st',
    process_records ip args src now since st recs = Ret st' ->
    (total_written st <= total_written st'
     <= total_written st + Z.of_nat (List.length recs))%Z.
Proof.
  induction recs as [|r recs IH]; intros st st' H; cbn [process_records] in H.
  - injection H as <-. cbn [List.length]. lia.
  - destruct (arg_limit args <=? total_written st)%Z.
    + injection H as <-. lia.
    + bind_inv H. apply IH in H.
      apply (@process_record_total ip args) in E.
      cbn [List.length]. lia.
Qed.

Lemma slice_to_length {A : Type} (n : Z) (l : list A) :
  (0 <= n)%Z -> (Z.of_nat (List.length (slice_to n l)) <= n)%Z.
Proof.
  intros H. unfold slice_to. apply Z.leb_le in H. rewrite H.
  apply Z.leb_le in H. pose proof (firstn_le_length (Z.to_nat n) l).
  rewrite length_firstn. lia.
Qed.

(** X17: with a cap per source that is not negative, one source hands at
    most that many records to the record loop, and its records raise the
    count of written records by at most the cap. *)
Theorem per_source_cap (ip : text -> bool) (w : World) (args : Args) (src : Source)
        (now : text) (since : option text) (st st1 st2 : State) (recs : list dict)
        (e : Z) (b : bool) :
  (0 <= arg_max_per_source args)%Z ->
  collect_from_source w src (arg_max_per_source args) st = (st1, Ret (recs, e)) ->
  process_records ip args src now since (flag_failure st1 b) recs = Ret st2 ->
  (Z.of_nat (List.length recs) <= arg_max_per_source args)%Z /\
  (total_written st <= total_written st2
   <= total_written st + arg_max_per_source args)%Z.
Proof.
  intros Hmax Hc Hp.
  assert (Hlen : (Z.of_nat (List.length recs) <= arg_max_per_source args)%Z).
  { destruct (collect_cases w src (arg_max_per_source args) st)
      as [(k & _ & Hk)|[(e' & Hk)|[(parsed & Hk)|(e' & _ & Hk)]]];
      rewrite Hk in Hc; [|discriminate Hc| |discriminate Hc]; injection Hc as _ <- _.
    - cbn [List.length]. lia.
    - apply slice_to_length. exact Hmax. }
  split; [exact Hlen|].
  apply process_records_total in Hp. cbn [total_written flag_failure] in Hp.
  pose proof (@collect_total w src (arg_max_per_source args) st) as Ht.
  rewrite Hc in Ht. cbn [fst] in Ht. lia.
Qed.

(** X16: a record whose title is neither text nor falsy (a number, a
    list, a dictionary, the truth) makes [normalize_record] raise
    AttributeError, and the run with it: when such a record is the first
    one a source hands over, the source loop raises and the sources after
    it are never visited. *)
Theorem nontext_title_aborts_run (ip : text -> bool) (w : World) (args : Args)
        (src : Source) (now : text) (since : option text) (st st1 : State)
        (r : dict) (recs : list dict) (e : Z) (sources : list Source) (v : value) :
  get r "title" = v -> truthy v = true -> (forall s, v <> VStr s) ->
  (total_written st < arg_limit args)%Z ->
  collect_from_source w src (arg_max_per_source args) st = (st1, Ret (r :: recs, e)) ->
  (forall n, normalize_record ip src r now n since = Raise "AttributeError") /\
  run_sources ip w args now since st (src :: sources) = Raise "AttributeError".
Proof.
  intros Hg Ht Hv Hlim Hc.
  assert (Hn : forall n, normalize_record ip src r now n since = Raise "AttributeError").
  { intros n. unfold normalize_record. rewrite Hg.
    unfold por. rewrite Ht. cbv iota. rewrite Ht. cbv iota.
    destruct v as [|b|z|s|l|d]; try reflexivity. exfalso. exact (Hv s eq_refl). }
  split; [exact Hn|].
  cbn [run_sources]. apply Z.leb_gt in Hlim. rewrite Hlim, Hc.
  cbn [process_records total_written flag_failure].
  pose proof (@collect_total w src (arg_max_per_source args) st) as Htot.
  rewrite Hc in Htot. cbn [fst] in Htot. rewrite Htot, Hlim.
  unfold process_record. rewrite Hn. reflexivity.
Qed.

(** ** The update of a stored post *)

(** X18: when the slug of an accepted record finds a stored file that
    holds a JSON object, the run (not a dry run) rewrites that file and
    nothing else: [last_checked_at] becomes the date of the run, [deadline]
    becomes the new deadline when the record has one, and every other
    field of the stored object, its id, its title and its publish date
    among them, stays as it was; no sequence number is used. *)
Theorem update_keeps_stored_fields (ip : text -> bool) (args : Args) (src : Source)
        (now : text) (since : option text) (st : State) (r : dict) (doc : dict)
        (slug existing : text) (cur : dict) :
  arg_dry_run args = false ->
  normalize_record ip src r now (seq st) since = Ret (Ok (doc, slug)) ->
  find_existing (files st) slug = Some existing ->
  read_json (files st) existing = Ret (VDict cur) ->
  exists cur',
    process_record ip args src now since st r
    = Ret (mkState (seq st) (total_written st + 1) (any_partial_fail st)
                   (write_json (files st) existing (VDict cur'))
                   (sink st) (events st)) /\
    read_json (write_json (files st) existing (VDict cur')) existing = Ret (VDict cur') /\
    get cur' "last_checked_at" = VStr now /\
    get cur' "deadline" =
      (if truthy (get doc "deadline") then get doc "deadline" else get cur "deadline") /\
    (forall q, eqb q "last_checked_at" = false -> eqb q "deadline" = false ->
               get cur' q = get cur q).
Proof.
  intros Hdry Hn Hf Hr.
  assert (Hcur : exists cur', refreshed (files st) existing now doc = Ret cur').
  { unfold refreshed. rewrite Hr. cbn [bind]. unfold por.
    destruct (truthy (VDict cur)); eexists; reflexivity. }
  destruct Hcur as [cur' Hc]. exists cur'.
  split.
  { unfold process_record. rewrite Hn. cbn [bind]. rewrite Hf, Hc, Hdry. reflexivity. }
  split; [apply read_json_write|].
  exact (refreshed_frame (files st) existing now doc Hr Hc).
Qed.

(** ** Documents that fail validation *)

(** X19: a document that lacks one of the eight required fields, or
    holds only blanks in one of them, is rejected with the kind Validate,
    whatever its other fields hold. *)
Theorem validate_rejects_incomplete (doc : dict) (k : text) :
  In k COMMON_REQUIRED ->
  has doc k = false \/ (exists s, get doc k = VStr s /\ strip s = []) ->
  validate_common doc = Ret (Err Validate).
Proof.
  intros Hk H. unfold validate_common.
  assert (Hx : existsb (fun k => negb (has doc k) || blank (get doc k)) COMMON_REQUIRED
               = true).
  { apply existsb_exists. exists k. split; [exact Hk|].
    destruct H as [H|(s & Hs & Hb)].
    - rewrite H. reflexivity.
    - rewrite Hs. cbn [blank]. rewrite Hb. apply orb_true_r. }
  rewrite Hx. reflexivity.
Qed.

(** ** The order of ISO dates *)

Lemma to_N_step_digit (acc : N) (c : ascii) :
  Chr.is_digit c = true -> to_N_step acc c = (10 * acc + (N_of_ascii c - 48))%N.
Proof. intros H. unfold to_N_step. rewrite H. reflexivity. Qed.

Lemma fold_digits (a : text) :
  Forall (fun c => Chr.is_digit c = true) a ->
  forall acc,
    fold_left to_N_step a acc
    = (acc * 10 ^ N.of_nat (List.length a) + fold_left to_N_step a 0)%N.
Proof.
  induction 1 as [|c a Hc Ha IH]; intros acc.
  - cbn. lia.
  - cbn [fold_left List.length]. rewrite IH, (IH (to_N_step 0 c)).
    rewrite !(to_N_step_digit _ c Hc).
    rewrite Nnat.Nat2N.inj_succ, N.pow_succ_r'. lia.
Qed.

Lemma to_N_digits_bound (a : text) :
  Forall (fun c => Chr.is_digit c = true) a ->
  (to_N a < 10 ^ N.of_nat (List.length a))%N.
Proof.
  rewrite to_N_fold. induction 1 as [|c a Hc Ha IH].
  - cbn. lia.
  - cbn [fold_left List.length]. rewrite (fold_digits a Ha (to_N_step 0 c)).
    rewrite (to_N_step_digit 0 c Hc).
    rewrite Nnat.Nat2N.inj_succ, N.pow_succ_r'.
    assert (Hd : (N_of_ascii c - 48 <= 9)%N).
    { unfold Chr.is_digit, Chr.between, Chr.code, nat_of_ascii in Hc.
      apply andb_true_iff in Hc as [H1 H2]. apply Nat.leb_le in H1, H2. lia. }
    set (v := (N_of_ascii c - 48)%N) in *.
    set (t := fold_left to_N_step a 0%N) in *.
    set (p := (10 ^ N.of_nat (List.length a))%N) in *.
    replace (10 * 0 + v)%N with v by lia. nia.
Qed.

Lemma digit_code_order (x y : ascii) :
  Chr.is_digit x = true -> Chr.is_digit y = true ->
  (Chr.code x <? Chr.code y) = (N_of_ascii x - 48 <? N_of_ascii y - 48)%N.
Proof.
  unfold Chr.is_digit, Chr.between, Chr.code, nat_of_ascii. intros Hx Hy.
  apply andb_true_iff in Hx as [H1 H2]. apply andb_true_iff in Hy as [H3 H4].
  apply Nat.leb_le in H1, H2, H3, H4.
  destruct (N.to_nat (N_of_ascii x) <? N.to_nat (N_of_ascii y)) eqn:E.
  - apply Nat.ltb_lt in E. symmetry. apply N.ltb_lt. lia.
  - apply Nat.ltb_ge in E. symmetry. apply N.ltb_ge. lia.
Qed.

Lemma cmp_places (vx vy ta tb p : N) :
  (ta < p)%N -> (tb < p)%N ->
  (vx * p + ta <? vy * p + tb)%N =
  if (vx <? vy)%N then true else if (vy <? vx)%N then false else (ta <? tb)%N.
Proof.
  intros Ha Hb.
  destruct (N.ltb_spec vx vy), (N.ltb_spec vy vx); try lia.
  - apply N.ltb_lt. nia.
  - apply N.ltb_ge. nia.
  - assert (vx = vy) by lia. subst vy.
    destruct (N.ltb_spec ta tb); [apply N.ltb_lt|apply N.ltb_ge]; lia.
Qed.

(** Texts that begin with as many digits each compare as the numbers the
    digits spell, and as what follows when the numbers are equal. *)
Lemma ltb_digits (a : text) :
  Forall (fun c => Chr.is_digit c = true) a ->
  forall b r r',
    Forall (fun c => Chr.is_digit c = true) b ->
    List.length a = List.length b ->
    ltb (a ++ r) (b ++ r') =
    if (to_N a <? to_N b)%N then true
    else if (to_N b <? to_N a)%N then false
    else ltb r r'.
Proof.
  induction 1 as [|x a Hx Ha IH]; intros b r r' Hb Hl.
  - destruct b; [|discriminate Hl]. reflexivity.
  - destruct b as [|y b]; [discriminate Hl|].
    apply Forall_cons_iff in Hb as [Hy Hb]. injection Hl as Hl.
    cbn [app ltb]. rewrite (IH b r r' Hb Hl).
    rewrite !(digit_code_order _ _ Hx Hy), !(digit_code_order _ _ Hy Hx).
    rewrite !to_N_fold. cbn [fold_left].
    rewrite (fold_digits a Ha (to_N_step 0 x)), (fold_digits b Hb (to_N_step 0 y)).
    rewrite (to_N_step_digit 0 x Hx), (to_N_step_digit 0 y Hy), Hl.
    pose proof (to_N_digits_bound a Ha) as Ba.
    pose proof (to_N_digits_bound b Hb) as Bb.
    rewrite to_N_fold, Hl in Ba. rewrite to_N_fold in Bb.
    set (vx := (N_of_ascii x - 48)%N). set (vy := (N_of_ascii y - 48)%N).
    set (ta := fold_left to_N_step a 0%N) in *.
    set (tb := fold_left to_N_step b 0%N) in *.
    set (p := (10 ^ N.of_nat (List.length b))%N) in *.
    replace (10 * 0 + vx)%N with vx by lia. replace (10 * 0 + vy)%N with vy by lia.
    rewrite (cmp_places vx vy ta tb p Ba Bb), (cmp_places vy vx tb ta p Bb Ba).
    destruct (vx <? vy)%N, (vy <? vx)%N, (ta <? tb)%N, (tb <? ta)%N; reflexivity.
Qed.

Lemma ltb_same_head (c : ascii) (r r' : text) : ltb (c :: r) (c :: r') = ltb r r'.
Proof. cbn [ltb]. rewrite Nat.ltb_irrefl. reflexivity. Qed.

(** X20: on calendar dates in ISO form, the comparison of texts that the
    since filter uses is the order of the dates: one ISO date is less than
    another, as text, exactly when it is the earlier day. *)
Theorem iso_order_is_chronological (y m d y' m' d' : N) (a b : text) :
  date_iso y m d = Some a -> date_iso y' m' d' = Some b ->
  (ltb a b = true <->
   (y < y' \/ (y = y' /\ (m < m' \/ (m = m' /\ d < d'))))%N).
Proof.
  intros Ha Hb.
  destruct (date_iso_parts y m d a Ha)
    as (a1 & a2 & a3 & a4 & m1 & m2 & d1 & d2 & -> & Hda & Ey & Em & Ed).
  destruct (date_iso_parts y' m' d' b Hb)
    as (b1 & b2 & b3 & b4 & n1 & n2 & e1 & e2 & -> & Hdb & Ey' & Em' & Ed').
  assert (Fa : forall z, In z [a1; a2; a3; a4; m1; m2; d1; d2] -> Chr.is_digit z = true)
    by (apply Forall_forall; exact Hda).
  assert (Fb : forall z, In z [b1; b2; b3; b4; n1; n2; e1; e2] -> Chr.is_digit z = true)
    by (apply Forall_forall; exact Hdb).
  rewrite (ltb_digits [a1; a2; a3; a4]); try reflexivity;
    try (apply Forall_forall; intros z Hz; cbn in Hz;
         first [apply Fa; cbn; tauto | apply Fb; cbn; tauto]).
  rewrite ltb_same_head.
  rewrite (ltb_digits [m1; m2]); try reflexivity;
    try (apply Forall_forall; intros z Hz; cbn in Hz;
         first [apply Fa; cbn; tauto | apply Fb; cbn; tauto]).
  rewrite ltb_same_head.
  rewrite <- (app_nil_r [d1; d2]), <- (app_nil_r [e1; e2]).
  rewrite (ltb_digits [d1; d2]); try reflexivity;
    try (apply Forall_forall; intros z Hz; cbn in Hz;
         first [apply Fa; cbn; tauto | apply Fb; cbn; tauto]).
  rewrite <- Ey, <- Em, <- Ed, <- Ey', <- Em', <- Ed', !to_N_zfill.
  cbn [ltb].
  destruct (N.ltb_spec y y'), (N.ltb_spec y' y), (N.ltb_spec m m'), (N.ltb_spec m' m),
    (N.ltb_spec d d'), (N.ltb_spec d' d);
    split; intros Hgoal; try discriminate Hgoal; try reflexivity; try lia.
Qed.

(** ** Text that holds no date *)

(** Where no text of the pattern occurs, a search finds nothing. *)
Lemma search_free (r : Re.regex) :
  Re.plain r = true ->
  forall s pos,
    (forall w, occurs w s -> ~ Re.lang r w) ->
    Re.search_from r pos s = None.
Proof.
  intros Hpl s. induction s as [|c s IH]; intros pos Hfree; cbn [Re.search_from].
  - destruct (Re.match_at r pos []) as [[e cs]|] eqn:E; [|reflexivity].
    apply (ReLang.match_at_sound r pos [] Hpl) in E as (w & rest & Hs & Hl & _).
    exfalso. apply (Hfree w); [|exact Hl]. exists [], rest. exact Hs.
  - destruct (Re.match_at r pos (c :: s)) as [[e cs]|] eqn:E.
    + apply (ReLang.match_at_sound r pos (c :: s) Hpl) in E as (w & rest & Hs & Hl & _).
      exfalso. apply (Hfree w); [|exact Hl]. exists [], rest. exact Hs.
    + apply IH. intros w Hw. apply Hfree. apply occurs_tail. exact Hw.
Qed.

Lemma between_digit (lo hi : nat) (c : ascii) :
  48 <= lo -> hi <= 57 -> Chr.between lo hi c = true -> Chr.is_digit c = true.
Proof.
  unfold Chr.is_digit, Chr.between. intros Hlo Hhi H.
  apply andb_true_iff in H as [H1 H2]. apply Nat.leb_le in H1, H2.
  apply andb_true_iff. split; apply Nat.leb_le; lia.
Qed.

(** Every text a date format matches holds the four digits of a year, and
    every text the scan pattern matches holds digits. *)
Lemma dir_Y_must : Re.must (fun c => Chr.is_digit c = true) dir_Y.
Proof. cbn. left. auto. Qed.

Lemma date_formats_facts :
  Forall (fun f => Re.plain f = true /\ Re.must (fun c => Chr.is_digit c = true) f)
         date_formats.
Proof.
  pose proof dir_Y_must as HY.
  unfold date_formats.
  repeat (apply Forall_cons; [split; [reflexivity|cbn [Re.seq Re.must]; tauto]|]).
  apply Forall_nil.
Qed.

Lemma date_scan_facts :
  Re.plain DATE_SCAN_RE = true /\ Re.must (fun c => Chr.is_digit c = true) DATE_SCAN_RE.
Proof.
  split; [reflexivity|]. cbn. left. split; right; split; auto.
Qed.

Lemma digitless_part (w s : text) :
  Forall (fun c => Chr.is_digit c = false) s -> occurs w s ->
  ~ Exists (fun c => Chr.is_digit c = true) w.
Proof.
  intros Hs (pre & post & ->) Hw.
  apply Forall_app in Hs as [_ Hs]. apply Forall_app in Hs as [Hs _].
  apply Exists_exists in Hw as (c & Hin & Hc).
  rewrite Forall_forall in Hs. rewrite (Hs c Hin) in Hc. discriminate Hc.
Qed.

Lemma strip_part (p : ascii -> bool) (s : text) : occurs (strip_by p s) s.
Proof.
  unfold strip_by.
  destruct (lstrip_suffix p s) as (pre & Hs & _).
  destruct (rstrip_prefix p (lstrip_by p s)) as (suf & Hl & _).
  exists pre, suf. rewrite <- Hl. exact Hs.
Qed.

(** X21: a text without a digit is no date: [parse_date] returns [None]
    for it, the empty text and texts of blanks included. *)
Theorem parse_date_needs_digits (s : text) :
  Forall (fun c => Chr.is_digit c = false) s -> parse_date s = None.
Proof.
  intros Hs. unfold parse_date. destruct s as [|c s]; [reflexivity|].
  set (t := strip (c :: s)).
  assert (Ht : Forall (fun c => Chr.is_digit c = false) t).
  { destruct (strip_part Chr.is_space (c :: s)) as (pre & post & E).
    fold (strip (c :: s)) in E. fold t in E. rewrite E in Hs.
    apply Forall_app in Hs as [_ Hs]. apply Forall_app in Hs as [Hs _]. exact Hs. }
  assert (Hfree : forall r,
             Re.plain r = true -> Re.must (fun c => Chr.is_digit c = true) r ->
             forall w, occurs w t -> ~ Re.lang r w).
  { intros r Hpl Hm w Hw Hl.
    exact (digitless_part w t Ht Hw (ReLang.lang_must _ r Hm w Hl)). }
  assert (Hfmt : first_format date_formats t = None).
  { pose proof date_formats_facts as Hf.
    induction Hf as [|f fmts [Hpl Hm] _ IH]; [reflexivity|].
    cbn [first_format]. unfold strptime_iso.
    destruct (Re.match_ f t) as [[e cs]|] eqn:E; [|exact IH].
    exfalso. unfold Re.match_ in E.
    apply (ReLang.match_at_sound f 0 t Hpl) in E as (w & rest & Hw & Hl & _).
    apply (Hfree f Hpl Hm w); [|exact Hl]. exists [], rest. exact Hw. }
  rewrite Hfmt. unfold Re.search.
  rewrite (search_free DATE_SCAN_RE (proj1 date_scan_facts) t 0
             (Hfree _ (proj1 date_scan_facts) (proj2 date_scan_facts))).
  reflexivity.
Qed.

(** ** Loading the sources *)

Lemma sources_of_ok (l : list value) (srcs : list RawSource) :
  sources_of l = Ok srcs <-> map source_of l = map Some srcs.
Proof.
  revert srcs. induction l as [|s l IH]; intros srcs; cbn [sources_of map].
  - split.
    + intros H. injection H as <-. reflexivity.
    + destruct srcs; [reflexivity|discriminate].
  - destruct (source_of s) as [src|].
    + destruct (sources_of l) as [srcs'|k].
      * split.
        -- intros H. injection H as <-. cbn [map]. f_equal. apply IH. reflexivity.
        -- destruct srcs as [|x srcs]; [discriminate|]. cbn [map]. intros H.
           injection H as -> H. apply IH in H. injection H as ->. reflexivity.
      * split; [discriminate|].
        destruct srcs as [|x srcs]; [discriminate|]. cbn [map]. intros H.
        injection H as _ H. apply IH in H. discriminate H.
    + split; [discriminate|]. destruct srcs; discriminate.
Qed.

Lemma sources_of_err (l : list value) (k : Kind) :
  sources_of l = Err k -> k = ConfigInvalid.
Proof.
  induction l as [|s l IH]; cbn [sources_of]; [discriminate|].
  destruct (source_of s); [|intros H; injection H as <-; reflexivity].
  destruct (sources_of l); [discriminate|].
  intros H. injection H as <-. apply IH. reflexivity.
Qed.

(** X23: [load_sources] accepts a configuration exactly when it is
    truthy and is a list, or an object with a list under [sources], whose
    entries are all objects with the keys id, type and url; the sources
    then come in the order of the entries, one per entry, with the
    configuration beside them, and one bad entry rejects all.  A falsy
    configuration (a missing file, null, an empty list or object) is
    ConfigMissing; every other rejection is ConfigInvalid. *)
Theorem load_sources_all_or_nothing (cfg : value) :
  (forall srcs c,
      load_sources cfg = Ok (srcs, c) <->
      truthy cfg = true /\ c = cfg /\
      exists l,
        (cfg = VList l \/ exists d, cfg = VDict d /\ get d "sources" = VList l) /\
        map source_of l = map Some srcs) /\
  (forall s, source_of s <> None <->
             exists d, s = VDict d /\ has d "id" = true /\ has d "type" = true /\
                       has d "url" = true) /\
  (load_sources cfg = Err ConfigMissing <-> truthy cfg = false) /\
  (forall k, load_sources cfg = Err k -> k = ConfigMissing \/ k = ConfigInvalid).
Proof.
  split; [|split; [|split]].
  - intros srcs c. unfold load_sources. split.
    + destruct (truthy cfg) eqn:Ht; cbn [negb]; [|discriminate].
      intros H. split; [reflexivity|].
      destruct cfg as [| | | |l|d].
      1-4: discriminate H.
      * destruct (sources_of l) as [srcs'|k] eqn:E; [|discriminate H].
        injection H as <- <-. split; [reflexivity|].
        exists l. split; [left; reflexivity|]. apply sources_of_ok. exact E.
      * destruct (get d "sources") as [| | | |l|d'] eqn:Eg; try discriminate H.
        destruct (sources_of l) as [srcs'|k] eqn:E; [|discriminate H].
        injection H as <- <-. split; [reflexivity|].
        exists l. split; [right; exists d; auto|]. apply sources_of_ok. exact E.
    + intros (Ht & -> & l & Hl & Hm). rewrite Ht. cbn [negb].
      apply sources_of_ok in Hm.
      destruct Hl as [->|(d & -> & Hg)]; [|rewrite Hg]; rewrite Hm; reflexivity.
  - intros s. unfold source_of, has. split.
    + intros H. destruct s as [| | | | |d]; try (exfalso; apply H; reflexivity).
      exists d. split; [reflexivity|].
      destruct (lookup d "id"), (lookup d "type"), (lookup d "url");
        try (exfalso; apply H; reflexivity); auto.
    + intros (d & -> & H1 & H2 & H3).
      destruct (lookup d "id"), (lookup d "type"), (lookup d "url"); discriminate.
  - unfold load_sources. split.
    + destruct (truthy cfg); [|reflexivity]. cbn [negb]. intros H. exfalso.
      destruct (match cfg with VDict d => get d "sources" | _ => cfg end)
        as [| | | |l|d']; try discriminate H.
      destruct (sources_of l) as [srcs|k] eqn:E; [discriminate H|].
      apply sources_of_err in E. subst k. discriminate H.
    + intros ->. reflexivity.
  - intros k. unfold load_sources.
    destruct (truthy cfg); cbn [negb]; [|intros H; injection H as <-; auto].
    destruct (match cfg with VDict d => get d "sources" | _ => cfg end)
      as [| | | |l|d']; try (intros H; injection H as <-; auto).
    destruct (sources_of l) as [srcs|k'] eqn:E; [discriminate|].
    apply sources_of_err in E. subst k'. intros H. injection H as <-. auto.
Qed.

(** ** The type of a source *)

(** X24: a source without a post type gets job or notice, by its id; a
    configured post type is taken as it is.  So the type of a source is one
    of the six of the schema exactly when no post type is configured or the
    configured one is among them; and a source whose type is not among them
    yields no document at all, whatever its records hold. *)
Theorem post_type_decides_acceptance (ip : text -> bool) (src : Source) :
  (In (choose_type src) TYPES <->
   match src_postType src with
   | Some (c :: t) => In (c :: t) TYPES
   | _ => True
   end) /\
  (~ In (choose_type src) TYPES ->
   forall r now n since doc slug,
     normalize_record ip src r now n since <> Ret (Ok (doc, slug))).
Proof.
  split.
  - unfold choose_type.
    destruct (src_postType src) as [[|c t]|]; try tauto;
      (split; [auto|intros _]);
      destruct (contains "job" (lower (src_id src))); cbn; tauto.
  - intros Hty r now n since doc slug H.
    destruct (normalize_doc_inv ip src r now n since doc slug H)
      as (title & link & dl & date_pub & subtitle & tags & payload &
          _ & _ & _ & _ & _ & _ & _ & Hdoc & Hv).
    apply validate_ok_inv in Hv as (_ & _ & _ & _ & _ & Hin).
    rewrite Hdoc in Hin.
    change (get _ "type") with (VStr (choose_type src)) in Hin.
    apply existsb_exists in Hin as (x & Hx & Hq).
    cbn [eq_text] in Hq. apply eqb_eq in Hq. apply Hty. rewrite Hq. exact Hx.
Qed.

(** ** What the lookup by slug returns *)

(** The names [DATE_PREFIX_RE] matches: four digits, two digits and two
    digits, each followed by a hyphen, and anything after. *)
Lemma date_prefix_spec (name : text) :
  Re.matches DATE_PREFIX_RE name = true <->
  exists y m d rest,
    List.length y = 4 /\ List.length m = 2 /\ List.length d = 2 /\
    Forall (fun c => Chr.is_digit c = true) (y ++ m ++ d) /\
    name = y ++ "-"%char :: m ++ "-"%char :: d ++ "-"%char :: rest.
Proof.
  split.
  - intros H. unfold Re.matches, Re.match_, Re.match_at, DATE_PREFIX_RE in H.
    cbn [Re.seq] in H.
    change (Re.rmatch (Re.Cat Re.Bos ?r) 0 name [] Re.accept)
      with (Re.match_at r 0 name) in H.
    match type of H with
    | match Re.match_at ?r 0 name with _ => _ end = true =>
        destruct (Re.match_at r 0 name) as [[e cs]|] eqn:E; [|discriminate H];
        apply (ReLang.match_at_sound r 0 name eq_refl) in E
          as (w & rest & Hn & Hl & _)
    end.
    cbn [Re.lang] in Hl.
    destruct Hl as (y & w1 & -> & Hy & s1 & w2 & -> & Hs1 & m & w3 & -> & Hm &
                    s2 & w4 & -> & Hs2 & d & s3 & -> & Hd & Hs3).
    destruct Hy as (Fy & Ly1 & Ly2). destruct Hm as (Fm & Lm1 & Lm2).
    destruct Hd as (Fd & Ld1 & Ld2). cbn [Re.at_most] in Ly2, Lm2, Ld2.
    destruct Hs1 as (c1 & -> & H1). destruct Hs2 as (c2 & -> & H2).
    destruct Hs3 as (c3 & -> & H3).
    unfold Chr.eqc in H1, H2, H3. apply Ascii.eqb_eq in H1, H2, H3. subst c1 c2 c3.
    exists y, m, d, rest. repeat split; try lia.
    + apply Forall_app. split; [exact Fy|]. apply Forall_app. split; assumption.
    + rewrite Hn. repeat rewrite <- app_assoc. reflexivity.
  - intros (y & m & d & rest & Ly & Lm & Ld & Hdig & ->).
    apply Forall_app in Hdig as [Fy Hdig]. apply Forall_app in Hdig as [Fm Fd].
    unfold Re.matches, Re.match_, Re.match_at, DATE_PREFIX_RE, Re.exactly.
    cbn [Re.seq Re.rmatch Nat.eqb].
    rewrite <- Ly at 1 2. rewrite (rep_exactly Chr.is_digit _ [] _ y Fy).
    rewrite rmatch_chr.
    rewrite <- Lm at 1 2. rewrite (rep_exactly Chr.is_digit _ [] _ m Fm).
    rewrite rmatch_chr.
    rewrite <- Ld at 1 2. rewrite (rep_exactly Chr.is_digit _ [] _ d Fd).
    rewrite rmatch_chr. reflexivity.
Qed.
Lemma qualifies_spec (slug name : text) :
  endswith ("-" +++ slug +++ ".json") name && Re.matches DATE_PREFIX_RE name = true <->
  named_for slug name /\ dated name.
Proof.
  rewrite andb_true_iff, endswith_spec, date_prefix_spec. reflexivity.
Qed.

(** X25: what [find_existing] returns is the first file of the directory
    whose name begins with a date shape and ends in [-<slug>.json]; it
    returns [None] exactly when the directory has no such file. *)
Theorem find_existing_contract (dir : store) (slug : text) :
  match find_existing dir slug with
  | Some name =>
      exists before c after,
        dir = before ++ (name, c) :: after /\
        named_for slug name /\ dated name /\
        forall n, In n (map fst before) -> ~ (named_for slug n /\ dated n)
  | None =>
      forall n, In n (map fst dir) -> ~ (named_for slug n /\ dated n)
  end.
Proof.
  induction dir as [|[n0 c0] dir IH]; cbn [find_existing].
  - intros n [].
  - destruct (endswith ("-" +++ slug +++ ".json") n0 && Re.matches DATE_PREFIX_RE n0)
      eqn:E.
    + apply qualifies_spec in E as [Hn Hd].
      exists [], c0, dir. split; [reflexivity|]. split; [exact Hn|]. split; [exact Hd|].
      intros n [].
    + assert (Hno : ~ (named_for slug n0 /\ dated n0)).
      { intros H. apply qualifies_spec in H. rewrite H in E. discriminate E. }
      destruct (find_existing dir slug) as [name|].
      * destruct IH as (before & c & after & -> & Hn & Hd & Hb).
        exists ((n0, c0) :: before), c, after.
        split; [reflexivity|]. split; [exact Hn|]. split; [exact Hd|].
        intros n [<-|Hin]; [exact Hno|exact (Hb n Hin)].
      * intros n [<-|Hin]; [exact Hno|exact (IH n Hin)].
Qed.

(** ** Records that cannot make the run raise *)




Section Parts.

Variable P : ascii -> Prop.








End Parts.







Lemma strip_of_text (v : value) (t : text) : v = VStr t -> strip_of v = Ret (strip t).
Proof. intros ->. reflexivity. Qed.






(** ** URL normalization, part by part *)

Lemma urlsplit_http (ip : text -> bool) (a b c d : ascii) (rest : text) :
  Chr.lower a = "h"%char -> Chr.lower b = "t"%char ->
  Chr.lower c = "t"%char -> Chr.lower d = "p"%char ->
  forallb (fun c => negb (unsafe_url_byte c)) rest = true ->
  urlsplit ip (a :: b :: c :: d :: ":"%char :: "/"%char :: "/"%char :: rest) =
  if brackets_accepted ip (host_of rest)
  then Ret (let '(p, q, f) := tail_parts (tail_of rest) in
            mkSplit "http" (host_of rest) p q f)
  else Raise "ValueError".
Proof.
  intros Ha Hb Hc Hd Hsafe.
  pose proof (@alpha_facts a (@lower_letter a "h" eq_refl Ha)) as (Sa & Ca & Za & Wa & Ua).
  pose proof (@alpha_facts b (@lower_letter b "t" eq_refl Hb)) as (Sb & Cb & Zb & Wb & Ub).
  pose proof (@alpha_facts c (@lower_letter c "t" eq_refl Hc)) as (Sc & Cc & Zc & Wc & Uc).
  pose proof (@alpha_facts d (@lower_letter d "p" eq_refl Hd)) as (Sd & Cd & Zd & Wd & Ud).
  pose proof (@lower_letter a "h" eq_refl Ha) as Aa.
  set (url := a :: b :: c :: d :: ":"%char :: "/"%char :: "/"%char :: rest).
  assert (H1 : lstrip_by c0_control_or_space url = url).
  { subst url. cbn [lstrip_by]. rewrite Za. reflexivity. }
  assert (H2 : filter (fun c => negb (unsafe_url_byte c)) url = url).
  { apply filter_all. subst url. cbn [forallb]. rewrite Ua, Ub, Uc, Ud, Hsafe. reflexivity. }
  assert (H3 : split_scheme url = (of_string "http", "/"%char :: "/"%char :: rest)).
  { subst url. unfold split_scheme. cbn [find]. rewrite Ca, Cb, Cc, Cd.
    cbn [Ascii.eqb Bool.eqb option_map firstn forallb skipn lower map].
    rewrite Aa, Sa, Sb, Sc, Sd, Ha, Hb, Hc, Hd. reflexivity. }
  unfold urlsplit. rewrite H1, H2, H3.
  cbn [startswith of_string list_ascii_of_string Ascii.eqb Bool.eqb andb skipn].
  unfold brackets_accepted, host_of, tail_of, tail_parts.
  destruct (mem "[" (take_until netloc_delim rest)),
           (mem "]" (take_until netloc_delim rest)),
           (check_bracketed_netloc ip (take_until netloc_delim rest));
    cbn [andb orb negb]; try reflexivity;
    (destruct (split1 "#" (drop_until netloc_delim rest)) as [[u f]|];
     [destruct (split1 "?" u) as [[p q]|]
     |destruct (split1 "?" (drop_until netloc_delim rest)) as [[p q]|]];
     reflexivity).
Qed.

Lemma urlsplit_https (ip : text -> bool) (a b c d e : ascii) (rest : text) :
  Chr.lower a = "h"%char -> Chr.lower b = "t"%char ->
  Chr.lower c = "t"%char -> Chr.lower d = "p"%char -> Chr.lower e = "s"%char ->
  forallb (fun c => negb (unsafe_url_byte c)) rest = true ->
  urlsplit ip (a :: b :: c :: d :: e :: ":"%char :: "/"%char :: "/"%char :: rest) =
  if brackets_accepted ip (host_of rest)
  then Ret (let '(p, q, f) := tail_parts (tail_of rest) in
            mkSplit "https" (host_of rest) p q f)
  else Raise "ValueError".
Proof.
  intros Ha Hb Hc Hd He Hsafe.
  pose proof (@alpha_facts a (@lower_letter a "h" eq_refl Ha)) as (Sa & Ca & Za & Wa & Ua).
  pose proof (@alpha_facts b (@lower_letter b "t" eq_refl Hb)) as (Sb & Cb & Zb & Wb & Ub).
  pose proof (@alpha_facts c (@lower_letter c "t" eq_refl Hc)) as (Sc & Cc & Zc & Wc & Uc).
  pose proof (@alpha_facts d (@lower_letter d "p" eq_refl Hd)) as (Sd & Cd & Zd & Wd & Ud).
  pose proof (@alpha_facts e (@lower_letter e "s" eq_refl He)) as (Se & Ce & Ze & We & Ue).
  pose proof (@lower_letter a "h" eq_refl Ha) as Aa.
  set (url := a :: b :: c :: d :: e :: ":"%char :: "/"%char :: "/"%char :: rest).
  assert (H1 : lstrip_by c0_control_or_space url = url).
  { subst url. cbn [lstrip_by]. rewrite Za. reflexivity. }
  assert (H2 : filter (fun c => negb (unsafe_url_byte c)) url = url).
  { apply filter_all. subst url. cbn [forallb].
    rewrite Ua, Ub, Uc, Ud, Ue, Hsafe. reflexivity. }
  assert (H3 : split_scheme url = (of_string "https", "/"%char :: "/"%char :: rest)).
  { subst url. unfold split_scheme. cbn [find]. rewrite Ca, Cb, Cc, Cd, Ce.
    cbn [Ascii.eqb Bool.eqb option_map firstn forallb skipn lower map].
    rewrite Aa, Sa, Sb, Sc, Sd, Se, Ha, Hb, Hc, Hd, He. reflexivity. }
  unfold urlsplit. rewrite H1, H2, H3.
  cbn [startswith of_string list_ascii_of_string Ascii.eqb Bool.eqb andb skipn].
  unfold brackets_accepted, host_of, tail_of, tail_parts.
  destruct (mem "[" (take_until netloc_delim rest)),
           (mem "]" (take_until netloc_delim rest)),
           (check_bracketed_netloc ip (take_until netloc_delim rest));
    cbn [andb orb negb]; try reflexivity;
    (destruct (split1 "#" (drop_until netloc_delim rest)) as [[u f]|];
     [destruct (split1 "?" u) as [[p q]|]
     |destruct (split1 "?" (drop_until netloc_delim rest)) as [[p q]|]];
     reflexivity).
Qed.

Lemma tail_parts_path (tail p q f : text) :
  tail_parts tail = (p, q, f) ->
  match tail with [] => True | c :: _ => netloc_delim c = true end ->
  nonempty p && negb (startswith "/" p) = false.
Proof.
  unfold tail_parts. intros Ht Hc.
  destruct tail as [|c tail].
  - injection Ht as <- <- <-. reflexivity.
  - unfold netloc_delim, mem in Hc. cbn [existsb of_string list_ascii_of_string] in Hc.
    unfold Chr.eqc in Hc. rewrite orb_false_r in Hc.
    apply orb_true_iff in Hc as [Hc|Hc]; [|apply orb_true_iff in Hc as [Hc|Hc]];
      apply Ascii.eqb_eq in Hc; subst c; cbn [split1 Ascii.eqb Bool.eqb andb] in Ht.
    + destruct (split1 "#" tail) as [[u f']|];
        cbn [split1 Ascii.eqb Bool.eqb andb] in Ht;
        [destruct (split1 "?" u) as [[p' q']|]
        |destruct (split1 "?" tail) as [[p' q']|]];
        injection Ht as <- <- <-; reflexivity.
    + destruct (split1 "#" tail) as [[u f']|];
        cbn [split1 Ascii.eqb Bool.eqb andb] in Ht;
        injection Ht as <- <- <-; reflexivity.
    + injection Ht as <- <- <-. reflexivity.
Qed.

Lemma urlunsplit_https (host p q f : text) :
  nonempty host = true ->
  nonempty p && negb (startswith "/" p) = false ->
  urlunsplit (mkSplit "https" host p q f) =
  "https://" +++ host ++ p ++ marked "?" q ++ marked "#" f.
Proof.
  intros Hh Hp. unfold urlunsplit, marked.
  cbn [scheme netloc path query fragment]. rewrite Hh, Hp.
  cbn [orb nonempty of_string list_ascii_of_string app].
  destruct (nonempty q), (nonempty f); cbn [app];
    repeat rewrite <- app_assoc; cbn [app]; repeat rewrite app_nil_r; reflexivity.
Qed.

(** [to_https] on a URL of scheme http or https, by what follows [://]. *)
Lemma to_https_rest (ip : text -> bool) (sch rest : text) :
  lower sch = of_string "http" \/ lower sch = of_string "https" ->
  clean_rest rest = true ->
  to_https ip (sch +++ "://" +++ rest) =
  if brackets_accepted ip (host_of rest)
  then Ret (Some (let '(p, q, f) := tail_parts (tail_of rest) in
                  "https://" +++ host_of rest ++ p ++ marked "?" q ++ marked "#" f))
  else Raise "ValueError".
Proof.
  intros Hs Hwf.
  unfold clean_rest in Hwf. repeat rewrite andb_true_iff in Hwf.
  destruct Hwf as ((Hsafe & Hlast) & Hhost).
  destruct (@last_not_space rest (@take_until_nonempty _ _ Hhost) Hlast)
    as (s & z & Hrest & Hz).
  destruct Hs as [Hs|Hs].
  - destruct sch as [|a [|b [|c [|d [|e sch]]]]]; try discriminate Hs.
    injection Hs as Ha Hb Hc Hd.
    pose proof (@alpha_facts a (@lower_letter a "h" eq_refl Ha)) as (_ & _ & _ & Wa & _).
    unfold to_https. cbn [app of_string list_ascii_of_string nonempty negb].
    replace (a :: b :: c :: d :: ":"%char :: "/"%char :: "/"%char :: rest)
      with (a :: (b :: c :: d :: ":"%char :: "/"%char :: "/"%char :: s) ++ [z])
      by (rewrite Hrest; reflexivity).
    rewrite (@strip_keeps a _ z Wa Hz).
    replace (a :: (b :: c :: d :: ":"%char :: "/"%char :: "/"%char :: s) ++ [z])
      with (a :: b :: c :: d :: ":"%char :: "/"%char :: "/"%char :: rest)
      by (rewrite Hrest; reflexivity).
    replace (startswith _ (lower _)) with true
      by (unfold lower; cbn [map]; rewrite Ha, Hb, Hc, Hd; reflexivity).
    cbn [negb].
    rewrite (urlsplit_http ip a b c d rest Ha Hb Hc Hd Hsafe).
    destruct (brackets_accepted ip (host_of rest)); cbn [bind]; [|reflexivity].
    destruct (tail_parts (tail_of rest)) as [[p q] f] eqn:Et.
    cbn [scheme netloc path query fragment].
    replace (text_in (of_string "http") (texts ["http"; "https"])) with true by reflexivity.
    change ["h"%char; "t"%char; "t"%char; "p"%char; "s"%char] with (of_string "https").
    rewrite (urlunsplit_https _ _ q f Hhost
               (tail_parts_path _ _ _ _ Et (@drop_until_head netloc_delim rest))).
    reflexivity.
  - destruct sch as [|a [|b [|c [|d [|e [|g sch]]]]]]; try discriminate Hs.
    injection Hs as Ha Hb Hc Hd He.
    pose proof (@alpha_facts a (@lower_letter a "h" eq_refl Ha)) as (_ & _ & _ & Wa & _).
    unfold to_https. cbn [app of_string list_ascii_of_string nonempty negb].
    replace (a :: b :: c :: d :: e :: ":"%char :: "/"%char :: "/"%char :: rest)
      with (a :: (b :: c :: d :: e :: ":"%char :: "/"%char :: "/"%char :: s) ++ [z])
      by (rewrite Hrest; reflexivity).
    rewrite (@strip_keeps a _ z Wa Hz).
    replace (a :: (b :: c :: d :: e :: ":"%char :: "/"%char :: "/"%char :: s) ++ [z])
      with (a :: b :: c :: d :: e :: ":"%char :: "/"%char :: "/"%char :: rest)
      by (rewrite Hrest; reflexivity).
    replace (startswith _ (lower _)) with true
      by (unfold lower; cbn [map]; rewrite Ha, Hb, Hc, Hd; reflexivity).
    cbn [negb].
    rewrite (urlsplit_https ip a b c d e rest Ha Hb Hc Hd He Hsafe).
    destruct (brackets_accepted ip (host_of rest)); cbn [bind]; [|reflexivity].
    destruct (tail_parts (tail_of rest)) as [[p q] f] eqn:Et.
    cbn [scheme netloc path query fragment].
    replace (text_in (of_string "https") (texts ["http"; "https"])) with true by reflexivity.
    change ["h"%char; "t"%char; "t"%char; "p"%char; "s"%char] with (of_string "https").
    rewrite (urlunsplit_https _ _ q f Hhost
               (tail_parts_path _ _ _ _ Et (@drop_until_head netloc_delim rest))).
    reflexivity.
Qed.

Lemma take_drop_until_app (p : ascii -> bool) (host tail : text) :
  forallb (fun c => negb (p c)) host = true ->
  match tail with [] => True | c :: _ => p c = true end ->
  take_until p (host ++ tail) = host /\ drop_until p (host ++ tail) = tail.
Proof.
  intros Hh Ht. induction host as [|c host IH]; cbn [app].
  - destruct tail as [|c tail]; [split; reflexivity|].
    cbn [take_until drop_until]. rewrite Ht. split; reflexivity.
  - cbn [forallb] in Hh. apply andb_true_iff in Hh as [Hc Hh].
    apply negb_true_iff in Hc. cbn [take_until drop_until]. rewrite Hc.
    destruct (IH Hh) as [-> ->]. split; reflexivity.
Qed.

Lemma split1_none (c : ascii) (s : text) :
  forallb (fun x => negb (Chr.eqc c x)) s = true -> split1 c s = None.
Proof.
  induction s as [|a s IH]; [reflexivity|]. cbn [forallb split1].
  intros H. apply andb_true_iff in H as [Ha H]. apply negb_true_iff in Ha.
  unfold Chr.eqc in Ha. rewrite Ascii.eqb_sym, Ha, (IH H). reflexivity.
Qed.

Lemma split1_app (c : ascii) (l r : text) :
  forallb (fun x => negb (Chr.eqc c x)) l = true -> split1 c (l ++ c :: r) = Some (l, r).
Proof.
  induction l as [|a l IH]; cbn [app forallb split1].
  - intros _. rewrite Ascii.eqb_refl. reflexivity.
  - intros H. apply andb_true_iff in H as [Ha H]. apply negb_true_iff in Ha.
    unfold Chr.eqc in Ha. rewrite Ascii.eqb_sym, Ha, (IH H). reflexivity.
Qed.

Lemma forallb_weaken {A : Type} (f g : A -> bool) (l : list A) :
  (forall x, f x = true -> g x = true) -> forallb f l = true -> forallb g l = true.
Proof.
  intros H. rewrite !forallb_forall. intros Hf x Hx. apply H. apply Hf. exact Hx.
Qed.

(** [urlsplit] cuts what follows the host into the parts it was put
    together from. *)
Lemma tail_parts_of (path : text) (query fragment : option text) :
  forallb (fun c => negb (Chr.eqc "?" c || Chr.eqc "#" c)) path = true ->
  forallb (fun c => negb (Chr.eqc "#" c)) (text_of query) = true ->
  tail_parts (path ++ opt_marked "?" query ++ opt_marked "#" fragment)
  = (path, text_of query, text_of fragment).
Proof.
  intros Hp Hq.
  assert (Hp1 : forallb (fun c => negb (Chr.eqc "?" c)) path = true).
  { revert Hp. apply forallb_weaken. intros x Hx. apply negb_true_iff in Hx.
    apply orb_false_iff in Hx as [-> _]. reflexivity. }
  assert (Hp2 : forallb (fun c => negb (Chr.eqc "#" c)) path = true).
  { revert Hp. apply forallb_weaken. intros x Hx. apply negb_true_iff in Hx.
    apply orb_false_iff in Hx as [_ ->]. reflexivity. }
  assert (Hu : forallb (fun c => negb (Chr.eqc "#" c)) (path ++ opt_marked "?" query) = true).
  { rewrite forallb_app, Hp2. destruct query as [q|]; cbn [opt_marked forallb text_of] in *;
      [rewrite Hq|]; reflexivity. }
  assert (Hsplit : (match split1 "?" (path ++ opt_marked "?" query) with
                    | Some (p, q) => (p, q)
                    | None => (path ++ opt_marked "?" query, [])
                    end) = (path, text_of query)).
  { destruct query as [q|]; cbn [opt_marked text_of].
    - rewrite (split1_app "?" path q Hp1). reflexivity.
    - rewrite app_nil_r, (split1_none "?" path Hp1). reflexivity. }
  unfold tail_parts. destruct fragment as [f|]; cbn [opt_marked text_of].
  - rewrite app_assoc, (split1_app "#" _ f Hu). cbv beta iota zeta.
    match goal with
    | |- (let '(_, _) := ?M in _) = _ =>
        assert (HM : M = (path, text_of query)) by exact Hsplit; rewrite HM
    end.
    reflexivity.
  - rewrite app_nil_r, (split1_none "#" _ Hu). cbv beta iota zeta.
    match goal with
    | |- (let '(_, _) := ?M in _) = _ =>
        assert (HM : M = (path, text_of query)) by exact Hsplit; rewrite HM
    end.
    reflexivity.
Qed.

Lemma rest_of_parts (host path : text) (query fragment : option text) :
  well_formed_parts host path query fragment = true ->
  clean_rest (url_rest host path query fragment) = true /\
  host_of (url_rest host path query fragment) = host /\
  tail_parts (tail_of (url_rest host path query fragment))
  = (path, text_of query, text_of fragment).
Proof.
  unfold well_formed_parts. repeat rewrite andb_true_iff.
  intros ((((((Hne & Hh) & Hp0) & Hp) & Hq) & Hsafe) & Hlast).
  assert (Htail : match path ++ opt_marked "?" query ++ opt_marked "#" fragment with
                  | [] => True
                  | c :: _ => netloc_delim c = true
                  end).
  { destruct path as [|c path].
    - destruct query as [q|]; [reflexivity|].
      destruct fragment as [f|]; [reflexivity|exact I].
    - cbn [app]. unfold Chr.eqc in Hp0. apply Ascii.eqb_eq in Hp0. subst c. reflexivity. }
  destruct (take_drop_until_app netloc_delim host _ Hh Htail) as [Ht Hd].
  unfold host_of, tail_of, clean_rest, host_of.
  split; [|split].
  - apply andb_true_iff. split; [apply andb_true_iff; split; [exact Hsafe|exact Hlast]|].
    replace (take_until netloc_delim _) with host by (symmetry; exact Ht). exact Hne.
  - exact Ht.
  - replace (drop_until netloc_delim _)
      with (path ++ opt_marked "?" query ++ opt_marked "#" fragment)
      by (symmetry; exact Hd).
    exact (tail_parts_of path query fragment Hp Hq).
Qed.

Lemma marked_kept (mark : ascii) (s : option text) :
  marked mark (text_of s) = opt_marked mark (kept s).
Proof. destruct s as [[|c t]|]; reflexivity. Qed.

Lemma kept_same (s : option text) : s <> Some [] -> kept s = s.
Proof.
  destruct s as [[|c t]|]; intros H; [exfalso; apply H; reflexivity|reflexivity..].
Qed.

(** [to_https] on a URL of scheme http or https, by its parts. *)
Lemma to_https_parts (ip : text -> bool) (sch host path : text)
      (query fragment : option text) :
  lower sch = of_string "http" \/ lower sch = of_string "https" ->
  well_formed_parts host path query fragment = true ->
  to_https ip (sch +++ "://" +++ url_rest host path query fragment) =
  if brackets_accepted ip host
  then Ret (Some ("https://" +++ url_rest host path (kept query) (kept fragment)))
  else Raise "ValueError".
Proof.
  intros Hs Hwf. destruct (rest_of_parts host path query fragment Hwf) as (Hc & Hh & Ht).
  rewrite (to_https_rest ip sch _ Hs Hc), Hh, Ht, !marked_kept. reflexivity.
Qed.

Lemma no_bracket_accepted (ip : text -> bool) (host : text) :
  no_bracket host = true -> brackets_accepted ip host = true.
Proof.
  intros H. unfold brackets_accepted.
  assert (Hm : forall b, bracket b = true -> mem b host = false).
  { intros b Hb. unfold mem. apply existsb_false. intros x Hx.
    unfold no_bracket in H. rewrite forallb_forall in H. specialize (H x Hx).
    apply negb_true_iff in H. unfold Chr.eqc.
    destruct (Ascii.eqb b x) eqn:E; [|reflexivity].
    apply Ascii.eqb_eq in E. subst x. congruence. }
  rewrite (Hm "["%char eq_refl), (Hm "]"%char eq_refl). reflexivity.
Qed.

(** A text that [to_https] lets through its first check begins, blanks
    aside, with [http] in some letter case. *)
Lemma guard_http_like (url : text) :
  startswith "http" (lower (strip url)) = true -> http_like url.
Proof.
  unfold strip, strip_by. intros H.
  destruct (lstrip_suffix Chr.is_space url) as (blanks & Hu & Hb).
  destruct (rstrip_prefix Chr.is_space (lstrip_by Chr.is_space url)) as (suf & Hr & _).
  destruct (rstrip_by Chr.is_space (lstrip_by Chr.is_space url))
    as [|a [|b [|c [|d rest]]]];
    cbn [lower map startswith of_string list_ascii_of_string] in H;
    rewrite ?andb_false_r in H; try discriminate H.
  exists blanks, a, b, c, d, (rest ++ suf).
  split; [rewrite Hu at 1; rewrite Hr; reflexivity|]. split; [exact Hb|].
  cbn [lower map startswith of_string list_ascii_of_string] in H |- *.
  apply andb_true_iff in H as [H1 H]. apply andb_true_iff in H as [H2 H].
  apply andb_true_iff in H as [H3 H]. apply andb_true_iff in H as [H4 _].
  apply Ascii.eqb_eq in H1, H2, H3, H4. rewrite <- H1, <- H2, <- H3, <- H4.
  reflexivity.
Qed.

(** A text that begins, blanks aside, with [http] in some letter case
    passes the first check of [to_https] once the blanks before it are
    stripped. *)
Lemma http_like_lstrip (url : text) :
  http_like url -> startswith "http" (lower (lstrip_by Chr.is_space url)) = true.
Proof.
  intros (blanks & a & b & c & d & rest & -> & Hb & Hl).
  injection Hl as Ha Hb' Hc Hd.
  pose proof (@alpha_facts a (@lower_letter a "h" eq_refl Ha)) as (_ & _ & _ & Wa & _).
  induction Hb as [|x blanks Hx Hbl IH]; cbn [app lstrip_by].
  - rewrite Wa. cbn [lower map startswith of_string list_ascii_of_string].
    rewrite Ha, Hb', Hc, Hd. reflexivity.
  - rewrite Hx. exact IH.
Qed.

(** C7 (as amended): a URL of scheme http, in any letter case, followed by
    [://] and well-formed parts comes back with the scheme https, the host
    and the path as they are, and the query and the fragment behind their
    marks when they are not empty: a [?] or a [#] with nothing behind it is
    dropped, so the URL comes back with nothing but the scheme changed
    exactly when it has no such mark.  This holds for a host without square
    brackets and for one whose brackets [urlsplit] accepts; with other
    brackets [to_https] raises ValueError.  A text that does not begin,
    blanks aside, with [http] in some letter case comes back as [None]. *)
Theorem to_https_rewrites_scheme (ip : text -> bool) :
  (forall sch host path query fragment,
      lower sch = of_string "http" ->
      well_formed_parts host path query fragment = true ->
      (brackets_accepted ip host = true ->
       to_https ip (sch +++ "://" +++ url_rest host path query fragment)
       = Ret (Some ("https://" +++ url_rest host path (kept query) (kept fragment)))) /\
      (brackets_accepted ip host = false ->
       to_https ip (sch +++ "://" +++ url_rest host path query fragment)
       = Raise "ValueError") /\
      (no_bracket host = true -> brackets_accepted ip host = true) /\
      (url_rest host path (kept query) (kept fragment) = url_rest host path query fragment
       <-> query <> Some [] /\ fragment <> Some [])) /\
  (forall url, ~ http_like url -> to_https ip url = Ret None).
Proof.
  split.
  - intros sch host path query fragment Hs Hwf.
    pose proof (to_https_parts ip sch host path query fragment (or_introl Hs) Hwf) as H.
    split; [intros Hb; rewrite H, Hb; reflexivity|].
    split; [intros Hb; rewrite H, Hb; reflexivity|].
    split; [apply no_bracket_accepted|].
    split.
    + intros E. unfold url_rest in E.
      apply app_inv_head in E. apply app_inv_head in E.
      apply (f_equal (@List.length ascii)) in E. rewrite !length_app in E.
      destruct query as [[|c q]|], fragment as [[|c' f]|];
        cbn [kept opt_marked List.length] in E; try lia;
        (split; discriminate).
    + intros [Hq Hf]. rewrite (kept_same query Hq), (kept_same fragment Hf). reflexivity.
  - intros url H. unfold to_https.
    destruct (nonempty url); [|reflexivity]. cbn [negb].
    destruct (startswith "http" (lower (strip url))) eqn:E; [|reflexivity].
    exfalso. apply H. apply guard_http_like. exact E.
Qed.

Lemma forallb_last {A : Type} (f : A -> bool) (l : list A) :
  forallb f l = true ->
  match rev l with c :: _ => f c | [] => true end = true.
Proof.
  intros H. destruct (rev l) as [|c r] eqn:E; [reflexivity|].
  rewrite forallb_forall in H. apply H. apply in_rev. rewrite E. left. reflexivity.
Qed.

Lemma forallb_rest_kept (f : ascii -> bool) (host path : text)
      (query fragment : option text) :
  forallb f (url_rest host path query fragment) = true ->
  forallb f (url_rest host path (kept query) (kept fragment)) = true.
Proof.
  unfold url_rest. rewrite !forallb_app.
  intros H. repeat rewrite andb_true_iff in H. destruct H as (Hh & Hp & Hq & Hf).
  rewrite Hh, Hp.
  destruct query as [[|c q]|], fragment as [[|c' f']|];
    cbn [kept opt_marked forallb andb] in *; try rewrite Hq; try rewrite Hf; reflexivity.
Qed.

Lemma kept_well_formed (host path : text) (query fragment : option text) :
  well_formed_parts host path query fragment = true ->
  forallb (fun c => negb (Chr.is_space c)) (url_rest host path query fragment) = true ->
  well_formed_parts host path (kept query) (kept fragment) = true.
Proof.
  intros H Hblank. unfold well_formed_parts in H |- *.
  repeat rewrite andb_true_iff in H.
  destruct H as ((((((Hne & Hh) & Hp0) & Hp) & Hq) & Hsafe) & Hlast).
  rewrite Hne, Hh, Hp0, Hp.
  rewrite (forallb_rest_kept _ host path query fragment Hsafe).
  rewrite (forallb_last _ _ (forallb_rest_kept _ host path query fragment Hblank)).
  replace (text_of (kept query)) with (text_of query)
    by (destruct query as [[|c q]|]; reflexivity).
  rewrite Hq. reflexivity.
Qed.

Lemma kept_kept (s : option text) : kept (kept s) = kept s.
Proof. destruct s as [[|c t]|]; reflexivity. Qed.

(** X22: a URL of scheme https, in any letter case, followed by [://]
    and well-formed parts, with square brackets in the host only as
    [urlsplit] accepts them, comes back with the scheme in lower case, the
    host and the path as they are, and the query and the fragment behind
    their marks when they are not empty; so with a lower-case scheme and no
    [?] or [#] with nothing behind it, it comes back as it is.  What
    [to_https] returns for such a URL that holds no blank comes back as it
    is when it is given to [to_https] again. *)
Theorem to_https_keeps_https (ip : text -> bool) (sch host path : text)
        (query fragment : option text) :
  lower sch = of_string "https" ->
  well_formed_parts host path query fragment = true ->
  brackets_accepted ip host = true ->
  to_https ip (sch +++ "://" +++ url_rest host path query fragment)
    = Ret (Some ("https://" +++ url_rest host path (kept query) (kept fragment))) /\
  (query <> Some [] -> fragment <> Some [] ->
   to_https ip ("https://" +++ url_rest host path query fragment)
     = Ret (Some ("https://" +++ url_rest host path query fragment))) /\
  (forallb (fun c => negb (Chr.is_space c)) (url_rest host path query fragment) = true ->
   to_https ip ("https://" +++ url_rest host path (kept query) (kept fragment))
     = Ret (Some ("https://" +++ url_rest host path (kept query) (kept fragment)))).
Proof.
  intros Hs Hwf Hb. split; [|split].
  - rewrite (to_https_parts ip sch host path query fragment (or_intror Hs) Hwf), Hb.
    reflexivity.
  - intros Hq Hf.
    change ("https://" +++ url_rest host path query fragment)
      with ("https" +++ "://" +++ url_rest host path query fragment).
    rewrite (to_https_parts ip "https" host path query fragment (or_intror eq_refl) Hwf), Hb.
    rewrite (kept_same query Hq), (kept_same fragment Hf). reflexivity.
  - intros Hblank.
    pose proof (kept_well_formed host path query fragment Hwf Hblank) as Hwf'.
    change ("https://" +++ url_rest host path (kept query) (kept fragment))
      with ("https" +++ "://" +++ url_rest host path (kept query) (kept fragment)).
    rewrite (to_https_parts ip "https" host path (kept query) (kept fragment)
               (or_intror eq_refl) Hwf'), Hb.
    rewrite !kept_kept. reflexivity.
Qed.

(** * Worked inputs: counterexamples and instances *)

(** C1: one record without a title, from a source that is fetched and
    parsed without error: the record's Normalize failure is written to the
    failure sink, the partial-failure flag stays down and the exit status
    is 0. *)
Theorem record_failure_exits_zero :
  exists st,
    main ip0 (world_of (VList [VDict untitled])) args0 (Ok [jobs]) [] = Ret (0%Z, st) /\
    sink st = [(src_id jobs, Normalize)] /\
    any_partial_fail st = false.
Proof. eexists. split; [vm_compute; reflexivity|]. split; reflexivity. Qed.

(** C3: the output directory holds [2025-10-01-summer-intern.json] and the
    run meets a post titled Intern, whose slug is [intern]: the lookup takes
    the stored file of another slug, because its name ends in
    [-intern.json]; that file is refreshed, and no file for the new post is
    written and no id is used. *)
Theorem suffix_slug_is_merged :
  exists doc st cur,
    normalize_record ip0 jobs intern now0 1 None = Ret (Ok (doc, "intern" : text)) /\
    find_existing summer_intern_dir "intern" = Some ("2025-10-01-summer-intern.json" : text) /\
    main ip0 (world_of (VList [VDict intern])) args0 (Ok [jobs]) summer_intern_dir
      = Ret (0%Z, st) /\
    map fst (files st) = [("2025-10-01-summer-intern.json" : text)] /\
    read_json (files st) "2025-10-01-summer-intern.json" = Ret (VDict cur) /\
    get cur "title" = VStr "Summer Intern" /\
    get cur "last_checked_at" = VStr "2025-11-02" /\
    read_json (files st) (post_file_name "2025-11-02" "intern") = Ret VNone /\
    seq st = 1%N /\ total_written st = 1%Z.
Proof.
  eexists. eexists. eexists. split; [vm_compute; reflexivity|].
  split; [vm_compute; reflexivity|].
  split; [vm_compute; reflexivity|].
  split; [reflexivity|].
  split; [vm_compute; reflexivity|].
  repeat split; vm_compute; reflexivity.
Qed.

(** C2, against the claim as stated: the contacts of an activity are a list
    of texts, and they reach the document as they came, with the email
    address and the phone number in them. *)
Lemma contacts_are_not_scrubbed :
  exists doc slug payload,
    normalize_record ip0 activities club_call now0 1 None = Ret (Ok (doc, slug)) /\
    get doc "payload" = VDict payload /\
    get payload "contacts" =
      VList [VStr "kim@example.com"; VStr "010-1234-5678"] /\
    email_like "kim@example.com" /\ phone_like "010-1234-5678".
Proof.
  eexists. eexists. eexists.
  split; [vm_compute; reflexivity|]. split; [reflexivity|]. split; [reflexivity|].
  split.
  - apply (@ReLang.full_match_lang EMAIL_RE "kim@example.com" []); reflexivity.
  - apply (@ReLang.full_match_lang PHONE_RE "010-1234-5678" []); reflexivity.
Qed.

Lemma scrubbed_fields_free_of_pii_witness :
  normalize_record ip0 activities club_call now0 1 None
    = Ret (Ok (club_doc, "robot-club" : text)) /\
  exists payload,
    get club_doc "payload" = VDict payload /\
    get payload "benefits" = VList [VStr "ask [redacted]"] /\
    get payload "contacts" = VList [VStr "kim@example.com"; VStr "010-1234-5678"].
Proof.
  assert (H : normalize_record ip0 activities club_call now0 1 None
              = Ret (Ok (club_doc, "robot-club" : text)))
    by (vm_compute; reflexivity).
  split; [exact H|].
  destruct (scrubbed_fields_free_of_pii _ _ _ _ _ _ H)
    as (title & link & built & payload & Hb & Hp & _ & Hs & _ & Hn & _).
  exists payload. split; [exact Hp|].
  vm_compute in Hb. injection Hb as <-. split.
  - assert (Hin : In (of_string "benefits") SCRUB_KEYS) by (cbn; tauto).
    pose proof (Hs "benefits" [VStr "ask kim@example.com"] Hin eq_refl) as Hx.
    vm_compute in Hx. exact Hx.
  - assert (Hnin : ~ In (of_string "contacts") SCRUB_KEYS).
    { cbn. intros Hc. repeat (destruct Hc as [Hc|Hc]; [discriminate Hc|]). exact Hc. }
    pose proof (Hn "contacts" Hnin) as Hx. vm_compute in Hx. exact Hx.
Defined.

Lemma accepted_payload_witness :
  normalize_record ip0 notices room_notice now0 1 None
    = Ret (Ok (room_doc, "room-change" : text)) /\
  ~ In (choose_type notices) FIXED_TYPES /\
  exists payload,
    get room_doc "payload" = VDict payload /\
    map fst payload = texts ["room"; "notes"] /\
    get payload "room" = VStr "B101" /\
    get payload "notes" = VList [VStr "call [redacted]"].
Proof.
  assert (H : normalize_record ip0 notices room_notice now0 1 None
              = Ret (Ok (room_doc, "room-change" : text)))
    by (vm_compute; reflexivity).
  assert (Hty : ~ In (choose_type notices) FIXED_TYPES).
  { cbn. intros Hc. repeat (destruct Hc as [Hc|Hc]; [discriminate Hc|]). exact Hc. }
  split; [exact H|]. split; [exact Hty|].
  destruct (accepted_payload _ _ _ _ _ _ H) as (payload & Hp & _ & _ & _ & _ & _ & Hpass).
  destruct (Hpass Hty) as (own & Hown & _ & Hkeys & Hget & _).
  vm_compute in Hown. injection Hown as <-.
  exists payload. split; [exact Hp|]. split; [exact Hkeys|]. split.
  - pose proof (Hget "room") as Hx. vm_compute in Hx. exact Hx.
  - pose proof (Hget "notes") as Hx. vm_compute in Hx. exact Hx.
Defined.

(** C4, against the claim as stated: a notice with a title and a link and
    no payload is accepted with an empty payload. *)
Lemma notice_payload_empty :
  exists doc slug,
    normalize_record ip0 notices plain_notice now0 1 None = Ret (Ok (doc, slug)) /\
    get doc "payload" = VDict [].
Proof. eexists. eexists. split; [vm_compute; reflexivity|]. reflexivity. Qed.

(** C5, against the claim as stated: a record published before the since
    date but without a title fails with kind Normalize, and its failure is
    written to the failure sink. *)
Lemma untitled_old_record_is_logged :
  resolved_date old_notice now0 = Ret ("2020-01-01" : text) /\
  ltb "2020-01-01" "2025-01-01" = true /\
  normalize_record ip0 notices old_notice now0 1 (Some ("2025-01-01" : text))
    = Ret (Err Normalize) /\
  exists st,
    process_record ip0 args0 notices now0 (Some ("2025-01-01" : text))
                   (initial []) old_notice = Ret st /\
    sink st = [(src_id notices, Normalize)].
Proof.
  split; [vm_compute; reflexivity|]. split; [reflexivity|].
  split; [vm_compute; reflexivity|].
  eexists. split; [vm_compute; reflexivity|]. reflexivity.
Qed.

Lemma since_filter_is_silent_witness :
  (resolved_title old_post = Ret ("Spring fair" : text) /\
   resolved_link ip0 notices old_post = Ret ("https://campus.example/api" : text) /\
   raw_deadline old_post = Ret ([] : text) /\
   resolved_date old_post now0 = Ret ("2020-01-01" : text) /\
   ltb "2020-01-01" "2025-01-01" = true) /\
  normalize_record ip0 notices old_post now0 (seq (initial []))
                   (Some ("2025-01-01" : text)) = Ret (Err SinceFilter) /\
  process_record ip0 args0 notices now0 (Some ("2025-01-01" : text)) (initial []) old_post
    = Ret (initial []).
Proof.
  assert (Ht : resolved_title old_post = Ret ("Spring fair" : text))
    by (vm_compute; reflexivity).
  assert (Hl : resolved_link ip0 notices old_post = Ret ("https://campus.example/api" : text))
    by (vm_compute; reflexivity).
  assert (Hdl : raw_deadline old_post = Ret ([] : text)) by (vm_compute; reflexivity).
  assert (Hd : resolved_date old_post now0 = Ret ("2020-01-01" : text))
    by (vm_compute; reflexivity).
  assert (Hlt : ltb "2020-01-01" "2025-01-01" = true) by reflexivity.
  split; [repeat split; assumption|].
  destruct (@since_filter_is_silent ip0 args0 notices old_post now0 "2025-01-01"
              "Spring fair" "https://campus.example/api" [] "2020-01-01" (initial [])
              Ht ltac:(discriminate) Hl Hdl Hd ltac:(discriminate) Hlt)
    as (Hn & Hp & _).
  split; assumption.
Defined.

(** C6, against the claim as stated: with lists under both [items] and
    [data] the parser returns the records of both, not those of the first
    key found. *)
Lemma both_lists_are_returned :
  parse_api (world_of two_lists) [] =
    [pairs [("title", VStr "a")]; pairs [("title", VStr "b")]] /\
  parse_api_spec (world_of two_lists) [] = [pairs [("title", VStr "a")]] /\
  parse_api (world_of two_lists) [] <> parse_api_spec (world_of two_lists) [].
Proof.
  split; [reflexivity|]. split; [reflexivity|].
  vm_compute. discriminate.
Qed.

Lemma parse_api_shapes_witness :
  json_loads (world_of (VList (map VDict [intern; untitled]))) []
    = Some (VList (map VDict [intern; untitled])) /\
  parse_api (world_of (VList (map VDict [intern; untitled]))) [] = [intern; untitled] /\
  json_loads (world_of (obj [("unexpected", VInt 1)])) []
    = Some (VDict (pairs [("unexpected", VInt 1)])) /\
  parse_api (world_of (obj [("unexpected", VInt 1)])) [] = [] /\
  snd (collect_from_source (world_of (obj [("unexpected", VInt 1)])) jobs 100 (initial []))
    = Ret ([], 0%Z) /\
  sink (fst (collect_from_source (world_of (obj [("unexpected", VInt 1)])) jobs 100
                                 (initial []))) = [].
Proof.
  split; [reflexivity|].
  split.
  { apply (proj1 (parse_api_shapes (world_of (VList (map VDict [intern; untitled]))) [])).
    reflexivity. }
  split; [reflexivity|].
  pose proof (parse_api_shapes (world_of (obj [("unexpected", VInt 1)])) [])
    as (_ & _ & Hnone & _ & _ & Hcollect).
  assert (Hp : parse_api (world_of (obj [("unexpected", VInt 1)])) [] = []).
  { apply (Hnone (pairs [("unexpected", VInt 1)])); reflexivity. }
  split; [exact Hp|].
  destruct (Hcollect jobs 100%Z (initial []) eq_refl eq_refl) as [Hs Hk].
  rewrite Hp in Hs. split; [exact Hs|exact Hk].
Defined.


(** C9, against the claim as stated: the hyphen that stands for the leading
    blank is trimmed by the code and kept by the steps as listed. *)
Lemma leading_hyphen_is_trimmed :
  slugify " a" = ("a" : text) /\ make_slug " a" = ("a" : text) /\
  slug_spec " a" = ("-a" : text) /\ make_slug " a" <> slug_spec " a".
Proof.
  split; [vm_compute; reflexivity|]. split; [vm_compute; reflexivity|].
  split; [vm_compute; reflexivity|]. vm_compute. discriminate.
Qed.

Lemma slug_is_function_of_title_witness :
  normalize_record ip0 jobs intern now0 1 None = Ret (Ok (intern_doc, "intern" : text)) /\
  exists title,
    get intern_doc "title" = VStr title /\
    ("intern" : text) = slug_steps (slug_steps title).
Proof.
  assert (H : normalize_record ip0 jobs intern now0 1 None
              = Ret (Ok (intern_doc, "intern" : text)))
    by (vm_compute; reflexivity).
  split; [exact H|]. exact (proj2 slug_is_function_of_title _ _ _ _ _ _ _ _ H).
Defined.

(** C7, against the claim as stated: a query mark or a fragment mark with
    nothing behind it is well formed, and it is dropped: what comes back is
    not the same URL with the scheme rewritten. *)
Lemma empty_query_mark_is_dropped :
  well_formed_parts "a.example" "/x" (Some []) None = true /\
  to_https ip0 ("http" +++ "://" +++ url_rest "a.example" "/x" (Some []) None)
    = Ret (Some ("https://a.example/x" : text)) /\
  to_https ip0 "http://a.example/x?" = Ret (Some ("https://a.example/x" : text)) /\
  to_https ip0 "http://a.example/x#" = Ret (Some ("https://a.example/x" : text)) /\
  ("https://a.example/x" : text) <> "https://a.example/x?".
Proof.
  split; [reflexivity|]. split; [vm_compute; reflexivity|].
  split; [vm_compute; reflexivity|]. split; [vm_compute; reflexivity|]. discriminate.
Qed.

Lemma to_https_rewrites_scheme_witness :
  (lower "HTTP" = of_string "http" /\
   well_formed_parts "acme.example" "/jobs" (Some (of_string "id=7")) (Some (of_string "top"))
     = true /\
   brackets_accepted ip0 "acme.example" = true) /\
  to_https ip0 "HTTP://acme.example/jobs?id=7#top"
    = Ret (Some ("https://acme.example/jobs?id=7#top" : text)) /\
  ~ http_like "  ftp://acme.example/ " /\
  to_https ip0 "  ftp://acme.example/ " = Ret None.
Proof.
  assert (H1 : lower "HTTP" = of_string "http") by reflexivity.
  assert (H2 : well_formed_parts "acme.example" "/jobs" (Some (of_string "id=7"))
                                 (Some (of_string "top")) = true)
    by (vm_compute; reflexivity).
  assert (H3 : brackets_accepted ip0 "acme.example" = true) by reflexivity.
  assert (H4 : ~ http_like "  ftp://acme.example/ ").
  { intros Hl. apply http_like_lstrip in Hl. vm_compute in Hl. discriminate Hl. }
  split; [split; [exact H1|split; [exact H2|exact H3]]|].
  split; [|split; [exact H4|exact (proj2 (to_https_rewrites_scheme ip0) _ H4)]].
  exact (proj1 (proj1 (to_https_rewrites_scheme ip0) "HTTP" "acme.example" "/jobs"
                      (Some (of_string "id=7")) (Some (of_string "top")) H1 H2) H3).
Defined.



Lemma accepted_slug_is_stable_witness :
  normalize_record ip0 jobs intern now0 1 None = Ret (Ok (intern_doc, "intern" : text)) /\
  slugify "intern" = ("intern" : text).
Proof.
  assert (H : normalize_record ip0 jobs intern now0 1 None
              = Ret (Ok (intern_doc, "intern" : text)))
    by (vm_compute; reflexivity).
  split; [exact H|].
  exact (proj1 (accepted_slug_is_stable _ _ _ _ _ _ _ _ H)).
Defined.

Lemma build_id_tells_date_and_sequence_witness :
  List.length (of_string "2025-11-02") = List.length (of_string "2025-11-03") /\
  (build_id "2025-11-02" "a" 7 = build_id "2025-11-03" "b" 7 <->
   of_string "2025-11-02" = of_string "2025-11-03" /\ 7%N = 7%N).
Proof.
  split; [reflexivity|].
  exact (build_id_tells_date_and_sequence "2025-11-02" "2025-11-03" "a" "b" 7 7 eq_refl).
Defined.

Lemma scrub_pii_fixed_iff_free_witness :
  free_of_pii "Bring your student card" /\
  scrub_pii "Bring your student card" = ("Bring your student card" : text).
Proof.
  assert (H : free_of_pii "Bring your student card")
    by (apply search_none_free; vm_compute; reflexivity).
  split; [exact H|].
  exact (proj2 (scrub_pii_fixed_iff_free "Bring your student card") H).
Defined.

Lemma parse_date_gives_iso_date_witness :
  parse_date " 2025.3.9 " = Some ("2025-03-09" : text) /\
  Re.matches ISO_DATE_RE "2025-03-09" = true.
Proof.
  assert (H : parse_date " 2025.3.9 " = Some ("2025-03-09" : text))
    by (vm_compute; reflexivity).
  split; [exact H|].
  exact (proj1 (parse_date_gives_iso_date _ _ H)).
Defined.

Lemma parse_date_round_trip_witness :
  date_iso 2024 2 29 = Some ("2024-02-29" : text) /\
  parse_date "2024-02-29" = Some ("2024-02-29" : text).
Proof.
  assert (H : date_iso 2024 2 29 = Some ("2024-02-29" : text))
    by (vm_compute; reflexivity).
  split; [exact H|].
  exact (proj1 (parse_date_round_trip 2024 2 29 _ H)).
Defined.

Lemma find_existing_takes_longer_slug_witness :
  (date_iso 2025 10 1 = Some ("2025-10-01" : text) /\
   find_existing [] "intern" = None) /\
  find_existing ([] ++ (post_file_name "2025-10-01" ("summer" +++ "-" +++ "intern"), None) :: [])
                "intern"
  = Some (post_file_name "2025-10-01" ("summer" +++ "-" +++ "intern")).
Proof.
  split; [split; [vm_compute; reflexivity|reflexivity]|].
  apply (find_existing_takes_longer_slug 2025 10 1); [vm_compute; reflexivity|reflexivity].
Defined.

Lemma written_post_is_found_witness :
  (date_iso 2025 11 2 = Some ("2025-11-02" : text) /\
   find_existing summer_intern_dir "analyst" = None) /\
  find_existing (write_json summer_intern_dir (post_file_name "2025-11-02" "analyst") VNone)
                "analyst"
  = Some (post_file_name "2025-11-02" "analyst").
Proof.
  split; [split; vm_compute; reflexivity|].
  apply (written_post_is_found 2025 11 2); vm_compute; reflexivity.
Defined.

Lemma accepted_document_schema_witness :
  normalize_record ip0 jobs intern now0 1 None = Ret (Ok (intern_doc, "intern" : text)) /\
  map fst intern_doc =
    texts ["id"; "type"; "title"; "subtitle"; "tags"; "date_published"; "deadline";
           "last_checked_at"; "source_name"; "source_url"; "payload"].
Proof.
  assert (H : normalize_record ip0 jobs intern now0 1 None
              = Ret (Ok (intern_doc, "intern" : text)))
    by (vm_compute; reflexivity).
  split; [exact H|].
  exact (proj1 (accepted_document_schema _ _ _ _ _ _ _ _ H)).
Defined.

Lemma reobserved_record_is_merged_witness :
  (date_iso 2025 11 2 = Some now0 /\ arg_dry_run args0 = false) /\
  exists st1 st2,
    process_record ip0 args0 jobs now0 None (initial []) intern = Ret st1 /\
    seq st1 = (seq (initial []) + 1)%N /\
    process_record ip0 args0 jobs now0 None st1 intern = Ret st2 /\
    files st2 = files st1.
Proof.
  split; [split; [vm_compute; reflexivity|reflexivity]|].
  assert (H1 : process_record ip0 args0 jobs now0 None (initial []) intern
               = Ret (mkState 2 1 false
                        [(post_file_name now0 "intern", Some (VDict intern_doc))] [] []))
    by (vm_compute; reflexivity).
  destruct (reobserved_record_is_merged ip0 args0 jobs now0 None (initial []) _ intern
              2025 11 2 ltac:(vm_compute; reflexivity) eq_refl H1 eq_refl)
    as (st2 & H2 & Hfiles & _).
  eexists. exists st2. split; [exact H1|]. split; [reflexivity|].
  split; [exact H2|exact Hfiles].
Defined.

Lemma dry_run_writes_nothing_witness :
  arg_dry_run (mkArgs "" "" 100 1000 true) = true /\
  exists st,
    main ip0 (world_of (VList [VDict intern])) (mkArgs "" "" 100 1000 true) (Ok [jobs])
         summer_intern_dir = Ret (0%Z, st) /\
    files st = summer_intern_dir /\
    events st = [Makedirs; Sleep 1000; Fetch (src_url jobs)].
Proof.
  split; [reflexivity|].
  assert (H : exists st,
             main ip0 (world_of (VList [VDict intern])) (mkArgs "" "" 100 1000 true)
                  (Ok [jobs]) summer_intern_dir = Ret (0%Z, st) /\
             events st = [Makedirs; Sleep 1000; Fetch (src_url jobs)])
    by (eexists; split; vm_compute; reflexivity).
  destruct H as (st & H & He). exists st. split; [exact H|]. split; [|exact He].
  destruct (dry_run_writes_nothing ip0 (world_of (VList [VDict intern]))
              (mkArgs "" "" 100 1000 true) (Ok [jobs]) summer_intern_dir eq_refl)
    as (Hst & Hf & _).
  rewrite (Hst _ _ H). exact Hf.
Defined.

Lemma exit_status_tells_source_failures_witness :
  exists st,
    main ip0 (world_of (VList [VDict untitled])) args0 (Ok [jobs]) [] = Ret (0%Z, st) /\
    forallb record_level (logged st) = true.
Proof.
  assert (H : exists st,
             main ip0 (world_of (VList [VDict untitled])) args0 (Ok [jobs]) []
             = Ret (0%Z, st))
    by (eexists; vm_compute; reflexivity).
  destruct H as [st H]. exists st. split; [exact H|].
  destruct (exit_status_tells_source_failures ip0 _ _ _ _ _ _ H)
    as [(Hc & _)|[(Hc & _)|(_ & Hr)]]; [discriminate Hc|discriminate Hc|exact Hr].
Defined.

Lemma per_source_cap_witness :
  exists st1 st2,
    ((0 <= arg_max_per_source (mkArgs "" "" 1 1000 false))%Z /\
     collect_from_source (world_of (VList [VDict intern; VDict plain_notice])) jobs 1
                         (initial [])
       = (st1, Ret ([intern], 0%Z)) /\
     process_records ip0 (mkArgs "" "" 1 1000 false) jobs now0 None
                     (flag_failure st1 false) [intern] = Ret st2) /\
    (total_written st2 <= total_written (initial []) + 1)%Z.
Proof.
  eexists. eexists.
  assert (H0 : (0 <= arg_max_per_source (mkArgs "" "" 1 1000 false))%Z) by (cbn; lia).
  assert (H1 : collect_from_source (world_of (VList [VDict intern; VDict plain_notice]))
                                   jobs 1 (initial [])
               = (log_events (initial []) [Sleep 1000; Fetch (src_url jobs)],
                  Ret ([intern], 0%Z)))
    by (vm_compute; reflexivity).
  assert (H2 : process_records ip0 (mkArgs "" "" 1 1000 false) jobs now0 None
                 (flag_failure (log_events (initial []) [Sleep 1000; Fetch (src_url jobs)])
                               false) [intern]
               = Ret (mkState 2 1 false
                        [(post_file_name now0 "intern", Some (VDict intern_doc))] []
                        [Sleep 1000; Fetch (src_url jobs)]))
    by (vm_compute; reflexivity).
  split; [split; [exact H0|split; [exact H1|exact H2]]|].
  exact (proj2 (proj2 (per_source_cap ip0 _ (mkArgs "" "" 1 1000 false) jobs now0 None
                         _ _ _ _ _ false H0 H1 H2))).
Defined.

Lemma nontext_title_aborts_run_witness :
  (get (pairs [("title", VInt 7)]) "title" = VInt 7 /\ truthy (VInt 7) = true /\
   (forall s, VInt 7 <> VStr s) /\
   (total_written (initial []) < arg_limit args0)%Z) /\
  main ip0 (world_of (VList [VDict (pairs [("title", VInt 7)])])) args0
       (Ok [jobs; notices]) [] = Raise "AttributeError".
Proof.
  assert (Hv : forall s, VInt 7 <> VStr s) by (intros s; discriminate).
  assert (Hl : (total_written (initial []) < arg_limit args0)%Z) by (cbn; lia).
  split; [split; [reflexivity|split; [reflexivity|split; [exact Hv|exact Hl]]]|].
  assert (Hc : collect_from_source (world_of (VList [VDict (pairs [("title", VInt 7)])]))
                                   jobs (arg_max_per_source args0)
                                   (log_events (initial []) [Makedirs])
               = (log_events (log_events (initial []) [Makedirs])
                             [Sleep 1000; Fetch (src_url jobs)],
                  Ret ([pairs [("title", VInt 7)]], 0%Z)))
    by (vm_compute; reflexivity).
  change (main ip0 (world_of (VList [VDict (pairs [("title", VInt 7)])])) args0
               (Ok [jobs; notices]) [])
    with (st <- run_sources ip0 (world_of (VList [VDict (pairs [("title", VInt 7)])]))
                            args0 now0 None (log_events (initial []) [Makedirs])
                            [jobs; notices] ;;
          Ret (if any_partial_fail st then 2%Z else 0%Z, st)).
  rewrite (proj2 (nontext_title_aborts_run ip0 _ args0 jobs now0 None
                    (log_events (initial []) [Makedirs]) _
                    (pairs [("title", VInt 7)]) [] _ [notices]
                    (VInt 7) eq_refl eq_refl Hv Hl Hc)).
  reflexivity.
Defined.

Lemma update_keeps_stored_fields_witness :
  (arg_dry_run args0 = false /\
   normalize_record ip0 jobs intern now0 (seq (initial summer_intern_dir)) None
     = Ret (Ok (intern_doc, "intern" : text)) /\
   find_existing (files (initial summer_intern_dir)) "intern"
     = Some ("2025-10-01-summer-intern.json" : text)) /\
  exists cur cur',
    read_json (files (initial summer_intern_dir)) "2025-10-01-summer-intern.json"
      = Ret (VDict cur) /\
    get cur' "last_checked_at" = VStr now0 /\
    get cur' "title" = get cur "title".
Proof.
  assert (Hn : normalize_record ip0 jobs intern now0 (seq (initial summer_intern_dir)) None
               = Ret (Ok (intern_doc, "intern" : text))) by (vm_compute; reflexivity).
  assert (Hf : find_existing (files (initial summer_intern_dir)) "intern"
               = Some ("2025-10-01-summer-intern.json" : text)) by (vm_compute; reflexivity).
  split; [split; [reflexivity|split; [exact Hn|exact Hf]]|].
  assert (Hr : exists cur,
             read_json (files (initial summer_intern_dir)) "2025-10-01-summer-intern.json"
             = Ret (VDict cur)) by (eexists; vm_compute; reflexivity).
  destruct Hr as [cur Hr].
  destruct (update_keeps_stored_fields ip0 args0 jobs now0 None (initial summer_intern_dir)
              intern intern_doc "intern" "2025-10-01-summer-intern.json" cur
              eq_refl Hn Hf Hr) as (cur' & _ & _ & Hl & _ & Hq).
  exists cur, cur'. split; [exact Hr|]. split; [exact Hl|].
  apply Hq; reflexivity.
Defined.

Lemma validate_rejects_incomplete_witness :
  (In ("title" : text) COMMON_REQUIRED /\
   (has untitled "title" = false \/
    exists s, get untitled "title" = VStr s /\ strip s = [])) /\
  validate_common untitled = Ret (Err Validate).
Proof.
  assert (Hk : In ("title" : text) COMMON_REQUIRED) by (cbn; tauto).
  assert (Hb : has untitled "title" = false \/
               exists s, get untitled "title" = VStr s /\ strip s = [])
    by (right; exists []; split; reflexivity).
  split; [split; [exact Hk|exact Hb]|].
  exact (validate_rejects_incomplete untitled "title" Hk Hb).
Defined.

Lemma iso_order_is_chronological_witness :
  (date_iso 2025 9 30 = Some ("2025-09-30" : text) /\
   date_iso 2025 10 1 = Some ("2025-10-01" : text)) /\
  ltb "2025-09-30" "2025-10-01" = true.
Proof.
  assert (Ha : date_iso 2025 9 30 = Some ("2025-09-30" : text)) by (vm_compute; reflexivity).
  assert (Hb : date_iso 2025 10 1 = Some ("2025-10-01" : text)) by (vm_compute; reflexivity).
  split; [split; [exact Ha|exact Hb]|].
  apply (proj2 (iso_order_is_chronological 2025 9 30 2025 10 1 _ _ Ha Hb)).
  right. split; [reflexivity|]. left. reflexivity.
Defined.

Lemma parse_date_needs_digits_witness :
  Forall (fun c => Chr.is_digit c = false) (of_string "until further notice") /\
  parse_date "until further notice" = None.
Proof.
  assert (H : Forall (fun c => Chr.is_digit c = false) (of_string "until further notice"))
    by (repeat constructor).
  split; [exact H|].
  exact (parse_date_needs_digits _ H).
Defined.

Lemma to_https_keeps_https_witness :
  (lower "HTTPS" = of_string "https" /\
   well_formed_parts "acme.example" "/jobs" (Some (of_string "id=7")) (Some [])
     = true /\
   brackets_accepted ip0 "acme.example" = true) /\
  to_https ip0 "HTTPS://acme.example/jobs?id=7#"
    = Ret (Some ("https://acme.example/jobs?id=7" : text)) /\
  to_https ip0 "https://acme.example/jobs?id=7"
    = Ret (Some ("https://acme.example/jobs?id=7" : text)).
Proof.
  assert (H1 : lower "HTTPS" = of_string "https") by reflexivity.
  assert (H2 : well_formed_parts "acme.example" "/jobs" (Some (of_string "id=7")) (Some [])
               = true) by (vm_compute; reflexivity).
  assert (H3 : brackets_accepted ip0 "acme.example" = true) by reflexivity.
  split; [split; [exact H1|split; [exact H2|exact H3]]|].
  destruct (to_https_keeps_https ip0 "HTTPS" "acme.example" "/jobs"
              (Some (of_string "id=7")) (Some []) H1 H2 H3) as (Ha & _ & Hb).
  split; [exact Ha|]. apply Hb. vm_compute. reflexivity.
Defined.

Lemma post_type_decides_acceptance_witness :
  ~ In (choose_type (api_source "acme-api" "https://acme.example/api" "internship")) TYPES /\
  forall doc slug,
    normalize_record ip0 (api_source "acme-api" "https://acme.example/api" "internship")
                     intern now0 1 None <> Ret (Ok (doc, slug)).
Proof.
  assert (H : ~ In (choose_type (api_source "acme-api" "https://acme.example/api"
                                            "internship")) TYPES).
  { cbn. intros H. repeat (destruct H as [H|H]; [discriminate H|]). exact H. }
  split; [exact H|]. intros doc slug.
  exact (proj2 (post_type_decides_acceptance ip0 _) H intern now0 1%N None doc slug).
Defined.

